(** * git-anticipate: session state machine and resolution replay

    A shallow embedding of [main.go].  The program is a sequence of calls
    to [git] and to the [os] package; every Go function below is written
    as a computation over an explicit [World] that holds what those calls
    read and change: the repository (objects, refs, index, work tree), the
    directories under the git directory, the two output streams, and the
    list of external calls made so far.

    Modelling boundary (what the source delegates to git and the OS):
    - the program runs at the root of the work tree, so the names git
      prints are also the names [os.ReadFile] and [os.WriteFile] use;
    - the work tree is a flat map from path to content; directories of
      the work tree are implicit, so [os.MkdirAll] on them changes
      nothing;
    - git prints path names verbatim, one per line (no quoting, no
      rename detection), and ignore rules are not modelled;
    - what a three-way merge does to each path, the merge base, the
      hash of a new commit, the verdict of the commit hooks and the
      iteration order of Go maps are supplied by the environment [Env];
    - of the failures of the OS, the ones modelled are those of creating
      a directory and of writing a file, which the source checks for. *)

From Stdlib Require Import String Ascii.
From Stdlib.Strings Require Import Byte.
From stdpp Require Import gmap strings list fin_maps pretty.

#[global] Instance byte_eq_dec : EqDecision byte.
Proof.
  intros x y. destruct (Byte.eqb x y) eqn:E.
  - left. by apply Byte.byte_dec_bl.
  - right. intros ->. by rewrite Byte.byte_dec_lb in E.
Defined.

(** ** Strings, as the Go [strings] and [path/filepath] packages use them *)

Definition LF : string := String (ascii_of_nat 10) "".
Definition TAB : string := String (ascii_of_nat 9) "".

(** [unicode.IsSpace] on the ASCII range (strings are byte strings here;
    the two-byte Unicode spaces are outside the model). *)
Definition isSpace (a : ascii) : bool :=
  let n := nat_of_ascii a in
  (Nat.leb 9 n && Nat.leb n 13) || Nat.eqb n 32.

Fixpoint trimLeft (s : string) : string :=
  match s with
  | EmptyString => EmptyString
  | String a s' => if isSpace a then trimLeft s' else s
  end.

Fixpoint trimRight (s : string) : string :=
  match s with
  | EmptyString => EmptyString
  | String a s' =>
      match trimRight s' with
      | EmptyString => if isSpace a then EmptyString else String a EmptyString
      | r => String a r
      end
  end.

(** [strings.TrimSpace] *)
Definition TrimSpace (s : string) : string := trimRight (trimLeft s).

(** [strings.Split(s, "\n")]: never empty, the pieces between line feeds. *)
Fixpoint Split (s : string) : list string :=
  match s with
  | EmptyString => [EmptyString]
  | String a s' =>
      if Ascii.eqb a (ascii_of_nat 10) then EmptyString :: Split s'
      else match Split s' with
           | h :: t => String a h :: t
           | [] => [String a EmptyString]
           end
  end.

(** The loop that the source writes three times over git's listings:
<<
  for _, f := range strings.Split(strings.TrimSpace(string(out)), "\n") {
      if f != "" { files = append(files, f) }
  }
>> *)
Definition nonEmptyLines (out : string) : list string :=
  filter (λ f, f ≠ EmptyString) (Split (TrimSpace out)).

(** What git prints for a list of names: each followed by a line feed. *)
Definition unlines (l : list string) : string :=
  foldr (λ p acc, p +:+ LF +:+ acc) EmptyString l.

(** [filepath.Join] of a directory and a name (no cleaning). *)
Definition filepath_Join (dir name : string) : string := dir +:+ "/" +:+ name.

Fixpoint beforeLastSlash (s : string) : option string :=
  match s with
  | EmptyString => None
  | String a s' =>
      match beforeLastSlash s' with
      | Some d => Some (String a d)
      | None => if Ascii.eqb a "/" then Some EmptyString else None
      end
  end.

(** [filepath.Dir] on the clean relative paths git prints. *)
Definition filepath_Dir (p : string) : string :=
  match beforeLastSlash p with
  | None => "."
  | Some EmptyString => "/"
  | Some d => d
  end.

(** ** Errors and exit codes *)

Definition ExitSuccess : nat := 0.
Definition ExitConflictsFound : nat := 1.
Definition ExitError : nat := 2.

(** Go [error] values: the sentinel [errConflicts], or an error made by
    [fmt.Errorf] / returned by a failed call, known by its message. *)
Inductive error : Type :=
| errConflicts
| Errorf (msg : string).

Definition Error (e : error) : string :=
  match e with
  | errConflicts => "conflicts"
  | Errorf msg => msg
  end.

#[global] Instance error_eq_dec : EqDecision error.
Proof. solve_decision. Defined.

Definition anticipateDir : string := "anticipate".

(** ** The repository and its surroundings *)

Record Commit : Type := mkCommit {
  c_tree : gmap string (list byte);
  c_parents : list string;
  c_message : string;
}.

(** What a merge does to one path: it is merged and staged (with the
    merged content, or as a deletion), or it is left unmerged (with the
    file git leaves in the work tree, if any). *)
Inductive PathMerge : Type :=
| Merged (c : option (list byte))
| Unmerged (c : option (list byte)).

Inductive MergePlan : Type :=
| Refused (out : string)
| UpToDate
| Applied (ps : list (string * PathMerge)).

Record Env : Type := mkEnv {
  merge_plan : string → string → MergePlan;
  merge_base : string → string → option string;
  commit_id : Commit → string;
  hook_rejects : bool;
  mkdir_fails : string → bool;
  write_fails : string → bool;
  range_pick : list string → nat;
}.

Inductive GitCmd : Type :=
| RevParseGitDir
| RevParseVerify (rev : string)
| RevParseAbbrevRefHEAD
| RevParse (rev : string)
| MergeBase (b1 b2 : string)
| StatusPorcelain
| DiffCachedQuiet
| DiffQuiet
| Merge (b : string)
| LsFilesU
| DiffNameOnlyU
| MergeAbort
| AddU
| DiffCachedNameOnly
| DiffCachedNameOnlyD
| ResetHard (rev : string)
| RmCached (f : string)
| Add (f : string)
| CommitM (msg : string) (noVerify : bool).

Inductive Call : Type :=
| Git (c : GitCmd)
| OsStat (p : string)
| OsMkdirAll (p : string)
| OsWriteFile (p : string) (data : list byte)
| OsReadFile (p : string)
| OsRemove (p : string)
| OsRemoveAll (p : string).

#[global] Instance GitCmd_eq_dec : EqDecision GitCmd.
Proof. solve_decision. Defined.
#[global] Instance Call_eq_dec : EqDecision Call.
Proof. solve_decision. Defined.

Record World : Type := mkWorld {
  env : Env;
  gitdir : option string;
  branch : string;
  refs : gmap string string;
  objects : gmap string Commit;
  index : gmap string (list byte);
  conflicted : gset string;
  merge_head : option string;
  worktree : gmap string (list byte);
  dirs : gmap string (gmap string (list byte));
  stdout : list string;
  stderr : list string;
  log : list Call;
}.

Definition set_refs (f : gmap string string → gmap string string) (w : World) : World :=
  mkWorld (env w) (gitdir w) (branch w) (f (refs w)) (objects w) (index w)
    (conflicted w) (merge_head w) (worktree w) (dirs w) (stdout w) (stderr w) (log w).
Definition set_objects (f : gmap string Commit → gmap string Commit) (w : World) : World :=
  mkWorld (env w) (gitdir w) (branch w) (refs w) (f (objects w)) (index w)
    (conflicted w) (merge_head w) (worktree w) (dirs w) (stdout w) (stderr w) (log w).
Definition set_index (f : gmap string (list byte) → gmap string (list byte)) (w : World) : World :=
  mkWorld (env w) (gitdir w) (branch w) (refs w) (objects w) (f (index w))
    (conflicted w) (merge_head w) (worktree w) (dirs w) (stdout w) (stderr w) (log w).
Definition set_conflicted (f : gset string → gset string) (w : World) : World :=
  mkWorld (env w) (gitdir w) (branch w) (refs w) (objects w) (index w)
    (f (conflicted w)) (merge_head w) (worktree w) (dirs w) (stdout w) (stderr w) (log w).
Definition set_merge_head (m : option string) (w : World) : World :=
  mkWorld (env w) (gitdir w) (branch w) (refs w) (objects w) (index w)
    (conflicted w) m (worktree w) (dirs w) (stdout w) (stderr w) (log w).
Definition set_worktree (f : gmap string (list byte) → gmap string (list byte)) (w : World) : World :=
  mkWorld (env w) (gitdir w) (branch w) (refs w) (objects w) (index w)
    (conflicted w) (merge_head w) (f (worktree w)) (dirs w) (stdout w) (stderr w) (log w).
Definition set_dirs (f : gmap string (gmap string (list byte)) → gmap string (gmap string (list byte)))
    (w : World) : World :=
  mkWorld (env w) (gitdir w) (branch w) (refs w) (objects w) (index w)
    (conflicted w) (merge_head w) (worktree w) (f (dirs w)) (stdout w) (stderr w) (log w).
Definition set_stdout (f : list string → list string) (w : World) : World :=
  mkWorld (env w) (gitdir w) (branch w) (refs w) (objects w) (index w)
    (conflicted w) (merge_head w) (worktree w) (dirs w) (f (stdout w)) (stderr w) (log w).
Definition set_stderr (f : list string → list string) (w : World) : World :=
  mkWorld (env w) (gitdir w) (branch w) (refs w) (objects w) (index w)
    (conflicted w) (merge_head w) (worktree w) (dirs w) (stdout w) (f (stderr w)) (log w).
Definition record (c : Call) (w : World) : World :=
  mkWorld (env w) (gitdir w) (branch w) (refs w) (objects w) (index w)
    (conflicted w) (merge_head w) (worktree w) (dirs w) (stdout w) (stderr w) (log w ++ [c]).

(** ** Computations: state passing with Go's error returns *)

Inductive result (A : Type) : Type :=
| Ok (a : A)
| Err (e : error).
Arguments Ok {A} a.
Arguments Err {A} e.

Definition M (A : Type) : Type := World → result A * World.

Definition ret {A} (a : A) : M A := λ w, (Ok a, w).
Definition fail {A} (e : error) : M A := λ w, (Err e, w).
Definition bind {A B} (m : M A) (k : A → M B) : M B :=
  λ w, match m w with
       | (Ok a, w') => k a w'
       | (Err e, w') => (Err e, w')
       end.

Notation "'let*' x ':=' m 'in' k" := (bind m (λ x, k))
  (at level 10, x name, m at level 100, k at level 200).
Notation "m >> k" := (bind m (λ _, k))
  (at level 90, right associativity).

(** [if err != nil { return f(err) }] around a call. *)
Definition onError {A} (f : error → error) (m : M A) : M A :=
  λ w, match m w with
       | (Ok a, w') => (Ok a, w')
       | (Err e, w') => (Err (f e), w')
       end.

(** [fmt.Errorf(prefix + "%w", err)] *)
Definition wrap (prefix : string) (e : error) : error := Errorf (prefix +:+ Error e).

(** A call whose error the source drops. *)
Definition ignoreError {A} (m : M A) : M unit :=
  λ w, (Ok tt, snd (m w)).

(** [x, _ := f()]: the value, or the default when the call failed. *)
Definition orDefault {A} (d : A) (m : M A) : M A :=
  λ w, match m w with
       | (Ok a, w') => (Ok a, w')
       | (Err _, w') => (Ok d, w')
       end.

Fixpoint forEach {A} (l : list A) (body : A → M unit) : M unit :=
  match l with
  | [] => ret tt
  | x :: l' => body x >> forEach l' body
  end.

(** The order in which a [range] over a Go map visits the keys: every
    key once; which of the remaining keys comes next is the choice of
    the environment. *)
Fixpoint visit (pick : list string → nat) (n : nat) (keys : list string) : list string :=
  match n with
  | 0 => []
  | S n' =>
      match keys !! (pick keys `mod` length keys) with
      | Some k => k :: visit pick n' (delete (pick keys `mod` length keys) keys)
      | None => []
      end
  end.

Definition rangeOrder (e : Env) (keys : list string) : list string :=
  visit (range_pick e) (length keys) keys.

(** [for k, v := range m] over a Go map. *)
Definition rangeMap {V} (m : gmap string V) (body : string → V → M unit) : M unit :=
  λ w, forEach (rangeOrder (env w) (elements (dom m)))
         (λ k, match m !! k with Some v => body k v | None => ret tt end) w.

Definition Printf (s : string) : M unit :=
  λ w, (Ok tt, set_stdout (λ o, o ++ [s]) w).

(** ** What git does

    [git_exec c w] is the exit status (true for 0) and the standard
    output of one git command, and the world it leaves. *)

Definition HEAD (w : World) : option string := refs w !! branch w.

Definition tree_at (w : World) (id : string) : gmap string (list byte) :=
  default ∅ (c_tree <$> objects w !! id).

Definition head_tree (w : World) : gmap string (list byte) :=
  from_option (tree_at w) ∅ (HEAD w).

(** A revision names a commit: [HEAD], a full object id, or a branch. *)
Definition resolve (w : World) (rev : string) : option string :=
  if decide (rev = "HEAD") then HEAD w
  else match objects w !! rev with
       | Some _ => Some rev
       | None => refs w !! rev
       end.

Definition tracked (w : World) : gset string := dom (index w) ∪ conflicted w.

(** Make the index and the tracked files equal to tree [t]; files git
    does not track stay, unless [t] has a file of that name. *)
Definition checkout_tree (t : gmap string (list byte)) (w : World) : World :=
  set_merge_head None
    (set_conflicted (λ _, ∅)
      (set_index (λ _, t)
        (set_worktree (λ wt, t ∪ filter (λ kv, kv.1 ∉ tracked w) wt) w))).

Definition apply_path (w : World) (pm : string * PathMerge) : World :=
  match pm with
  | (p, Merged (Some c)) =>
      set_conflicted (λ u, u ∖ {[p]}) (set_index <[p:=c]> (set_worktree <[p:=c]> w))
  | (p, Merged None) =>
      set_conflicted (λ u, u ∖ {[p]}) (set_index (delete p) (set_worktree (delete p) w))
  | (p, Unmerged (Some c)) =>
      set_conflicted (λ u, {[p]} ∪ u) (set_index (delete p) (set_worktree <[p:=c]> w))
  | (p, Unmerged None) =>
      set_conflicted (λ u, {[p]} ∪ u) (set_index (delete p) (set_worktree (delete p) w))
  end.

(** [git merge <b> --no-commit --no-ff] *)
Definition git_merge (b : string) (w : World) : (bool * string) * World :=
  match HEAD w, resolve w b with
  | Some h, Some t =>
      if bool_decide (merge_head w = None ∧ conflicted w = ∅ ∧ index w = head_tree w) then
        match merge_plan (env w) h t with
        | Refused out => ((false, out), w)
        | UpToDate => ((true, "Already up to date." +:+ LF), w)
        | Applied ps =>
            let w' := set_merge_head (Some t) (foldl apply_path w ps) in
            ((bool_decide (conflicted w' = ∅), ""), w')
        end
      else ((false, "error: merging is not possible because of uncommitted changes." +:+ LF), w)
  | _, _ => ((false, "merge: " +:+ b +:+ " - not something we can merge" +:+ LF), w)
  end.

(** Paths whose staged content differs from [HEAD], as
    [git diff --cached --name-only] lists them. *)
Definition changed_paths (w : World) : list string :=
  elements (filter (λ p, p ∈ conflicted w ∨ index w !! p ≠ head_tree w !! p)
              (dom (index w) ∪ dom (head_tree w) ∪ conflicted w)).

(** The ones [--diff-filter=D] keeps: in [HEAD], gone from the index. *)
Definition deleted_paths (w : World) : list string :=
  elements (filter (λ p, (p ∉ conflicted w) ∧ index w !! p = None) (dom (head_tree w))).

(** One path of [git status --porcelain]: staged and unstaged state in
    two columns, and a line of its own for a file git does not track. *)
Definition status_lines (w : World) (p : string) : list string :=
  if decide (p ∈ conflicted w) then ["UU " +:+ p]
  else
    let h := head_tree w !! p in
    let i := index w !! p in
    let t := worktree w !! p in
    let X := match h, i with
             | None, None => " " | None, Some _ => "A" | Some _, None => "D"
             | Some a, Some b => if decide (a = b) then " " else "M"
             end in
    let Y := match i, t with
             | Some _, None => "D"
             | Some a, Some b => if decide (a = b) then " " else "M"
             | None, _ => " "
             end in
    (if decide (X = " " ∧ Y = " ") then [] else [X +:+ Y +:+ " " +:+ p])
    ++ (match i, t with None, Some _ => ["?? " +:+ p] | _, _ => [] end).

Definition status_porcelain (w : World) : list string :=
  elements (dom (head_tree w) ∪ dom (index w) ∪ dom (worktree w) ∪ conflicted w)
    ≫= status_lines w.

(** One entry of [git ls-files -u]: mode, object, stage, then the path
    (blob ids are not modelled; the column shows zeros). *)
Definition ls_files_line (p : string) : string :=
  "100644 0000000000000000000000000000000000000000 1" +:+ TAB +:+ p.

Definition new_commit (msg : string) (w : World) : Commit :=
  mkCommit (index w) (option_list (HEAD w) ++ option_list (merge_head w)) msg.

Definition git_exec (c : GitCmd) (w : World) : (bool * string) * World :=
  match gitdir w with
  | None => ((false, ""), w)
  | Some gd =>
    match c with
    | RevParseGitDir => ((true, gd +:+ LF), w)
    | RevParseVerify rev | RevParse rev =>
        match resolve w rev with
        | Some id => ((true, id +:+ LF), w)
        | None => ((false, ""), w)
        end
    | RevParseAbbrevRefHEAD =>
        match HEAD w with
        | Some _ => ((true, branch w +:+ LF), w)
        | None => ((false, "HEAD" +:+ LF), w)
        end
    | MergeBase b1 b2 =>
        match resolve w b1, resolve w b2 with
        | Some c1, Some c2 =>
            match merge_base (env w) c1 c2 with
            | Some id => ((true, id +:+ LF), w)
            | None => ((false, ""), w)
            end
        | _, _ => ((false, ""), w)
        end
    | StatusPorcelain => ((true, unlines (status_porcelain w)), w)
    | DiffCachedQuiet =>
        ((bool_decide (conflicted w = ∅ ∧ index w = head_tree w), ""), w)
    | DiffQuiet =>
        ((bool_decide (conflicted w = ∅
                       ∧ filter (λ kv, kv.1 ∈ dom (index w)) (worktree w) = index w), ""), w)
    | Merge b => git_merge b w
    | LsFilesU => ((true, unlines (ls_files_line <$> elements (conflicted w))), w)
    | DiffNameOnlyU => ((true, unlines (elements (conflicted w))), w)
    | MergeAbort =>
        match merge_head w with
        | Some _ => ((true, ""), checkout_tree (head_tree w) w)
        | None => ((false, ""), w)
        end
    | AddU =>
        ((true, ""),
         set_conflicted (λ _, ∅)
           (set_index (λ _, filter (λ kv, kv.1 ∈ tracked w) (worktree w)) w))
    | DiffCachedNameOnly => ((true, unlines (changed_paths w)), w)
    | DiffCachedNameOnlyD => ((true, unlines (deleted_paths w)), w)
    | ResetHard rev =>
        match resolve w rev with
        | Some id =>
            match objects w !! id with
            | Some cm => ((true, ""), set_refs <[branch w := id]> (checkout_tree (c_tree cm) w))
            | None => ((false, ""), w)
            end
        | None => ((false, ""), w)
        end
    | RmCached f =>
        ((true, ""), set_conflicted (λ u, u ∖ {[f]}) (set_index (delete f) w))
    | Add f =>
        match worktree w !! f with
        | Some c => ((true, ""), set_conflicted (λ u, u ∖ {[f]}) (set_index <[f:=c]> w))
        | None =>
            if decide (f ∈ tracked w)
            then ((true, ""), set_conflicted (λ u, u ∖ {[f]}) (set_index (delete f) w))
            else ((false, ""), w)
        end
    | CommitM msg noVerify =>
        if bool_decide (conflicted w ≠ ∅)
           || bool_decide (merge_head w = None ∧ index w = head_tree w)
           || (hook_rejects (env w) && negb noVerify)
        then ((false, ""), w)
        else
          let cm := new_commit msg w in
          let id := commit_id (env w) cm in
          ((true, ""),
           set_merge_head None (set_refs <[branch w := id]> (set_objects <[id := cm]> w)))
    end
  end.

(** The error of a command that exits with a non-zero status (the status
    number itself is not tracked). *)
Definition exitError : error := Errorf "exit status 1".

(** [cmd.Run()] *)
Definition Run (c : GitCmd) : M unit :=
  λ w, match git_exec c (record (Git c) w) with
       | ((true, _), w') => (Ok tt, w')
       | ((false, _), w') => (Err exitError, w')
       end.

(** [cmd.Output()] *)
Definition Output (c : GitCmd) : M string :=
  λ w, match git_exec c (record (Git c) w) with
       | ((true, out), w') => (Ok out, w')
       | ((false, _), w') => (Err exitError, w')
       end.

(** [cmd.CombinedOutput()]: the output comes back also when the command fails. *)
Definition CombinedOutput (c : GitCmd) : M (string * option error) :=
  λ w, match git_exec c (record (Git c) w) with
       | ((true, out), w') => (Ok (out, None), w')
       | ((false, out), w') => (Ok (out, Some exitError), w')
       end.

(** ** What the [os] package does *)

(** [os.Stat(dir)] succeeds *)
Definition os_Stat (dir : string) : M unit :=
  λ w, let w' := record (OsStat dir) w in
       match dirs w !! dir with
       | Some _ => (Ok tt, w')
       | None => (Err (Errorf ("stat " +:+ dir +:+ ": no such file or directory")), w')
       end.

(** [os.MkdirAll(dir, 0755)] for a directory under the git directory *)
Definition os_MkdirAll (dir : string) : M unit :=
  λ w, let w' := record (OsMkdirAll dir) w in
       if mkdir_fails (env w) dir
       then (Err (Errorf ("mkdir " +:+ dir +:+ ": permission denied")), w')
       else (Ok tt, set_dirs (λ ds, match ds !! dir with Some _ => ds | None => <[dir := ∅]> ds end) w').

(** [os.RemoveAll(dir)] *)
Definition os_RemoveAll (dir : string) : M unit :=
  λ w, (Ok tt, set_dirs (delete dir) (record (OsRemoveAll dir) w)).

(** [os.WriteFile(filepath.Join(dir, name), data, 0644)] *)
Definition os_WriteFileIn (dir name : string) (data : list byte) : M unit :=
  λ w, let path := filepath_Join dir name in
       let w' := record (OsWriteFile path data) w in
       match dirs w !! dir with
       | Some files =>
           if write_fails (env w) path
           then (Err (Errorf ("open " +:+ path +:+ ": permission denied")), w')
           else (Ok tt, set_dirs <[dir := <[name := data]> files]> w')
       | None => (Err (Errorf ("open " +:+ path +:+ ": no such file or directory")), w')
       end.

(** [os.ReadFile(filepath.Join(dir, name))] *)
Definition os_ReadFileIn (dir name : string) : M (list byte) :=
  λ w, let path := filepath_Join dir name in
       let w' := record (OsReadFile path) w in
       match dirs w !! dir ≫= (.!! name) with
       | Some data => (Ok data, w')
       | None => (Err (Errorf ("open " +:+ path +:+ ": no such file or directory")), w')
       end.

(** [os.ReadFile(file)] in the work tree *)
Definition os_ReadFile (file : string) : M (list byte) :=
  λ w, let w' := record (OsReadFile file) w in
       match worktree w !! file with
       | Some data => (Ok data, w')
       | None => (Err (Errorf ("open " +:+ file +:+ ": no such file or directory")), w')
       end.

(** [os.WriteFile(file, content, 0644)] in the work tree *)
Definition os_WriteFile (file : string) (content : list byte) : M unit :=
  λ w, let w' := record (OsWriteFile file content) w in
       if write_fails (env w) file
       then (Err (Errorf ("open " +:+ file +:+ ": permission denied")), w')
       else (Ok tt, set_worktree <[file := content]> w').

(** [os.MkdirAll(dir, 0755)] in the work tree, whose directories are implicit *)
Definition os_MkdirAll_tree (dir : string) : M unit :=
  λ w, (Ok tt, record (OsMkdirAll dir) w).

(** [os.Remove(file)] in the work tree *)
Definition os_Remove (file : string) : M unit :=
  λ w, let w' := record (OsRemove file) w in
       match worktree w !! file with
       | Some _ => (Ok tt, set_worktree (delete file) w')
       | None => (Err (Errorf ("remove " +:+ file +:+ ": no such file or directory")), w')
       end.

(** ** main.go: state management *)

Definition isAnticipateInProgress (stateDir : string) : M bool :=
  λ w, match os_Stat stateDir w with
       | (Ok _, w') => (Ok true, w')
       | (Err _, w') => (Ok false, w')
       end.

Definition saveState (stateDir targetBranch origHead targetSHA currentBranch : string) : M unit :=
  let* _ := os_MkdirAll stateDir in
  let files : gmap string string :=
    <["target" := targetBranch]>
      (<["orig_head" := origHead]>
        (<["target_sha" := targetSHA]>
          (<["current_branch" := currentBranch]> ∅))) in
  rangeMap files (λ name content,
    os_WriteFileIn stateDir name (list_byte_of_string content)).

Definition readStateFile (stateDir name : string) : M string :=
  let* data := os_ReadFileIn stateDir name in
  ret (TrimSpace (string_of_list_byte data)).

Definition removeState (stateDir : string) : M unit :=
  ignoreError (os_RemoveAll stateDir).

(** ** main.go: git operations *)

Definition validateRepo : M unit :=
  onError (λ _, Errorf "not a git repository") (Run RevParseGitDir).

Definition getGitDir : M string :=
  let* output := Output RevParseGitDir in
  ret (TrimSpace output).

Definition validateBranchExists (branch : string) : M unit :=
  Run (RevParseVerify branch).

Definition getCurrentBranch : M string :=
  let* output := Output RevParseAbbrevRefHEAD in
  ret (TrimSpace output).

Definition getRevisionSHA (revision : string) : M string :=
  let* output := Output (RevParse revision) in
  ret (TrimSpace output).

Definition getMergeBase (branch1 branch2 : string) : M string :=
  let* output := Output (MergeBase branch1 branch2) in
  ret (TrimSpace output).

Definition truncateSHA (sha : string) : string :=
  let sha := TrimSpace sha in
  if 8 <? String.length sha then substring 0 8 sha
  else if String.length sha =? 0 then "unknown"
  else sha.

Definition hasUncommittedChanges : M bool :=
  λ w, match Output StatusPorcelain w with
       | (Ok output, w') => (Ok (0 <? String.length (TrimSpace output)), w')
       | (Err _, w') => (Ok false, w')
       end.

(** [cmd.Run() != nil] *)
Definition fails (m : M unit) : M bool :=
  λ w, match m w with
       | (Ok _, w') => (Ok false, w')
       | (Err _, w') => (Ok true, w')
       end.

Definition hasStagedOrUnstagedChanges : M bool :=
  let* staged := fails (Run DiffCachedQuiet) in
  if staged then ret true
  else
    let* unstaged := fails (Run DiffQuiet) in
    if unstaged then ret true
    else ret false.

Inductive MergeResult : Type :=
| MergeClean
| MergeConflict
| MergeError.

Definition hasUnmergedFiles : M bool :=
  λ w, match Output LsFilesU w with
       | (Ok output, w') => (Ok (0 <? String.length (TrimSpace output)), w')
       | (Err _, w') => (Ok false, w')
       end.

Definition performMerge (targetBranch : string) : M (MergeResult * option error) :=
  let* r := CombinedOutput (Merge targetBranch) in
  match r with
  | (output, Some _) =>
      let* unmerged := hasUnmergedFiles in
      if unmerged then ret (MergeConflict, None)
      else ret (MergeError, Some (Errorf ("merge failed: " +:+ TrimSpace output)))
  | (_, None) => ret (MergeClean, None)
  end.

Definition getConflictingFiles : M (list string) :=
  λ w, match Output DiffNameOnlyU w with
       | (Ok output, w') => (Ok (nonEmptyLines output), w')
       | (Err _, w') => (Ok [], w')
       end.

Definition abortMerge : M unit :=
  ignoreError (Run MergeAbort).

(** ** main.go: the four operations *)

Definition startAnticipate (stateDir targetBranch : string) : M unit :=
  Printf ("🚀 git-anticipate: Preemptive conflict resolution" +:+ LF) >>
  Printf ("Target branch: " +:+ targetBranch +:+ LF +:+ LF) >>
  let* inProgress := isAnticipateInProgress stateDir in
  if inProgress then
    fail (Errorf ("anticipate already in progress" +:+ LF
                  +:+ "Use 'git anticipate --continue' or 'git anticipate --abort'"))
  else
  let* dirty := hasUncommittedChanges in
  if dirty then
    fail (Errorf ("you have uncommitted changes" +:+ LF
                  +:+ "Please commit or stash them before running git anticipate"))
  else
  let* currentBranch := onError (wrap "failed to get current branch: ") getCurrentBranch in
  Printf ("Current branch: " +:+ currentBranch +:+ LF) >>
  onError (λ _, Errorf ("target branch '" +:+ targetBranch +:+ "' does not exist"))
    (validateBranchExists targetBranch) >>
  let* origHead := onError (wrap "failed to get current HEAD: ") (getRevisionSHA "HEAD") in
  let* targetSHA := onError (wrap "failed to get target branch SHA: ") (getRevisionSHA targetBranch) in
  let* baseSHA := onError (wrap "failed to get merge base: ") (getMergeBase targetBranch currentBranch) in
  Printf ("Merge base: " +:+ truncateSHA baseSHA +:+ LF +:+ LF) >>
  onError (wrap "failed to save state: ")
    (saveState stateDir targetBranch origHead targetSHA currentBranch) >>
  Printf ("✔ Attempting merge with " +:+ targetBranch +:+ "..." +:+ LF) >>
  let* merged := performMerge targetBranch in
  match merged with
  | (MergeConflict, _) =>
      let* conflictFiles := getConflictingFiles in
      Printf (LF +:+ "⚠️  Conflicts detected!" +:+ LF +:+ LF) >>
      (if 0 <? length conflictFiles then
         Printf ("Conflicting files (" +:+ pretty (length conflictFiles) +:+ "):" +:+ LF) >>
         forEach conflictFiles (λ file, Printf ("    ❌ " +:+ file +:+ LF)) >>
         Printf LF
       else ret tt) >>
      Printf ("Resolve conflicts in your working directory, then:" +:+ LF) >>
      Printf ("  git add <resolved-files>" +:+ LF) >>
      Printf ("  git anticipate --continue" +:+ LF +:+ LF) >>
      Printf ("Or to abort:" +:+ LF) >>
      Printf ("  git anticipate --abort" +:+ LF) >>
      fail errConflicts
  | (MergeError, mergeErr) =>
      removeState stateDir >>
      match mergeErr with
      | Some e => fail e
      | None => ret tt
      end
  | (MergeClean, _) =>
      let* changes := hasStagedOrUnstagedChanges in
      if negb changes then
        Printf ("✨ No conflicts and no changes - branches are already compatible!" +:+ LF) >>
        removeState stateDir >>
        ret tt
      else
        Printf ("✔ No conflicts detected!" +:+ LF) >>
        Printf (LF +:+ "Changes from " +:+ targetBranch
                +:+ " are staged. To apply as a preparation commit:" +:+ LF) >>
        Printf ("  git anticipate --continue" +:+ LF +:+ LF) >>
        Printf ("Or to abort:" +:+ LF) >>
        Printf ("  git anticipate --abort" +:+ LF) >>
        ret tt
  end.

(** The first loop of [continueAnticipate]: read every changed file that
    is not deleted into [fileContents], stopping at the first failure. *)
Fixpoint readResolved (deletedFiles : gmap string bool) (changedFiles : list string)
    (fileContents : gmap string (list byte)) : M (gmap string (list byte)) :=
  match changedFiles with
  | [] => ret fileContents
  | file :: rest =>
      if default false (deletedFiles !! file) then
        readResolved deletedFiles rest fileContents
      else
        let* content :=
          onError (wrap ("failed to read resolved file " +:+ file +:+ ": "))
            (os_ReadFile file) in
        readResolved deletedFiles rest (<[file := content]> fileContents)
  end.

Definition continueAnticipate (stateDir : string) (noVerify : bool) : M unit :=
  let* inProgress := isAnticipateInProgress stateDir in
  if negb inProgress then fail (Errorf "no anticipate in progress")
  else
  let* unmerged := hasUnmergedFiles in
  if unmerged then
    let* conflictFiles := getConflictingFiles in
    Printf ("⚠️  Unresolved conflicts remain:" +:+ LF) >>
    forEach conflictFiles (λ file, Printf ("    ❌ " +:+ file +:+ LF)) >>
    Printf (LF +:+ "Resolve conflicts and run 'git add', then 'git anticipate --continue'" +:+ LF) >>
    fail errConflicts
  else
  let* targetBranch := onError (wrap "failed to read target branch: ") (readStateFile stateDir "target") in
  let* targetSHA := onError (wrap "failed to read target SHA: ") (readStateFile stateDir "target_sha") in
  let* currentBranch :=
    onError (wrap "failed to read current branch: ") (readStateFile stateDir "current_branch") in
  let* origHead := onError (wrap "failed to read original HEAD: ") (readStateFile stateDir "orig_head") in
  Printf ("🚀 git-anticipate: Applying resolution" +:+ LF +:+ LF) >>
  ignoreError (Run AddU) >>
  let* changedFilesOutput :=
    onError (wrap "failed to get changed files: ") (Output DiffCachedNameOnly) in
  let changedFiles := nonEmptyLines changedFilesOutput in
  if length changedFiles =? 0 then
    Printf ("✨ No changes to commit - branches are compatible!" +:+ LF) >>
    abortMerge >>
    removeState stateDir >>
    ret tt
  else
  let* deletedFilesOutput := orDefault "" (Output DiffCachedNameOnlyD) in
  let deletedFiles : gmap string bool :=
    list_to_map ((λ f, (f, true)) <$> nonEmptyLines deletedFilesOutput) in
  Printf ("✔ Extracting resolution (" +:+ pretty (length changedFiles) +:+ " files)..." +:+ LF) >>
  let* fileContents := readResolved deletedFiles changedFiles ∅ in
  abortMerge >>
  onError (wrap "failed to reset to original state: ") (Run (ResetHard origHead)) >>
  Printf ("✔ Applying resolution to " +:+ currentBranch +:+ "..." +:+ LF) >>
  rangeMap fileContents (λ file content,
    let dir := filepath_Dir file in
    (if decide (dir ≠ ".") then ignoreError (os_MkdirAll_tree dir) else ret tt) >>
    onError (wrap ("failed to write resolved file " +:+ file +:+ ": "))
      (os_WriteFile file content)) >>
  rangeMap deletedFiles (λ file _, ignoreError (os_Remove file)) >>
  forEach changedFiles (λ file,
    if default false (deletedFiles !! file) then
      ignoreError (Run (RmCached file))
    else
      onError (wrap ("failed to stage file " +:+ file +:+ ": ")) (Run (Add file))) >>
  let commitMsg :=
    "Preemptive conflict resolution vs " +:+ targetBranch +:+ "@" +:+ truncateSHA targetSHA in
  Printf ("✔ Creating commit..." +:+ LF) >>
  onError (λ err, Errorf ("failed to create commit: " +:+ Error err +:+ LF +:+ LF
             +:+ "Tip: If pre-commit hooks are failing, you can:" +:+ LF
             +:+ "  1. Fix the issues and run 'git anticipate --continue' again" +:+ LF
             +:+ "  2. Or run 'git anticipate --continue --no-verify' to skip hooks"))
    (Run (CommitM commitMsg noVerify)) >>
  removeState stateDir >>
  Printf (LF +:+ "✨ Success! Resolution committed to " +:+ currentBranch +:+ LF) >>
  Printf ("Your branch is now prepared for merging into " +:+ targetBranch +:+ LF) >>
  ret tt.

Definition abortAnticipate (stateDir : string) : M unit :=
  let* inProgress := isAnticipateInProgress stateDir in
  if negb inProgress then fail (Errorf "no anticipate in progress")
  else
  Printf ("🚀 git-anticipate: Aborting" +:+ LF +:+ LF) >>
  abortMerge >>
  let* origHead := onError (wrap "failed to read original HEAD: ") (readStateFile stateDir "orig_head") in
  Printf ("✔ Restoring original state..." +:+ LF) >>
  onError (wrap "failed to reset to original state: ") (Run (ResetHard origHead)) >>
  removeState stateDir >>
  Printf ("✔ Anticipate aborted. Restored to original state." +:+ LF) >>
  ret tt.

Definition showStatus (stateDir : string) : M unit :=
  let* inProgress := isAnticipateInProgress stateDir in
  if negb inProgress then
    Printf ("No anticipate in progress." +:+ LF +:+ LF) >>
    Printf ("Usage: git anticipate <target-branch>" +:+ LF) >>
    ret tt
  else
  let* targetBranch := orDefault "" (readStateFile stateDir "target") in
  let* currentBranch := orDefault "" (readStateFile stateDir "current_branch") in
  let* origHead := orDefault "" (readStateFile stateDir "orig_head") in
  Printf ("🚀 git-anticipate: In Progress" +:+ LF +:+ LF) >>
  Printf ("Current branch:  " +:+ currentBranch +:+ LF) >>
  Printf ("Target branch:   " +:+ targetBranch +:+ LF) >>
  Printf ("Original HEAD:   " +:+ truncateSHA origHead +:+ LF) >>
  Printf LF >>
  let* unmerged := hasUnmergedFiles in
  (if unmerged then
     let* conflictFiles := getConflictingFiles in
     Printf ("⚠️  Unresolved conflicts (" +:+ pretty (length conflictFiles) +:+ "):" +:+ LF) >>
     forEach conflictFiles (λ file, Printf ("    ❌ " +:+ file +:+ LF)) >>
     Printf (LF +:+ "Resolve conflicts, then:" +:+ LF) >>
     Printf ("  git add <resolved-files>" +:+ LF) >>
     Printf ("  git anticipate --continue" +:+ LF)
   else
     Printf ("✔ All conflicts resolved!" +:+ LF) >>
     Printf (LF +:+ "Run 'git anticipate --continue' to apply resolution" +:+ LF)) >>
  Printf (LF +:+ "Or run 'git anticipate --abort' to cancel" +:+ LF) >>
  ret tt.

(** ** main.go: the command line *)

Record Flags : Type := mkFlags {
  continueFlag : bool;
  abortFlag : bool;
  statusFlag : bool;
  noVerifyFlag : bool;
}.

Definition usageError : error :=
  Errorf ("usage: git anticipate <target-branch>" +:+ LF
          +:+ "       git anticipate --continue | --abort | --status").

Definition runAnticipate (cmd : Flags) (args : list string) : M unit :=
  validateRepo >>
  let* gitDir := onError (wrap "failed to get git directory: ") getGitDir in
  let stateDir := filepath_Join gitDir anticipateDir in
  if statusFlag cmd then showStatus stateDir
  else if abortFlag cmd then abortAnticipate stateDir
  else if continueFlag cmd then continueAnticipate stateDir (noVerifyFlag cmd)
  else
    match args with
    | [] =>
        let* inProgress := isAnticipateInProgress stateDir in
        if inProgress then showStatus stateDir
        else fail usageError
    | targetBranch :: _ => startAnticipate stateDir targetBranch
    end.

(** The exit status [main] ends with for what [rootCmd.Execute] returns. *)
Definition exitCode (r : result unit) : nat :=
  match r with
  | Ok _ => ExitSuccess
  | Err e => if decide (e = errConflicts) then ExitConflictsFound else ExitError
  end.

(** [main]: cobra refuses more than one positional argument before it
    calls [runAnticipate]; errors other than [errConflicts] go to stderr. *)
Definition main (cmd : Flags) (args : list string) : World → nat * World :=
  λ w,
    let run : M unit :=
      if 1 <? length args
      then fail (Errorf ("accepts at most 1 arg(s), received " +:+ pretty (length args)))
      else runAnticipate cmd args in
    match run w with
    | (Ok u, w') => (exitCode (Ok u), w')
    | (Err e, w') =>
        if decide (e = errConflicts) then (exitCode (Err e), w')
        else (exitCode (Err e), set_stderr (λ o, o ++ ["Error: " +:+ Error e +:+ LF]) w')
    end.

(** * Vocabulary of the statements *)

Fixpoint allSpace (s : string) : bool :=
  match s with
  | EmptyString => true
  | String a s' => isSpace a && allSpace s'
  end.

Definition headNonSpace (s : string) : Prop :=
  match s with
  | EmptyString => True
  | String a _ => isSpace a = false
  end.

Fixpoint noLF (s : string) : bool :=
  match s with
  | EmptyString => true
  | String a s' => negb (Ascii.eqb a (ascii_of_nat 10)) && noLF s'
  end.

(** A name that survives the program's parsing of git's listings. *)
Definition plainName (p : string) : Prop :=
  p ≠ EmptyString ∧ TrimSpace p = p ∧ noLF p = true.

Fixpoint joinLF (l : list string) : string :=
  match l with
  | [] => EmptyString
  | [p] => p
  | p :: l' => p +:+ LF +:+ joinLF l'
  end.

(** The repository proper: everything git owns. *)
Definition repo (w : World) :=
  (gitdir w, branch w, refs w, objects w, index w, conflicted w, merge_head w, worktree w).

(** Two worlds that differ at most in what was printed and in the list
    of calls: nothing durable was touched in between. *)
Definition unchanged (w w' : World) : Prop :=
  env w = env w' ∧ repo w = repo w' ∧ dirs w = dirs w'.

(** The calls made, and the text printed, between [w] and [w']. *)
Definition calls (w w' : World) : list Call := drop (length (log w)) (log w').
Definition printed (w w' : World) : list string := drop (length (stdout w)) (stdout w').

(** A field of the session record, as [readStateFile] returns it. *)
Definition field (w : World) (stateDir name : string) : option string :=
  (TrimSpace ∘ string_of_list_byte) <$> (dirs w !! stateDir ≫= (.!! name)).

(** What [status] prints for a tip. *)
Definition shownTip (tip : string) : string :=
  if 8 <? String.length tip then substring 0 8 tip
  else if String.length tip =? 0 then "unknown"
  else tip.

(** What [hasUnmergedFiles] and [getConflictingFiles] answer in [w]. *)
Definition unmergedNow (w : World) : bool :=
  match gitdir w with
  | Some _ => bool_decide (conflicted w ≠ ∅)
  | None => false
  end.

Definition conflictingNow (w : World) : list string :=
  match gitdir w with
  | Some _ => nonEmptyLines (unlines (elements (conflicted w)))
  | None => []
  end.

(** A clean work tree: nothing staged, nothing modified, no file git
    does not track, nothing unmerged. *)
Definition clean (w : World) : Prop :=
  conflicted w = ∅ ∧ index w = head_tree w ∧ worktree w = index w.

(** The four files [saveState] writes. *)
Definition sessionRecord (targetBranch origHead targetSHA currentBranch : string)
    : gmap string (list byte) :=
  <["target" := list_byte_of_string targetBranch]>
    (<["orig_head" := list_byte_of_string origHead]>
      (<["target_sha" := list_byte_of_string targetSHA]>
        (<["current_branch" := list_byte_of_string currentBranch]> ∅))).

Definition isWrite (c : Call) : Prop :=
  match c with OsWriteFile _ _ => True | _ => False end.

(** [startAnticipate] up to and including [saveState]: what it has
    computed by then (current branch, original tip, target tip). *)
Definition startPrefix (stateDir targetBranch : string) : M (string * string * string) :=
  Printf ("🚀 git-anticipate: Preemptive conflict resolution" +:+ LF) >>
  Printf ("Target branch: " +:+ targetBranch +:+ LF +:+ LF) >>
  let* inProgress := isAnticipateInProgress stateDir in
  if inProgress then
    fail (Errorf ("anticipate already in progress" +:+ LF
                  +:+ "Use 'git anticipate --continue' or 'git anticipate --abort'"))
  else
  let* dirty := hasUncommittedChanges in
  if dirty then
    fail (Errorf ("you have uncommitted changes" +:+ LF
                  +:+ "Please commit or stash them before running git anticipate"))
  else
  let* currentBranch := onError (wrap "failed to get current branch: ") getCurrentBranch in
  Printf ("Current branch: " +:+ currentBranch +:+ LF) >>
  onError (λ _, Errorf ("target branch '" +:+ targetBranch +:+ "' does not exist"))
    (validateBranchExists targetBranch) >>
  let* origHead := onError (wrap "failed to get current HEAD: ") (getRevisionSHA "HEAD") in
  let* targetSHA := onError (wrap "failed to get target branch SHA: ") (getRevisionSHA targetBranch) in
  let* baseSHA := onError (wrap "failed to get merge base: ") (getMergeBase targetBranch currentBranch) in
  Printf ("Merge base: " +:+ truncateSHA baseSHA +:+ LF +:+ LF) >>
  onError (wrap "failed to save state: ")
    (saveState stateDir targetBranch origHead targetSHA currentBranch) >>
  ret (currentBranch, origHead, targetSHA).

(** The rest of [startAnticipate]: the merge and what follows from it. *)
Definition startMerge (stateDir targetBranch : string) : M unit :=
  Printf ("✔ Attempting merge with " +:+ targetBranch +:+ "..." +:+ LF) >>
  let* merged := performMerge targetBranch in
  match merged with
  | (MergeConflict, _) =>
      let* conflictFiles := getConflictingFiles in
      Printf (LF +:+ "⚠️  Conflicts detected!" +:+ LF +:+ LF) >>
      (if 0 <? length conflictFiles then
         Printf ("Conflicting files (" +:+ pretty (length conflictFiles) +:+ "):" +:+ LF) >>
         forEach conflictFiles (λ file, Printf ("    ❌ " +:+ file +:+ LF)) >>
         Printf LF
       else ret tt) >>
      Printf ("Resolve conflicts in your working directory, then:" +:+ LF) >>
      Printf ("  git add <resolved-files>" +:+ LF) >>
      Printf ("  git anticipate --continue" +:+ LF +:+ LF) >>
      Printf ("Or to abort:" +:+ LF) >>
      Printf ("  git anticipate --abort" +:+ LF) >>
      fail errConflicts
  | (MergeError, mergeErr) =>
      removeState stateDir >>
      match mergeErr with
      | Some e => fail e
      | None => ret tt
      end
  | (MergeClean, _) =>
      let* changes := hasStagedOrUnstagedChanges in
      if negb changes then
        Printf ("✨ No conflicts and no changes - branches are already compatible!" +:+ LF) >>
        removeState stateDir >>
        ret tt
      else
        Printf ("✔ No conflicts detected!" +:+ LF) >>
        Printf (LF +:+ "Changes from " +:+ targetBranch
                +:+ " are staged. To apply as a preparation commit:" +:+ LF) >>
        Printf ("  git anticipate --continue" +:+ LF +:+ LF) >>
        Printf ("Or to abort:" +:+ LF) >>
        Printf ("  git anticipate --abort" +:+ LF) >>
        ret tt
  end.

(** Every call a computation makes satisfies [P]. *)
Definition logs {A} (P : Call → Prop) (m : M A) : Prop :=
  ∀ w r w', m w = (r, w') → ∃ l, log w' = log w ++ l ∧ Forall P l.

(** The world after [git merge --abort]. *)
Definition mergeAborted (w : World) : World :=
  match merge_head w with
  | Some _ => checkout_tree (head_tree w) w
  | None => w
  end.

(** Outside the unmerged paths, the work tree holds what the index says. *)
Definition agree (w : World) : Prop :=
  ∀ p, p ∉ conflicted w → worktree w !! p = index w !! p.

(** What [hasStagedOrUnstagedChanges] answers in [w]. *)
Definition changesNow (w : World) : bool :=
  negb (bool_decide (conflicted w = ∅ ∧ index w = head_tree w))
  || negb (bool_decide (conflicted w = ∅
                        ∧ filter (λ kv, kv.1 ∈ dom (index w)) (worktree w) = index w)).

(** Calls that only look. *)
Definition isQuery (c : Call) : Prop :=
  match c with
  | OsStat _ | OsReadFile _ => True
  | Git (RevParseGitDir | RevParseVerify _ | RevParseAbbrevRefHEAD | RevParse _
        | MergeBase _ _ | StatusPorcelain | DiffCachedQuiet | DiffQuiet | LsFilesU
        | DiffNameOnlyU | DiffCachedNameOnly | DiffCachedNameOnlyD) => True
  | _ => False
  end.

(** What [continueAnticipate] holds in its local variables once the
    resolution is captured. *)
Record Snapshot : Type := mkSnapshot {
  s_targetBranch : string;
  s_targetSHA : string;
  s_currentBranch : string;
  s_origHead : string;
  s_changedFiles : list string;
  s_deletedFiles : gmap string bool;
  s_fileContents : gmap string (list byte);
}.

(** [continueAnticipate] up to the end of the loop that reads the
    resolved files; [None] when it returned early with nothing to commit. *)
Definition continueCapture (stateDir : string) : M (option Snapshot) :=
  let* inProgress := isAnticipateInProgress stateDir in
  if negb inProgress then fail (Errorf "no anticipate in progress")
  else
  let* unmerged := hasUnmergedFiles in
  if unmerged then
    let* conflictFiles := getConflictingFiles in
    Printf ("⚠️  Unresolved conflicts remain:" +:+ LF) >>
    forEach conflictFiles (λ file, Printf ("    ❌ " +:+ file +:+ LF)) >>
    Printf (LF +:+ "Resolve conflicts and run 'git add', then 'git anticipate --continue'" +:+ LF) >>
    fail errConflicts
  else
  let* targetBranch := onError (wrap "failed to read target branch: ") (readStateFile stateDir "target") in
  let* targetSHA := onError (wrap "failed to read target SHA: ") (readStateFile stateDir "target_sha") in
  let* currentBranch :=
    onError (wrap "failed to read current branch: ") (readStateFile stateDir "current_branch") in
  let* origHead := onError (wrap "failed to read original HEAD: ") (readStateFile stateDir "orig_head") in
  Printf ("🚀 git-anticipate: Applying resolution" +:+ LF +:+ LF) >>
  ignoreError (Run AddU) >>
  let* changedFilesOutput :=
    onError (wrap "failed to get changed files: ") (Output DiffCachedNameOnly) in
  let changedFiles := nonEmptyLines changedFilesOutput in
  if length changedFiles =? 0 then
    Printf ("✨ No changes to commit - branches are compatible!" +:+ LF) >>
    abortMerge >>
    removeState stateDir >>
    ret None
  else
  let* deletedFilesOutput := orDefault "" (Output DiffCachedNameOnlyD) in
  let deletedFiles : gmap string bool :=
    list_to_map ((λ f, (f, true)) <$> nonEmptyLines deletedFilesOutput) in
  Printf ("✔ Extracting resolution (" +:+ pretty (length changedFiles) +:+ " files)..." +:+ LF) >>
  let* fileContents := readResolved deletedFiles changedFiles ∅ in
  ret (Some (mkSnapshot targetBranch targetSHA currentBranch origHead
               changedFiles deletedFiles fileContents)).

(** From the reset to the end of the staging loop. *)
Definition continueReplay (s : Snapshot) : M unit :=
  onError (wrap "failed to reset to original state: ") (Run (ResetHard (s_origHead s))) >>
  Printf ("✔ Applying resolution to " +:+ s_currentBranch s +:+ "..." +:+ LF) >>
  rangeMap (s_fileContents s) (λ file content,
    let dir := filepath_Dir file in
    (if decide (dir ≠ ".") then ignoreError (os_MkdirAll_tree dir) else ret tt) >>
    onError (wrap ("failed to write resolved file " +:+ file +:+ ": "))
      (os_WriteFile file content)) >>
  rangeMap (s_deletedFiles s) (λ file _, ignoreError (os_Remove file)) >>
  forEach (s_changedFiles s) (λ file,
    if default false (s_deletedFiles s !! file) then
      ignoreError (Run (RmCached file))
    else
      onError (wrap ("failed to stage file " +:+ file +:+ ": ")) (Run (Add file))).

(** From discarding the merge to the end of the staging loop. *)
Definition continueStage (s : Snapshot) : M unit :=
  abortMerge >> continueReplay s.

Definition commitMessage (s : Snapshot) : string :=
  "Preemptive conflict resolution vs " +:+ s_targetBranch s +:+ "@"
  +:+ truncateSHA (s_targetSHA s).

(** The commit and what follows it. *)
Definition continueCommit (stateDir : string) (noVerify : bool) (s : Snapshot) : M unit :=
  Printf ("✔ Creating commit..." +:+ LF) >>
  onError (λ err, Errorf ("failed to create commit: " +:+ Error err +:+ LF +:+ LF
             +:+ "Tip: If pre-commit hooks are failing, you can:" +:+ LF
             +:+ "  1. Fix the issues and run 'git anticipate --continue' again" +:+ LF
             +:+ "  2. Or run 'git anticipate --continue --no-verify' to skip hooks"))
    (Run (CommitM (commitMessage s) noVerify)) >>
  removeState stateDir >>
  Printf (LF +:+ "✨ Success! Resolution committed to " +:+ s_currentBranch s +:+ LF) >>
  Printf ("Your branch is now prepared for merging into " +:+ s_targetBranch s +:+ LF) >>
  ret tt.

(** [deletedFiles[file]] *)
Definition isDeleted (deletedFiles : gmap string bool) (file : string) : bool :=
  default false (deletedFiles !! file).

(** Only files of the work tree differ (and what is printed or logged). *)
Definition onlyFiles (w w' : World) : Prop :=
  env w' = env w ∧ gitdir w' = gitdir w ∧ branch w' = branch w ∧ refs w' = refs w
  ∧ objects w' = objects w ∧ index w' = index w ∧ conflicted w' = conflicted w
  ∧ merge_head w' = merge_head w ∧ dirs w' = dirs w.

(** Only the index differs (and what is printed or logged). *)
Definition onlyIndex (w w' : World) : Prop :=
  env w' = env w ∧ gitdir w' = gitdir w ∧ branch w' = branch w ∧ refs w' = refs w
  ∧ objects w' = objects w ∧ worktree w' = worktree w
  ∧ merge_head w' = merge_head w ∧ dirs w' = dirs w.

Definition notRead (c : Call) : Prop :=
  match c with OsReadFile _ => False | _ => True end.

(** The world after [git add -u]: the index takes every tracked file
    from the work tree. *)
Definition staged (w : World) : World :=
  set_conflicted (λ _, ∅)
    (set_index (λ _, filter (λ kv, kv.1 ∈ tracked w) (worktree w)) w).

Definition notCommit (c : Call) : Prop :=
  match c with Git (CommitM _ _) => False | _ => True end.

(** Every run of [m] relates the world it starts in to the world it
    ends in by [R]. *)
Definition keeps {A} (R : relation World) (m : M A) : Prop :=
  ∀ w r w', m w = (r, w') → R w w'.

(** The same, of the runs that end in an error only. *)
Definition keepsOnError {A} (R : relation World) (m : M A) : Prop :=
  ∀ w e w', m w = (Err e, w') → R w w'.

(** [m] returns no error, whatever the world. *)
Definition neverFails {A} (m : M A) : Prop :=
  ∀ w, ∃ a, fst (m w) = Ok a.

(** Two worlds in which [f] has the same value. *)
Definition sameOn {X} (f : World → X) : relation World :=
  λ w w', f w' = f w.

(** The calls went into the log, and as long as none of them created
    the directory [dir] nothing durable has changed. *)
Definition untouchedBefore (dir : string) : relation World :=
  λ w w', ∃ l, log w' = log w ++ l
               ∧ ((OsMkdirAll dir ∉ l) → unchanged w w' ∧ Forall isQuery l).

(** Where the branches are and what they point to. *)
Definition history (w : World) : string * gmap string string * gmap string Commit :=
  (branch w, refs w, objects w).

(** * A small repository to run the program on

    Branch [feature] (checked out) and branch [dev] both changed
    [file.txt] since their common ancestor; [dev] also added [new.txt]
    and deleted [old.txt]. *)
Module Demo.

Definition B (s : string) : list byte := list_byte_of_string s.

Definition base_tree : gmap string (list byte) :=
  <["file.txt" := B "original"]> (<["keep.txt" := B "k"]> (<["old.txt" := B "o"]> ∅)).
Definition feature_tree : gmap string (list byte) :=
  <["file.txt" := B "feature"]> (<["keep.txt" := B "k"]> (<["old.txt" := B "o"]> ∅)).
Definition dev_tree : gmap string (list byte) :=
  <["file.txt" := B "dev"]> (<["keep.txt" := B "k"]> (<["new.txt" := B "n"]> ∅)).

Definition base_id : string := "b0b0b0b0b0".
Definition feature_id : string := "f1f1f1f1f1".
Definition dev_id : string := "d1d1d1d1d1".

Definition commits : gmap string Commit :=
  <[base_id := mkCommit base_tree [] "base"]>
    (<[feature_id := mkCommit feature_tree [base_id] "feature"]>
      (<[dev_id := mkCommit dev_tree [base_id] "dev"]> ∅)).

Definition branches : gmap string string :=
  <["feature" := feature_id]> (<["dev" := dev_id]> (<["main" := base_id]> ∅)).

Definition conflict_plan : MergePlan :=
  Applied [("file.txt", Unmerged (Some (B "<<<<<<< HEAD")));
           ("new.txt", Merged (Some (B "n")));
           ("old.txt", Merged None)].

Definition calm : Env :=
  mkEnv (λ _ _, conflict_plan) (λ _ _, Some base_id) (λ _, "c0ffee0001")
        false (λ _, false) (λ _, false) (λ _, 0).

(** The same environment, with a commit hook that rejects. *)
Definition strict : Env :=
  mkEnv (λ _ _, conflict_plan) (λ _ _, Some base_id) (λ _, "c0ffee0001")
        true (λ _, false) (λ _, false) (λ _, 0).

(** The same environment, where the session's [target_sha] file cannot be written. *)
Definition faulty : Env :=
  mkEnv (λ _ _, conflict_plan) (λ _ _, Some base_id) (λ _, "c0ffee0001")
        false (λ _, false) (λ p, bool_decide (p = ".git/anticipate/target_sha")) (λ _, 0).

Definition stateDir : string := ".git/anticipate".

(** On [feature], everything committed, no session. *)
Definition fresh (e : Env) : World :=
  mkWorld e (Some ".git") "feature" branches commits feature_tree ∅ None feature_tree ∅ [] [] [].

(** After [git anticipate dev]: a session, [file.txt] in conflict. *)
Definition started (e : Env) : World :=
  snd (startAnticipate stateDir "dev" (fresh e)).

(** The user has written a resolution of [file.txt] and staged it. *)
Definition resolved (e : Env) : World :=
  snd (Run (Add "file.txt") (set_worktree <["file.txt" := B "resolved"]> (started e))).

(** A plain [git merge] left a conflict; git-anticipate was never started. *)
Definition plain_merge : World :=
  snd (Run (Merge "dev") (fresh calm)).

(** An edit to a tracked file, not committed, before anything is started. *)
Definition dirty : World :=
  set_worktree <["file.txt" := B "edited"]> (fresh calm).

(** The same files, outside any repository. *)
Definition outside : World :=
  mkWorld calm None "" ∅ ∅ ∅ ∅ None feature_tree ∅ [] [] [].

(** A session in conflict whose [orig_head] file has been lost. *)
Definition headless : World :=
  set_dirs (alter (delete "orig_head") stateDir) (started calm).

(** The user has settled every path of the trial merge in favour of
    [feature]: nothing differs from [HEAD] any more. *)
Definition undone : World :=
  set_conflicted (λ _, ∅)
    (set_index (λ _, feature_tree) (set_worktree (λ _, feature_tree) (started calm))).

(** A new file that git does not track, nothing else touched. *)
Definition littered : World :=
  set_worktree <["notes.txt" := B "n"]> (fresh calm).

Definition noFlags : Flags := mkFlags false false false false.

End Demo.

(** * Facts about the string functions *)

Lemma trimLeft_empty s : trimLeft s = EmptyString ↔ allSpace s = true.
Proof.
  induction s as [|a s IH]; simpl; [done|].
  destruct (isSpace a); simpl; [done|]. split; intros; discriminate.
Qed.

Lemma trimRight_empty s : trimRight s = EmptyString ↔ allSpace s = true.
Proof.
  induction s as [|a s IH]; simpl; [done|].
  destruct (trimRight s) eqn:E.
  - destruct (isSpace a); simpl; [tauto|]. split; intros; discriminate.
  - split; [discriminate|]. intros [_ H]%andb_true_iff. apply IH in H. discriminate.
Qed.

Lemma allSpace_trimLeft s : allSpace (trimLeft s) = allSpace s.
Proof.
  induction s as [|a s IH]; simpl; [done|].
  destruct (isSpace a) eqn:E; simpl; [done|]. by rewrite E.
Qed.

Lemma TrimSpace_empty s : TrimSpace s = EmptyString ↔ allSpace s = true.
Proof. unfold TrimSpace. by rewrite trimRight_empty, allSpace_trimLeft. Qed.

Lemma headNonSpace_trimLeft s : headNonSpace (trimLeft s).
Proof.
  induction s as [|a s IH]; simpl; [done|].
  destruct (isSpace a) eqn:E; simpl; done.
Qed.

Lemma trimLeft_id s : headNonSpace s → trimLeft s = s.
Proof. destruct s as [|a s]; simpl; [done|]. by intros ->. Qed.

Lemma headNonSpace_trimRight s : headNonSpace s → headNonSpace (trimRight s).
Proof.
  destruct s as [|a s]; simpl; [done|]. intros H.
  destruct (trimRight s); rewrite ?H; simpl; done.
Qed.

Lemma trimRight_idemp s : trimRight (trimRight s) = trimRight s.
Proof.
  induction s as [|a s IH]; simpl; [done|].
  destruct (trimRight s) as [|b r] eqn:E.
  - destruct (isSpace a) eqn:Ea; simpl; [done|]. by rewrite Ea.
  - simpl in *. by rewrite IH.
Qed.

Lemma TrimSpace_idemp s : TrimSpace (TrimSpace s) = TrimSpace s.
Proof.
  unfold TrimSpace.
  rewrite (trimLeft_id (trimRight _)); [apply trimRight_idemp|].
  apply headNonSpace_trimRight, headNonSpace_trimLeft.
Qed.

Lemma allSpace_LF : allSpace LF = true.
Proof. reflexivity. Qed.

Lemma trimRight_app_space s t : allSpace t = true → trimRight (s +:+ t) = trimRight s.
Proof.
  intros Ht. induction s as [|a s IH]; simpl.
  - by apply trimRight_empty.
  - by rewrite IH.
Qed.

Lemma trimLeft_app_space s t :
  allSpace t = true →
  trimLeft (s +:+ t) = if allSpace s then EmptyString else trimLeft s +:+ t.
Proof.
  intros Ht. induction s as [|a s IH]; simpl.
  - by apply trimLeft_empty.
  - destruct (isSpace a); simpl; done.
Qed.

Lemma TrimSpace_app_space s t : allSpace t = true → TrimSpace (s +:+ t) = TrimSpace s.
Proof.
  intros Ht. unfold TrimSpace. rewrite trimLeft_app_space by done.
  destruct (allSpace s) eqn:E.
  - symmetry. apply trimRight_empty. by rewrite allSpace_trimLeft.
  - by apply trimRight_app_space.
Qed.

Lemma TrimSpace_line s : TrimSpace s = s → TrimSpace (s +:+ LF) = s.
Proof. intros H. by rewrite TrimSpace_app_space. Qed.

Lemma allSpace_app s t : allSpace (s +:+ t) = allSpace s && allSpace t.
Proof. induction s as [|a s IH]; simpl; [done|]. by rewrite IH, andb_assoc. Qed.

Lemma allSpace_unlines l : allSpace (unlines l) = forallb allSpace l.
Proof.
  induction l as [|p l IH]; simpl; [done|].
  by rewrite !allSpace_app, IH, allSpace_LF.
Qed.

Lemma append_String a s t : String a s +:+ t = String a (s +:+ t).
Proof. reflexivity. Qed.

Lemma append_empty_r s : s +:+ EmptyString = s.
Proof. induction s as [|a s IH]; [done|]. by rewrite append_String, IH. Qed.

Lemma append_assoc s t u : (s +:+ t) +:+ u = s +:+ t +:+ u.
Proof. induction s as [|a s IH]; [done|]. by rewrite !append_String, IH. Qed.

Lemma unlines_joinLF l : l ≠ [] → unlines l = joinLF l +:+ LF.
Proof.
  induction l as [|p l IH]; [done|]. intros _.
  destruct l as [|q l]; simpl.
  - done.
  - simpl in IH. rewrite IH by done. by rewrite !append_assoc.
Qed.

Lemma trimRight_app_r x y :
  y ≠ EmptyString → trimRight y = y → trimRight (x +:+ y) = x +:+ y.
Proof.
  intros Hy Hty. induction x as [|a x IH]; [done|].
  rewrite append_String. cbn [trimRight]. rewrite IH.
  destruct (x +:+ y) eqn:E; [|done].
  destruct x; [by destruct Hy | by rewrite append_String in E].
Qed.

Lemma plainName_trimRight p : plainName p → trimRight p = p.
Proof.
  intros (_ & H & _). rewrite <- H at 1. unfold TrimSpace.
  by rewrite trimRight_idemp.
Qed.

Lemma plainName_head p : plainName p → headNonSpace p.
Proof.
  intros (_ & H & _). rewrite <- H. unfold TrimSpace.
  apply headNonSpace_trimRight, headNonSpace_trimLeft.
Qed.

Lemma joinLF_nonempty l : l ≠ [] → Forall plainName l → joinLF l ≠ EmptyString.
Proof.
  destruct l as [|p l]; [done|]. intros _ Hl.
  apply Forall_cons in Hl as [(Hp & _) _].
  destruct l; simpl; [done|]. destruct p; [done|]. done.
Qed.

Lemma trimRight_joinLF l : Forall plainName l → trimRight (joinLF l) = joinLF l.
Proof.
  induction l as [|p l IH]; [done|]. intros Hl.
  apply Forall_cons in Hl as [Hp Hl].
  destruct l as [|q l]; [by apply plainName_trimRight|].
  change (joinLF (p :: q :: l)) with (p +:+ LF +:+ joinLF (q :: l)).
  apply trimRight_app_r; [done|].
  apply (trimRight_app_r LF); [by apply joinLF_nonempty | by apply IH].
Qed.

Lemma headNonSpace_joinLF l : Forall plainName l → headNonSpace (joinLF l).
Proof.
  destruct l as [|p l]; [done|]. intros Hl.
  apply Forall_cons in Hl as [Hp Hl]. pose proof (plainName_head p Hp) as Hh.
  destruct Hp as (Hne & _). destruct p as [|a p]; [done|].
  destruct l; simpl; done.
Qed.

Lemma TrimSpace_unlines l : Forall plainName l → TrimSpace (unlines l) = joinLF l.
Proof.
  intros Hl. destruct (decide (l = [])) as [->|Hne]; [done|].
  rewrite unlines_joinLF by done. rewrite TrimSpace_app_space by done.
  unfold TrimSpace. rewrite trimLeft_id by by apply headNonSpace_joinLF.
  by apply trimRight_joinLF.
Qed.

Lemma Split_cons s : ∃ h t, Split s = h :: t.
Proof.
  induction s as [|a s (h & t & IH)]; simpl; [by eexists _, _|].
  destruct (Ascii.eqb a _); [by eexists _, _|]. rewrite IH. by eexists _, _.
Qed.

Lemma Split_noLF p : noLF p = true → Split p = [p].
Proof.
  induction p as [|a p IH]; simpl; [done|].
  intros [Ha Hp]%andb_true_iff. apply negb_true_iff in Ha. rewrite Ha.
  by rewrite IH.
Qed.

Lemma Split_app_LF p s : noLF p = true → Split (p +:+ LF +:+ s) = p :: Split s.
Proof.
  induction p as [|a p IH]; simpl; [done|].
  intros [Ha Hp]%andb_true_iff. apply negb_true_iff in Ha. rewrite Ha.
  by rewrite IH.
Qed.

Lemma Split_joinLF l : l ≠ [] → Forall plainName l → Split (joinLF l) = l.
Proof.
  induction l as [|p l IH]; [done|]. intros _ Hl.
  apply Forall_cons in Hl as [Hp Hl].
  destruct l as [|q l].
  - apply Split_noLF, Hp.
  - change (joinLF (p :: q :: l)) with (p +:+ LF +:+ joinLF (q :: l)).
    rewrite Split_app_LF by apply Hp. by rewrite IH.
Qed.

Lemma nonEmptyLines_unlines l : Forall plainName l → nonEmptyLines (unlines l) = l.
Proof.
  intros Hl. unfold nonEmptyLines. rewrite TrimSpace_unlines by done.
  destruct (decide (l = [])) as [->|Hne]; [done|].
  rewrite Split_joinLF by done.
  clear Hne. induction Hl as [|p l Hp Hl IH]; [done|].
  rewrite filter_cons_True by apply Hp. by rewrite IH.
Qed.

(** * Projections of an updated world *)

Lemma env_set_refs f w : env (set_refs f w) = env w.
Proof. reflexivity. Qed.
Lemma gitdir_set_refs f w : gitdir (set_refs f w) = gitdir w.
Proof. reflexivity. Qed.
Lemma branch_set_refs f w : branch (set_refs f w) = branch w.
Proof. reflexivity. Qed.
Lemma refs_set_refs f w : refs (set_refs f w) = f (refs w).
Proof. reflexivity. Qed.
Lemma objects_set_refs f w : objects (set_refs f w) = objects w.
Proof. reflexivity. Qed.
Lemma index_set_refs f w : index (set_refs f w) = index w.
Proof. reflexivity. Qed.
Lemma conflicted_set_refs f w : conflicted (set_refs f w) = conflicted w.
Proof. reflexivity. Qed.
Lemma merge_head_set_refs f w : merge_head (set_refs f w) = merge_head w.
Proof. reflexivity. Qed.
Lemma worktree_set_refs f w : worktree (set_refs f w) = worktree w.
Proof. reflexivity. Qed.
Lemma dirs_set_refs f w : dirs (set_refs f w) = dirs w.
Proof. reflexivity. Qed.
Lemma stdout_set_refs f w : stdout (set_refs f w) = stdout w.
Proof. reflexivity. Qed.
Lemma stderr_set_refs f w : stderr (set_refs f w) = stderr w.
Proof. reflexivity. Qed.
Lemma log_set_refs f w : log (set_refs f w) = log w.
Proof. reflexivity. Qed.
Lemma env_set_objects f w : env (set_objects f w) = env w.
Proof. reflexivity. Qed.
Lemma gitdir_set_objects f w : gitdir (set_objects f w) = gitdir w.
Proof. reflexivity. Qed.
Lemma branch_set_objects f w : branch (set_objects f w) = branch w.
Proof. reflexivity. Qed.
Lemma refs_set_objects f w : refs (set_objects f w) = refs w.
Proof. reflexivity. Qed.
Lemma objects_set_objects f w : objects (set_objects f w) = f (objects w).
Proof. reflexivity. Qed.
Lemma index_set_objects f w : index (set_objects f w) = index w.
Proof. reflexivity. Qed.
Lemma conflicted_set_objects f w : conflicted (set_objects f w) = conflicted w.
Proof. reflexivity. Qed.
Lemma merge_head_set_objects f w : merge_head (set_objects f w) = merge_head w.
Proof. reflexivity. Qed.
Lemma worktree_set_objects f w : worktree (set_objects f w) = worktree w.
Proof. reflexivity. Qed.
Lemma dirs_set_objects f w : dirs (set_objects f w) = dirs w.
Proof. reflexivity. Qed.
Lemma stdout_set_objects f w : stdout (set_objects f w) = stdout w.
Proof. reflexivity. Qed.
Lemma stderr_set_objects f w : stderr (set_objects f w) = stderr w.
Proof. reflexivity. Qed.
Lemma log_set_objects f w : log (set_objects f w) = log w.
Proof. reflexivity. Qed.
Lemma env_set_index f w : env (set_index f w) = env w.
Proof. reflexivity. Qed.
Lemma gitdir_set_index f w : gitdir (set_index f w) = gitdir w.
Proof. reflexivity. Qed.
Lemma branch_set_index f w : branch (set_index f w) = branch w.
Proof. reflexivity. Qed.
Lemma refs_set_index f w : refs (set_index f w) = refs w.
Proof. reflexivity. Qed.
Lemma objects_set_index f w : objects (set_index f w) = objects w.
Proof. reflexivity. Qed.
Lemma index_set_index f w : index (set_index f w) = f (index w).
Proof. reflexivity. Qed.
Lemma conflicted_set_index f w : conflicted (set_index f w) = conflicted w.
Proof. reflexivity. Qed.
Lemma merge_head_set_index f w : merge_head (set_index f w) = merge_head w.
Proof. reflexivity. Qed.
Lemma worktree_set_index f w : worktree (set_index f w) = worktree w.
Proof. reflexivity. Qed.
Lemma dirs_set_index f w : dirs (set_index f w) = dirs w.
Proof. reflexivity. Qed.
Lemma stdout_set_index f w : stdout (set_index f w) = stdout w.
Proof. reflexivity. Qed.
Lemma stderr_set_index f w : stderr (set_index f w) = stderr w.
Proof. reflexivity. Qed.
Lemma log_set_index f w : log (set_index f w) = log w.
Proof. reflexivity. Qed.
Lemma env_set_conflicted f w : env (set_conflicted f w) = env w.
Proof. reflexivity. Qed.
Lemma gitdir_set_conflicted f w : gitdir (set_conflicted f w) = gitdir w.
Proof. reflexivity. Qed.
Lemma branch_set_conflicted f w : branch (set_conflicted f w) = branch w.
Proof. reflexivity. Qed.
Lemma refs_set_conflicted f w : refs (set_conflicted f w) = refs w.
Proof. reflexivity. Qed.
Lemma objects_set_conflicted f w : objects (set_conflicted f w) = objects w.
Proof. reflexivity. Qed.
Lemma index_set_conflicted f w : index (set_conflicted f w) = index w.
Proof. reflexivity. Qed.
Lemma conflicted_set_conflicted f w : conflicted (set_conflicted f w) = f (conflicted w).
Proof. reflexivity. Qed.
Lemma merge_head_set_conflicted f w : merge_head (set_conflicted f w) = merge_head w.
Proof. reflexivity. Qed.
Lemma worktree_set_conflicted f w : worktree (set_conflicted f w) = worktree w.
Proof. reflexivity. Qed.
Lemma dirs_set_conflicted f w : dirs (set_conflicted f w) = dirs w.
Proof. reflexivity. Qed.
Lemma stdout_set_conflicted f w : stdout (set_conflicted f w) = stdout w.
Proof. reflexivity. Qed.
Lemma stderr_set_conflicted f w : stderr (set_conflicted f w) = stderr w.
Proof. reflexivity. Qed.
Lemma log_set_conflicted f w : log (set_conflicted f w) = log w.
Proof. reflexivity. Qed.
Lemma env_set_worktree f w : env (set_worktree f w) = env w.
Proof. reflexivity. Qed.
Lemma gitdir_set_worktree f w : gitdir (set_worktree f w) = gitdir w.
Proof. reflexivity. Qed.
Lemma branch_set_worktree f w : branch (set_worktree f w) = branch w.
Proof. reflexivity. Qed.
Lemma refs_set_worktree f w : refs (set_worktree f w) = refs w.
Proof. reflexivity. Qed.
Lemma objects_set_worktree f w : objects (set_worktree f w) = objects w.
Proof. reflexivity. Qed.
Lemma index_set_worktree f w : index (set_worktree f w) = index w.
Proof. reflexivity. Qed.
Lemma conflicted_set_worktree f w : conflicted (set_worktree f w) = conflicted w.
Proof. reflexivity. Qed.
Lemma merge_head_set_worktree f w : merge_head (set_worktree f w) = merge_head w.
Proof. reflexivity. Qed.
Lemma worktree_set_worktree f w : worktree (set_worktree f w) = f (worktree w).
Proof. reflexivity. Qed.
Lemma dirs_set_worktree f w : dirs (set_worktree f w) = dirs w.
Proof. reflexivity. Qed.
Lemma stdout_set_worktree f w : stdout (set_worktree f w) = stdout w.
Proof. reflexivity. Qed.
Lemma stderr_set_worktree f w : stderr (set_worktree f w) = stderr w.
Proof. reflexivity. Qed.
Lemma log_set_worktree f w : log (set_worktree f w) = log w.
Proof. reflexivity. Qed.
Lemma env_set_dirs f w : env (set_dirs f w) = env w.
Proof. reflexivity. Qed.
Lemma gitdir_set_dirs f w : gitdir (set_dirs f w) = gitdir w.
Proof. reflexivity. Qed.
Lemma branch_set_dirs f w : branch (set_dirs f w) = branch w.
Proof. reflexivity. Qed.
Lemma refs_set_dirs f w : refs (set_dirs f w) = refs w.
Proof. reflexivity. Qed.
Lemma objects_set_dirs f w : objects (set_dirs f w) = objects w.
Proof. reflexivity. Qed.
Lemma index_set_dirs f w : index (set_dirs f w) = index w.
Proof. reflexivity. Qed.
Lemma conflicted_set_dirs f w : conflicted (set_dirs f w) = conflicted w.
Proof. reflexivity. Qed.
Lemma merge_head_set_dirs f w : merge_head (set_dirs f w) = merge_head w.
Proof. reflexivity. Qed.
Lemma worktree_set_dirs f w : worktree (set_dirs f w) = worktree w.
Proof. reflexivity. Qed.
Lemma dirs_set_dirs f w : dirs (set_dirs f w) = f (dirs w).
Proof. reflexivity. Qed.
Lemma stdout_set_dirs f w : stdout (set_dirs f w) = stdout w.
Proof. reflexivity. Qed.
Lemma stderr_set_dirs f w : stderr (set_dirs f w) = stderr w.
Proof. reflexivity. Qed.
Lemma log_set_dirs f w : log (set_dirs f w) = log w.
Proof. reflexivity. Qed.
Lemma env_set_stdout f w : env (set_stdout f w) = env w.
Proof. reflexivity. Qed.
Lemma gitdir_set_stdout f w : gitdir (set_stdout f w) = gitdir w.
Proof. reflexivity. Qed.
Lemma branch_set_stdout f w : branch (set_stdout f w) = branch w.
Proof. reflexivity. Qed.
Lemma refs_set_stdout f w : refs (set_stdout f w) = refs w.
Proof. reflexivity. Qed.
Lemma objects_set_stdout f w : objects (set_stdout f w) = objects w.
Proof. reflexivity. Qed.
Lemma index_set_stdout f w : index (set_stdout f w) = index w.
Proof. reflexivity. Qed.
Lemma conflicted_set_stdout f w : conflicted (set_stdout f w) = conflicted w.
Proof. reflexivity. Qed.
Lemma merge_head_set_stdout f w : merge_head (set_stdout f w) = merge_head w.
Proof. reflexivity. Qed.
Lemma worktree_set_stdout f w : worktree (set_stdout f w) = worktree w.
Proof. reflexivity. Qed.
Lemma dirs_set_stdout f w : dirs (set_stdout f w) = dirs w.
Proof. reflexivity. Qed.
Lemma stdout_set_stdout f w : stdout (set_stdout f w) = f (stdout w).
Proof. reflexivity. Qed.
Lemma stderr_set_stdout f w : stderr (set_stdout f w) = stderr w.
Proof. reflexivity. Qed.
Lemma log_set_stdout f w : log (set_stdout f w) = log w.
Proof. reflexivity. Qed.
Lemma env_set_stderr f w : env (set_stderr f w) = env w.
Proof. reflexivity. Qed.
Lemma gitdir_set_stderr f w : gitdir (set_stderr f w) = gitdir w.
Proof. reflexivity. Qed.
Lemma branch_set_stderr f w : branch (set_stderr f w) = branch w.
Proof. reflexivity. Qed.
Lemma refs_set_stderr f w : refs (set_stderr f w) = refs w.
Proof. reflexivity. Qed.
Lemma objects_set_stderr f w : objects (set_stderr f w) = objects w.
Proof. reflexivity. Qed.
Lemma index_set_stderr f w : index (set_stderr f w) = index w.
Proof. reflexivity. Qed.
Lemma conflicted_set_stderr f w : conflicted (set_stderr f w) = conflicted w.
Proof. reflexivity. Qed.
Lemma merge_head_set_stderr f w : merge_head (set_stderr f w) = merge_head w.
Proof. reflexivity. Qed.
Lemma worktree_set_stderr f w : worktree (set_stderr f w) = worktree w.
Proof. reflexivity. Qed.
Lemma dirs_set_stderr f w : dirs (set_stderr f w) = dirs w.
Proof. reflexivity. Qed.
Lemma stdout_set_stderr f w : stdout (set_stderr f w) = stdout w.
Proof. reflexivity. Qed.
Lemma stderr_set_stderr f w : stderr (set_stderr f w) = f (stderr w).
Proof. reflexivity. Qed.
Lemma log_set_stderr f w : log (set_stderr f w) = log w.
Proof. reflexivity. Qed.
Lemma env_set_merge_head m w : env (set_merge_head m w) = env w.
Proof. reflexivity. Qed.
Lemma gitdir_set_merge_head m w : gitdir (set_merge_head m w) = gitdir w.
Proof. reflexivity. Qed.
Lemma branch_set_merge_head m w : branch (set_merge_head m w) = branch w.
Proof. reflexivity. Qed.
Lemma refs_set_merge_head m w : refs (set_merge_head m w) = refs w.
Proof. reflexivity. Qed.
Lemma objects_set_merge_head m w : objects (set_merge_head m w) = objects w.
Proof. reflexivity. Qed.
Lemma index_set_merge_head m w : index (set_merge_head m w) = index w.
Proof. reflexivity. Qed.
Lemma conflicted_set_merge_head m w : conflicted (set_merge_head m w) = conflicted w.
Proof. reflexivity. Qed.
Lemma merge_head_set_merge_head m w : merge_head (set_merge_head m w) = m.
Proof. reflexivity. Qed.
Lemma worktree_set_merge_head m w : worktree (set_merge_head m w) = worktree w.
Proof. reflexivity. Qed.
Lemma dirs_set_merge_head m w : dirs (set_merge_head m w) = dirs w.
Proof. reflexivity. Qed.
Lemma stdout_set_merge_head m w : stdout (set_merge_head m w) = stdout w.
Proof. reflexivity. Qed.
Lemma stderr_set_merge_head m w : stderr (set_merge_head m w) = stderr w.
Proof. reflexivity. Qed.
Lemma log_set_merge_head m w : log (set_merge_head m w) = log w.
Proof. reflexivity. Qed.
Lemma env_record c w : env (record c w) = env w.
Proof. reflexivity. Qed.
Lemma gitdir_record c w : gitdir (record c w) = gitdir w.
Proof. reflexivity. Qed.
Lemma branch_record c w : branch (record c w) = branch w.
Proof. reflexivity. Qed.
Lemma refs_record c w : refs (record c w) = refs w.
Proof. reflexivity. Qed.
Lemma objects_record c w : objects (record c w) = objects w.
Proof. reflexivity. Qed.
Lemma index_record c w : index (record c w) = index w.
Proof. reflexivity. Qed.
Lemma conflicted_record c w : conflicted (record c w) = conflicted w.
Proof. reflexivity. Qed.
Lemma merge_head_record c w : merge_head (record c w) = merge_head w.
Proof. reflexivity. Qed.
Lemma worktree_record c w : worktree (record c w) = worktree w.
Proof. reflexivity. Qed.
Lemma dirs_record c w : dirs (record c w) = dirs w.
Proof. reflexivity. Qed.
Lemma stdout_record c w : stdout (record c w) = stdout w.
Proof. reflexivity. Qed.
Lemma stderr_record c w : stderr (record c w) = stderr w.
Proof. reflexivity. Qed.
Lemma log_record c w : log (record c w) = log w ++ [c].
Proof. reflexivity. Qed.
Lemma env_checkout_tree t w : env (checkout_tree t w) = env w.
Proof. reflexivity. Qed.
Lemma gitdir_checkout_tree t w : gitdir (checkout_tree t w) = gitdir w.
Proof. reflexivity. Qed.
Lemma branch_checkout_tree t w : branch (checkout_tree t w) = branch w.
Proof. reflexivity. Qed.
Lemma refs_checkout_tree t w : refs (checkout_tree t w) = refs w.
Proof. reflexivity. Qed.
Lemma objects_checkout_tree t w : objects (checkout_tree t w) = objects w.
Proof. reflexivity. Qed.
Lemma index_checkout_tree t w : index (checkout_tree t w) = t.
Proof. reflexivity. Qed.
Lemma conflicted_checkout_tree t w : conflicted (checkout_tree t w) = ∅.
Proof. reflexivity. Qed.
Lemma merge_head_checkout_tree t w : merge_head (checkout_tree t w) = None.
Proof. reflexivity. Qed.
Lemma worktree_checkout_tree t w : worktree (checkout_tree t w) = t ∪ filter (λ kv, kv.1 ∉ tracked w) (worktree w).
Proof. reflexivity. Qed.
Lemma dirs_checkout_tree t w : dirs (checkout_tree t w) = dirs w.
Proof. reflexivity. Qed.
Lemma stdout_checkout_tree t w : stdout (checkout_tree t w) = stdout w.
Proof. reflexivity. Qed.
Lemma stderr_checkout_tree t w : stderr (checkout_tree t w) = stderr w.
Proof. reflexivity. Qed.
Lemma log_checkout_tree t w : log (checkout_tree t w) = log w.
Proof. reflexivity. Qed.

Create Rewrite HintDb proj.
#[export] Hint Rewrite env_set_refs gitdir_set_refs branch_set_refs refs_set_refs objects_set_refs index_set_refs conflicted_set_refs merge_head_set_refs worktree_set_refs dirs_set_refs stdout_set_refs stderr_set_refs : proj.
#[export] Hint Rewrite log_set_refs env_set_objects gitdir_set_objects branch_set_objects refs_set_objects objects_set_objects index_set_objects conflicted_set_objects merge_head_set_objects worktree_set_objects dirs_set_objects stdout_set_objects : proj.
#[export] Hint Rewrite stderr_set_objects log_set_objects env_set_index gitdir_set_index branch_set_index refs_set_index objects_set_index index_set_index conflicted_set_index merge_head_set_index worktree_set_index dirs_set_index : proj.
#[export] Hint Rewrite stdout_set_index stderr_set_index log_set_index env_set_conflicted gitdir_set_conflicted branch_set_conflicted refs_set_conflicted objects_set_conflicted index_set_conflicted conflicted_set_conflicted merge_head_set_conflicted worktree_set_conflicted : proj.
#[export] Hint Rewrite dirs_set_conflicted stdout_set_conflicted stderr_set_conflicted log_set_conflicted env_set_worktree gitdir_set_worktree branch_set_worktree refs_set_worktree objects_set_worktree index_set_worktree conflicted_set_worktree merge_head_set_worktree : proj.
#[export] Hint Rewrite worktree_set_worktree dirs_set_worktree stdout_set_worktree stderr_set_worktree log_set_worktree env_set_dirs gitdir_set_dirs branch_set_dirs refs_set_dirs objects_set_dirs index_set_dirs conflicted_set_dirs : proj.
#[export] Hint Rewrite merge_head_set_dirs worktree_set_dirs dirs_set_dirs stdout_set_dirs stderr_set_dirs log_set_dirs env_set_stdout gitdir_set_stdout branch_set_stdout refs_set_stdout objects_set_stdout index_set_stdout : proj.
#[export] Hint Rewrite conflicted_set_stdout merge_head_set_stdout worktree_set_stdout dirs_set_stdout stdout_set_stdout stderr_set_stdout log_set_stdout env_set_stderr gitdir_set_stderr branch_set_stderr refs_set_stderr objects_set_stderr : proj.
#[export] Hint Rewrite index_set_stderr conflicted_set_stderr merge_head_set_stderr worktree_set_stderr dirs_set_stderr stdout_set_stderr stderr_set_stderr log_set_stderr env_set_merge_head gitdir_set_merge_head branch_set_merge_head refs_set_merge_head : proj.
#[export] Hint Rewrite objects_set_merge_head index_set_merge_head conflicted_set_merge_head merge_head_set_merge_head worktree_set_merge_head dirs_set_merge_head stdout_set_merge_head stderr_set_merge_head log_set_merge_head env_record gitdir_record branch_record : proj.
#[export] Hint Rewrite refs_record objects_record index_record conflicted_record merge_head_record worktree_record dirs_record stdout_record stderr_record log_record env_checkout_tree gitdir_checkout_tree : proj.
#[export] Hint Rewrite branch_checkout_tree refs_checkout_tree objects_checkout_tree index_checkout_tree conflicted_checkout_tree merge_head_checkout_tree worktree_checkout_tree dirs_checkout_tree stdout_checkout_tree stderr_checkout_tree log_checkout_tree : proj.

Ltac projs := repeat rewrite_strat (topdown (hints proj)).
Tactic Notation "projs" "in" hyp(H) := repeat rewrite_strat (topdown (hints proj)) in H.


(** * One step at a time: what each helper returns *)

Ltac wsimpl :=
  cbn [env gitdir branch refs objects index conflicted merge_head worktree dirs
       stdout stderr log set_refs set_objects set_index set_conflicted
       set_merge_head set_worktree set_dirs set_stdout set_stderr record
       fst snd] in *.

(** Run the first computation of a [bind] with the equation [lem]. *)
Ltac step_with lem :=
  unfold bind at 1; rewrite lem by eassumption; cbv beta iota.

Lemma unchanged_refl w : unchanged w w.
Proof. done. Qed.

Lemma unchanged_trans w1 w2 w3 : unchanged w1 w2 → unchanged w2 w3 → unchanged w1 w3.
Proof. intros (?&?&?) (?&?&?). repeat split; congruence. Qed.

Lemma unchanged_record c w : unchanged w (record c w).
Proof. done. Qed.

Lemma unchanged_stdout f w : unchanged w (set_stdout f w).
Proof. done. Qed.

Lemma calls_app w w' l : log w' = log w ++ l → calls w w' = l.
Proof. unfold calls. intros ->. by rewrite drop_app_length. Qed.

Lemma printed_app w w' l : stdout w' = stdout w ++ l → printed w w' = l.
Proof. unfold printed. intros ->. by rewrite drop_app_length. Qed.

Lemma isAnticipateInProgress_eq sd w :
  isAnticipateInProgress sd w
  = (Ok (bool_decide (is_Some (dirs w !! sd))), record (OsStat sd) w).
Proof.
  unfold isAnticipateInProgress, os_Stat.
  destruct (dirs w !! sd) eqn:E.
  - by rewrite bool_decide_true.
  - rewrite bool_decide_false; [done|]. by intros [??].
Qed.

Lemma readStateFile_eq sd name w :
  readStateFile sd name w
  = (match field w sd name with
     | Some s => Ok s
     | None => Err (Errorf ("open " +:+ filepath_Join sd name +:+ ": no such file or directory"))
     end, record (OsReadFile (filepath_Join sd name)) w).
Proof.
  unfold readStateFile, bind, os_ReadFileIn, field.
  by destruct (dirs w !! sd ≫= _).
Qed.

Lemma ls_files_nonspace l : l ≠ [] → allSpace (unlines (ls_files_line <$> l)) = false.
Proof. destruct l; [done|]. done. Qed.

Lemma length_pos_nonempty s : (0 <? String.length s) = bool_decide (s ≠ EmptyString).
Proof. destruct s; done. Qed.

Lemma elements_nil_iff (X : gset string) : elements X = [] ↔ X = ∅.
Proof. rewrite elements_empty_iff. by unfold_leibniz. Qed.

Lemma hasUnmergedFiles_eq gd w :
  gitdir w = Some gd →
  hasUnmergedFiles w = (Ok (bool_decide (conflicted w ≠ ∅)), record (Git LsFilesU) w).
Proof.
  intros Hgd. unfold hasUnmergedFiles, Output, git_exec. wsimpl. rewrite Hgd.
  f_equal. f_equal. rewrite length_pos_nonempty.
  apply bool_decide_ext. rewrite TrimSpace_empty.
  destruct (decide (conflicted w = ∅)) as [->|Hne].
  - by rewrite elements_empty.
  - rewrite ls_files_nonspace; [naive_solver|]. by rewrite elements_nil_iff.
Qed.

(** Outside a repository the call fails, and the source takes that for "none". *)
Lemma hasUnmergedFiles_norepo w :
  gitdir w = None → hasUnmergedFiles w = (Ok false, record (Git LsFilesU) w).
Proof. intros Hgd. unfold hasUnmergedFiles, Output, git_exec. wsimpl. by rewrite Hgd. Qed.

Lemma getConflictingFiles_eq gd w :
  gitdir w = Some gd →
  getConflictingFiles w
  = (Ok (nonEmptyLines (unlines (elements (conflicted w)))), record (Git DiffNameOnlyU) w).
Proof. intros Hgd. unfold getConflictingFiles, Output, git_exec. wsimpl. by rewrite Hgd. Qed.

Lemma getConflictingFiles_norepo w :
  gitdir w = None → getConflictingFiles w = (Ok [], record (Git DiffNameOnlyU) w).
Proof. intros Hgd. unfold getConflictingFiles, Output, git_exec. wsimpl. by rewrite Hgd. Qed.

Lemma forEach_Printf {A} (l : list A) (f : A → string) w :
  forEach l (λ x, Printf (f x)) w = (Ok tt, set_stdout (λ o, o ++ (f <$> l)) w).
Proof.
  revert w. induction l as [|x l IH]; intros w.
  - unfold forEach, ret, set_stdout. rewrite app_nil_r. by destruct w.
  - cbn [forEach]. unfold bind at 1. unfold Printf at 1. rewrite IH.
    unfold set_stdout. wsimpl. by rewrite <- app_assoc.
Qed.

Lemma bind_Printf {B} s (k : unit → M B) w :
  bind (Printf s) k w = k tt (set_stdout (λ o, o ++ [s]) w).
Proof. reflexivity. Qed.

Lemma bind_ret {A B} (a : A) (k : A → M B) w : bind (ret a) k w = k a w.
Proof. reflexivity. Qed.

Lemma bind_fail {A B} e (k : A → M B) w : bind (fail e) k w = (Err e, w).
Proof. reflexivity. Qed.

Lemma bind_forEach_Printf {A B} (l : list A) (f : A → string) (k : unit → M B) w :
  bind (forEach l (λ x, Printf (f x))) k w = k tt (set_stdout (λ o, o ++ (f <$> l)) w).
Proof. unfold bind. by rewrite forEach_Printf. Qed.

Lemma orDefault_readStateFile sd name w :
  orDefault "" (readStateFile sd name) w
  = (Ok (default "" (field w sd name)), record (OsReadFile (filepath_Join sd name)) w).
Proof. unfold orDefault. rewrite readStateFile_eq. by destruct (field w sd name). Qed.

Lemma hasUnmergedFiles_run w :
  hasUnmergedFiles w = (Ok (unmergedNow w), record (Git LsFilesU) w).
Proof.
  unfold unmergedNow. destruct (gitdir w) eqn:E.
  - by eapply hasUnmergedFiles_eq.
  - by apply hasUnmergedFiles_norepo.
Qed.

Lemma getConflictingFiles_run w :
  getConflictingFiles w = (Ok (conflictingNow w), record (Git DiffNameOnlyU) w).
Proof.
  unfold conflictingNow. destruct (gitdir w) eqn:E.
  - by eapply getConflictingFiles_eq.
  - by apply getConflictingFiles_norepo.
Qed.

Lemma truncateSHA_trimmed s : truncateSHA (TrimSpace s) = shownTip (TrimSpace s).
Proof. unfold truncateSHA. by rewrite TrimSpace_idemp. Qed.

(** Printing and recording a call do not change what git sees. *)
Lemma HEAD_record c w : HEAD (record c w) = HEAD w.
Proof. reflexivity. Qed.
Lemma HEAD_stdout f w : HEAD (set_stdout f w) = HEAD w.
Proof. reflexivity. Qed.
Lemma resolve_record c w rev : resolve (record c w) rev = resolve w rev.
Proof. reflexivity. Qed.
Lemma resolve_stdout f w rev : resolve (set_stdout f w) rev = resolve w rev.
Proof. reflexivity. Qed.
Lemma head_tree_record c w : head_tree (record c w) = head_tree w.
Proof. reflexivity. Qed.
Lemma head_tree_stdout f w : head_tree (set_stdout f w) = head_tree w.
Proof. reflexivity. Qed.
Lemma tracked_record c w : tracked (record c w) = tracked w.
Proof. reflexivity. Qed.
Lemma tracked_stdout f w : tracked (set_stdout f w) = tracked w.
Proof. reflexivity. Qed.
Lemma status_porcelain_record c w : status_porcelain (record c w) = status_porcelain w.
Proof. reflexivity. Qed.
Lemma status_porcelain_stdout f w : status_porcelain (set_stdout f w) = status_porcelain w.
Proof. reflexivity. Qed.
Lemma changed_paths_record c w : changed_paths (record c w) = changed_paths w.
Proof. reflexivity. Qed.
Lemma changed_paths_stdout f w : changed_paths (set_stdout f w) = changed_paths w.
Proof. reflexivity. Qed.
Lemma deleted_paths_record c w : deleted_paths (record c w) = deleted_paths w.
Proof. reflexivity. Qed.
Lemma deleted_paths_stdout f w : deleted_paths (set_stdout f w) = deleted_paths w.
Proof. reflexivity. Qed.
Lemma field_record c w sd n : field (record c w) sd n = field w sd n.
Proof. reflexivity. Qed.
Lemma field_stdout f w sd n : field (set_stdout f w) sd n = field w sd n.
Proof. reflexivity. Qed.
Lemma unmergedNow_record c w : unmergedNow (record c w) = unmergedNow w.
Proof. reflexivity. Qed.
Lemma unmergedNow_stdout f w : unmergedNow (set_stdout f w) = unmergedNow w.
Proof. reflexivity. Qed.
Lemma conflictingNow_record c w : conflictingNow (record c w) = conflictingNow w.
Proof. reflexivity. Qed.
Lemma conflictingNow_stdout f w : conflictingNow (set_stdout f w) = conflictingNow w.
Proof. reflexivity. Qed.

Create Rewrite HintDb frame.
#[export] Hint Rewrite HEAD_record HEAD_stdout resolve_record resolve_stdout
  head_tree_record head_tree_stdout tracked_record tracked_stdout
  status_porcelain_record status_porcelain_stdout changed_paths_record
  changed_paths_stdout deleted_paths_record deleted_paths_stdout
  field_record field_stdout unmergedNow_record unmergedNow_stdout
  conflictingNow_record conflictingNow_stdout : frame.

Ltac frame := wsimpl; autorewrite with frame in *.

Lemma onError_ok {A} f (m : M A) w a w' : m w = (Ok a, w') → onError f m w = (Ok a, w').
Proof. unfold onError. by intros ->. Qed.

Lemma onError_err {A} f (m : M A) w e w' : m w = (Err e, w') → onError f m w = (Err (f e), w').
Proof. unfold onError. by intros ->. Qed.

Lemma validateRepo_run gd w :
  gitdir w = Some gd → validateRepo w = (Ok tt, record (Git RevParseGitDir) w).
Proof. intros H. unfold validateRepo, onError, Run, git_exec. wsimpl. by rewrite H. Qed.

Lemma validateRepo_norepo w :
  gitdir w = None →
  validateRepo w = (Err (Errorf "not a git repository"), record (Git RevParseGitDir) w).
Proof. intros H. unfold validateRepo, onError, Run, git_exec. wsimpl. by rewrite H. Qed.

Lemma getGitDir_run gd w :
  gitdir w = Some gd → getGitDir w = (Ok (TrimSpace gd), record (Git RevParseGitDir) w).
Proof.
  intros H. unfold getGitDir, bind, Output, git_exec. wsimpl. rewrite H.
  unfold ret. by rewrite TrimSpace_app_space.
Qed.

Lemma status_lines_nonspace w p line :
  line ∈ status_lines w p → allSpace line = false.
Proof.
  unfold status_lines. case_decide.
  - intros ->%list_elem_of_singleton. done.
  - intros [Hin|Hin]%elem_of_app.
    + case_decide as HXY; [by apply elem_of_nil in Hin|].
      apply list_elem_of_singleton in Hin as ->.
      destruct (head_tree w !! p), (index w !! p), (worktree w !! p);
        repeat case_decide; try done; by destruct HXY.
    + destruct (index w !! p), (worktree w !! p);
        try (by apply elem_of_nil in Hin).
      apply list_elem_of_singleton in Hin as ->. done.
Qed.

Lemma status_lines_nil w p :
  status_lines w p = [] ↔
  (p ∉ conflicted w) ∧ head_tree w !! p = index w !! p ∧ index w !! p = worktree w !! p.
Proof.
  unfold status_lines. case_decide as Hc; [naive_solver|].
  destruct (head_tree w !! p) as [a|], (index w !! p) as [b|], (worktree w !! p) as [c|];
    repeat case_decide; simpl; naive_solver.
Qed.

Lemma list_bind_nil {A B} (f : A → list B) (l : list A) :
  l ≫= f = [] ↔ Forall (λ x, f x = []) l.
Proof.
  induction l as [|x l IH]; [by split|].
  rewrite bind_cons, Forall_cons, <- IH. split.
  - by intros [??]%app_eq_nil.
  - by intros [-> ->].
Qed.

Lemma status_porcelain_nil w : status_porcelain w = [] ↔ clean w.
Proof.
  unfold status_porcelain, clean. rewrite list_bind_nil. split.
  - intros H. rewrite Forall_forall in H.
    assert (∀ p, (p ∉ conflicted w) ∧ head_tree w !! p = index w !! p
                 ∧ index w !! p = worktree w !! p) as Hall.
    { intros p. destruct (decide (p ∈ dom (head_tree w) ∪ dom (index w)
                                    ∪ dom (worktree w) ∪ conflicted w)) as [Hin|Hout].
      - apply status_lines_nil, H. by apply elem_of_elements.
      - rewrite !not_elem_of_union, !not_elem_of_dom in Hout.
        destruct Hout as (((-> & ->) & ->) & ?). done. }
    split; [|split].
    + apply set_eq. intros p. specialize (Hall p). set_solver.
    + apply map_eq. intros p. symmetry. apply Hall.
    + apply map_eq. intros p. symmetry. apply Hall.
  - intros (Hc & Hi & Hw). apply Forall_forall. intros p _.
    apply status_lines_nil. rewrite Hc, Hw, <- Hi. set_solver.
Qed.

Lemma hasUncommittedChanges_run gd w :
  gitdir w = Some gd →
  hasUncommittedChanges w
  = (Ok (bool_decide (¬ clean w)), record (Git StatusPorcelain) w).
Proof.
  intros Hgd. unfold hasUncommittedChanges, Output, git_exec. wsimpl. rewrite Hgd.
  f_equal. f_equal. rewrite length_pos_nonempty. apply bool_decide_ext.
  rewrite TrimSpace_empty, allSpace_unlines, <- status_porcelain_nil.
  autorewrite with frame.
  destruct (status_porcelain w) as [|line l] eqn:E; [done|].
  assert (allSpace line = false) as Hline.
  { assert (line ∈ status_porcelain w) as Hin by (rewrite E; left).
    unfold status_porcelain in Hin. apply list_elem_of_bind in Hin as (p & Hin & _).
    by eapply status_lines_nonspace. }
  cbn [forallb]. rewrite Hline. cbn [andb]. split; intros _; done.
Qed.

Ltac solve_calls :=
  apply calls_app; wsimpl; rewrite <- ?app_assoc; reflexivity.
Ltac solve_printed :=
  apply printed_app; wsimpl; rewrite <- ?app_assoc; reflexivity.

(** Decide a closed proposition by evaluation. *)
Ltac by_compute :=
  lazymatch goal with
  | |- ?P => refine (@bool_decide_unpack P _ _); vm_compute; exact I
  end.

Lemma run_eq {A} (p : result A * World) (a : result A) : fst p = a → p = (a, snd p).
Proof. destruct p. by intros <-. Qed.

(** * The session store *)

Lemma visit_Permutation pick n keys : length keys = n → visit pick n keys ≡ₚ keys.
Proof.
  revert keys. induction n as [|n IH]; intros keys Hlen.
  - by destruct keys.
  - cbn [visit].
    assert (pick keys `mod` length keys < length keys) as Hlt
      by (apply Nat.mod_upper_bound; lia).
    destruct (lookup_lt_is_Some_2 _ _ Hlt) as [k Hk]. rewrite Hk.
    rewrite IH.
    + symmetry. by apply delete_Permutation.
    + rewrite length_delete by eauto. lia.
Qed.

Lemma rangeOrder_Permutation e keys : rangeOrder e keys ≡ₚ keys.
Proof. by apply visit_Permutation. Qed.

Lemma elem_of_rangeOrder e keys k : k ∈ rangeOrder e keys ↔ k ∈ keys.
Proof. by rewrite rangeOrder_Permutation. Qed.

(** The loop of [saveState], over any list of names. *)
Lemma write_loop sd (files : gmap string string) ks w old r w' :
  dirs w !! sd = Some old →
  forEach ks (λ k, match files !! k with
                   | Some v => os_WriteFileIn sd k (list_byte_of_string v)
                   | None => ret tt
                   end) w = (r, w') →
  env w' = env w ∧ repo w' = repo w ∧ stdout w' = stdout w ∧ stderr w' = stderr w
  ∧ (∃ l, log w' = log w ++ l ∧ Forall isWrite l)
  ∧ ∃ new, dirs w' = <[sd := new]> (dirs w)
      ∧ (r = Ok tt → ∀ k, new !! k =
           if decide (k ∈ ks) then
             match files !! k with
             | Some v => Some (list_byte_of_string v)
             | None => old !! k
             end
           else old !! k).
Proof.
  revert w old. induction ks as [|k ks IH]; intros w old Hold Hrun.
  - cbn in Hrun. injection Hrun as <- <-.
    repeat split; try done.
    + exists []. by rewrite app_nil_r.
    + exists old. split; [by rewrite insert_id|]. intros _ k. by rewrite decide_False by set_solver.
  - cbn [forEach] in Hrun. unfold bind at 1 in Hrun.
    destruct (files !! k) as [v|] eqn:Hk.
    + unfold os_WriteFileIn in Hrun. rewrite Hold in Hrun.
      destruct (write_fails (env w) (filepath_Join sd k)).
      * injection Hrun as <- <-. wsimpl. repeat split; try done.
        -- eexists. split; [reflexivity|]. by repeat constructor.
        -- exists old. split; [by rewrite insert_id|]. intros [=].
      * match type of Hrun with forEach _ _ ?w1 = _ =>
          destruct (IH w1 (<[k := list_byte_of_string v]> old)) as
            (He & Hr & Ho & Hse & (l & Hl & Hw) & new & Hd & Hnew);
            [wsimpl; by rewrite lookup_insert_eq | exact Hrun |] end.
        wsimpl. rewrite insert_insert_eq in Hd. repeat split; try done.
        -- eexists. split; [by rewrite Hl, <- app_assoc|]. by repeat constructor.
        -- exists new. split; [done|]. intros Hok j. rewrite (Hnew Hok j).
           destruct (decide (j = k)) as [->|Hne].
           ++ rewrite (decide_True (P := k ∈ k :: ks)) by set_solver.
              rewrite Hk, lookup_insert_eq. by case_decide.
           ++ rewrite lookup_insert_ne by done.
              destruct (decide (j ∈ ks)).
              ** by rewrite decide_True by set_solver.
              ** by rewrite decide_False by set_solver.
    + cbv beta iota in Hrun. unfold ret at 1 in Hrun.
      destruct (IH w old Hold Hrun) as (He & Hr & Ho & Hse & Hl & new & Hd & Hnew).
      repeat split; try done. exists new. split; [done|]. intros Hok j.
      rewrite (Hnew Hok j). destruct (decide (j = k)) as [->|Hne].
      * rewrite (decide_True (P := k ∈ k :: ks)) by set_solver. rewrite Hk. by case_decide.
      * destruct (decide (j ∈ ks)).
        -- by rewrite decide_True by set_solver.
        -- by rewrite decide_False by set_solver.
Qed.

Lemma sessionRecord_fmap tb oh ts cb :
  sessionRecord tb oh ts cb
  = list_byte_of_string <$>
      (<["target" := tb]> (<["orig_head" := oh]>
        (<["target_sha" := ts]> (<["current_branch" := cb]> (∅ : gmap string string))))).
Proof. by rewrite !fmap_insert, fmap_empty. Qed.

Lemma saveState_run sd tb oh ts cb w r w' :
  saveState sd tb oh ts cb w = (r, w') →
  env w' = env w ∧ repo w' = repo w ∧ stdout w' = stdout w ∧ stderr w' = stderr w
  ∧ (∃ l, log w' = log w ++ OsMkdirAll sd :: l ∧ Forall isWrite l)
  ∧ (r = Ok tt →
     dirs w' = <[sd := sessionRecord tb oh ts cb ∪ default ∅ (dirs w !! sd)]> (dirs w))
  ∧ (r ≠ Ok tt →
     (mkdir_fails (env w) sd = true ∧ dirs w' = dirs w)
     ∨ (mkdir_fails (env w) sd = false ∧ is_Some (dirs w' !! sd))).
Proof.
  unfold saveState, bind, os_MkdirAll. intros Hrun.
  destruct (mkdir_fails (env w) sd) eqn:Hmk.
  { injection Hrun as <- <-. wsimpl. repeat split; try done.
    - by exists [].
    - by left. }
  unfold rangeMap in Hrun.
  set (old := default ∅ (dirs w !! sd)).
  match type of Hrun with forEach _ _ ?w1 = _ =>
    assert (dirs w1 !! sd = Some old) as Hold
      by (wsimpl; subst old; destruct (dirs w !! sd) eqn:E; [done|];
          by rewrite lookup_insert_eq);
    destruct (write_loop _ _ _ w1 old _ _ Hold Hrun)
      as (He & Hr & Ho & Hse & (l & Hl & Hw) & new & Hd & Hnew) end.
  clear Hold. wsimpl.
  split; [exact He|]. split; [exact Hr|]. split; [exact Ho|]. split; [exact Hse|].
  split; [|split].
  - exists l. split; [|exact Hw]. by rewrite Hl, <- app_assoc.
  - intros Hok. rewrite Hd. specialize (Hnew Hok).
    assert (new = sessionRecord tb oh ts cb ∪ old) as ->.
    { apply map_eq. intros k. rewrite Hnew.
      rewrite sessionRecord_fmap, lookup_union, lookup_fmap.
      match goal with |- context [decide (k ∈ rangeOrder ?e (elements (dom ?fs)))] =>
        set (files := fs) in *;
        destruct (decide (k ∈ rangeOrder e (elements (dom files)))) as [Hin|Hout] end.
      - destruct (files !! k) as [v|] eqn:Hf; destruct (old !! k); reflexivity.
      - rewrite elem_of_rangeOrder, elem_of_elements, not_elem_of_dom in Hout.
        rewrite Hout. destruct (old !! k); reflexivity. }
    destruct (dirs w !! sd) eqn:E; [done|]. by rewrite insert_insert_eq.
  - intros _. right. split; [done|]. rewrite Hd. by rewrite lookup_insert_eq.
Qed.

Lemma sessionRecord_lookup tb oh ts cb :
  sessionRecord tb oh ts cb !! "target" = Some (list_byte_of_string tb)
  ∧ sessionRecord tb oh ts cb !! "orig_head" = Some (list_byte_of_string oh)
  ∧ sessionRecord tb oh ts cb !! "target_sha" = Some (list_byte_of_string ts)
  ∧ sessionRecord tb oh ts cb !! "current_branch" = Some (list_byte_of_string cb).
Proof.
  unfold sessionRecord. split; [|split; [|split]].
  - by rewrite lookup_insert_eq.
  - rewrite lookup_insert_ne by done. by rewrite lookup_insert_eq.
  - do 2 rewrite lookup_insert_ne by done. by rewrite lookup_insert_eq.
  - do 3 rewrite lookup_insert_ne by done. by rewrite lookup_insert_eq.
Qed.

(** The record just written reads back, field by field. *)
Lemma field_sessionRecord sd tb oh ts cb old (w : World) :
  dirs w !! sd = Some (sessionRecord tb oh ts cb ∪ old) →
  field w sd "target" = Some (TrimSpace tb)
  ∧ field w sd "orig_head" = Some (TrimSpace oh)
  ∧ field w sd "target_sha" = Some (TrimSpace ts)
  ∧ field w sd "current_branch" = Some (TrimSpace cb).
Proof.
  intros Hd. unfold field. rewrite Hd. cbn [mbind option_bind].
  destruct (sessionRecord_lookup tb oh ts cb) as (H1 & H2 & H3 & H4).
  split; [|split; [|split]].
  - rewrite (lookup_union_Some_l _ _ _ _ H1). cbn [fmap option_fmap option_map compose].
    by rewrite string_of_list_byte_of_string.
  - rewrite (lookup_union_Some_l _ _ _ _ H2). cbn [fmap option_fmap option_map compose].
    by rewrite string_of_list_byte_of_string.
  - rewrite (lookup_union_Some_l _ _ _ _ H3). cbn [fmap option_fmap option_map compose].
    by rewrite string_of_list_byte_of_string.
  - rewrite (lookup_union_Some_l _ _ _ _ H4). cbn [fmap option_fmap option_map compose].
    by rewrite string_of_list_byte_of_string.
Qed.
Lemma clean_record c w : clean (record c w) = clean w.
Proof. reflexivity. Qed.
Lemma clean_stdout f w : clean (set_stdout f w) = clean w.
Proof. reflexivity. Qed.
#[export] Hint Rewrite clean_record clean_stdout : frame.

Ltac step_on lem :=
  unfold bind at 1; unfold onError at 1; rewrite lem by eassumption; cbv beta iota.

Lemma getCurrentBranch_run gd w :
  gitdir w = Some gd →
  getCurrentBranch w
  = (match HEAD w with Some _ => Ok (TrimSpace (branch w)) | None => Err exitError end,
     record (Git RevParseAbbrevRefHEAD) w).
Proof.
  intros H. unfold getCurrentBranch, bind, Output, git_exec. wsimpl. rewrite H.
  autorewrite with frame. destruct (HEAD w); [|done].
  unfold ret. by rewrite TrimSpace_app_space.
Qed.

Lemma validateBranchExists_run gd w b :
  gitdir w = Some gd →
  validateBranchExists b w
  = (match resolve w b with Some _ => Ok tt | None => Err exitError end,
     record (Git (RevParseVerify b)) w).
Proof.
  intros H. unfold validateBranchExists, Run, git_exec. wsimpl. rewrite H.
  autorewrite with frame. by destruct (resolve w b).
Qed.

Lemma getRevisionSHA_run gd w rev :
  gitdir w = Some gd →
  getRevisionSHA rev w
  = (match resolve w rev with Some id => Ok (TrimSpace id) | None => Err exitError end,
     record (Git (RevParse rev)) w).
Proof.
  intros H. unfold getRevisionSHA, bind, Output, git_exec. wsimpl. rewrite H.
  autorewrite with frame. destruct (resolve w rev); [|done].
  unfold ret. by rewrite TrimSpace_app_space.
Qed.

Lemma getMergeBase_run gd w b1 b2 :
  gitdir w = Some gd →
  getMergeBase b1 b2 w
  = (match resolve w b1, resolve w b2 with
     | Some c1, Some c2 =>
         match merge_base (env w) c1 c2 with
         | Some id => Ok (TrimSpace id)
         | None => Err exitError
         end
     | _, _ => Err exitError
     end, record (Git (MergeBase b1 b2)) w).
Proof.
  intros H. unfold getMergeBase, bind, Output, git_exec. wsimpl. rewrite H.
  autorewrite with frame. destruct (resolve w b1); [|done]. destruct (resolve w b2); [|done].
  destruct (merge_base _ _ _); [|done].
  unfold ret. by rewrite TrimSpace_app_space.
Qed.

(** * Starting a session: the preconditions *)

(** C7.  [start] first refuses when a session directory exists, whatever
    the state of the work tree and of the target; next, with no
    session, it refuses a work tree that is not clean, whatever the
    target; next, with a clean tree on a branch that has a tip, it
    refuses a target that names no revision.  Each refusal is an
    error with exit status 2, comes after queries only, and leaves the
    repository and the session directory as they were: in
    particular an existing session keeps its fields. *)
Theorem start_checks_in_order (stateDir targetBranch : string) (w : World) :
  (is_Some (dirs w !! stateDir) →
   ∃ e w', startAnticipate stateDir targetBranch w = (Err e, w')
     ∧ e = Errorf ("anticipate already in progress" +:+ LF
              +:+ "Use 'git anticipate --continue' or 'git anticipate --abort'")
     ∧ exitCode (Err e) = ExitError
     ∧ unchanged w w'
     ∧ (∀ name, field w' stateDir name = field w stateDir name)
     ∧ calls w w' = [OsStat stateDir])
  ∧ (∀ gd, gitdir w = Some gd → dirs w !! stateDir = None → ¬ clean w →
     ∃ e w', startAnticipate stateDir targetBranch w = (Err e, w')
       ∧ e = Errorf ("you have uncommitted changes" +:+ LF
                +:+ "Please commit or stash them before running git anticipate")
       ∧ exitCode (Err e) = ExitError
       ∧ unchanged w w'
       ∧ calls w w' = [OsStat stateDir; Git StatusPorcelain])
  ∧ (∀ gd, gitdir w = Some gd → dirs w !! stateDir = None → clean w →
     is_Some (HEAD w) → resolve w targetBranch = None →
     ∃ e w', startAnticipate stateDir targetBranch w = (Err e, w')
       ∧ e = Errorf ("target branch '" +:+ targetBranch +:+ "' does not exist")
       ∧ exitCode (Err e) = ExitError
       ∧ unchanged w w'
       ∧ calls w w' = [OsStat stateDir; Git StatusPorcelain; Git RevParseAbbrevRefHEAD;
                       Git (RevParseVerify targetBranch)]).
Proof.
  split; [|split].
  - intros Hdir. unfold startAnticipate. rewrite !bind_Printf.
    step_with isAnticipateInProgress_eq. wsimpl.
    rewrite bool_decide_true by done. unfold fail.
    eexists _, _. split; [reflexivity|]. split; [reflexivity|].
    split; [reflexivity|]. split; [done|]. split; [done|]. solve_calls.
  - intros gd Hgd Hdir Hdirty. unfold startAnticipate. rewrite !bind_Printf.
    step_with isAnticipateInProgress_eq. wsimpl.
    rewrite bool_decide_false by (rewrite Hdir; by intros [??]).
    step_with (hasUncommittedChanges_run gd). frame.
    rewrite bool_decide_true by done. unfold fail.
    eexists _, _. split; [reflexivity|]. split; [reflexivity|].
    split; [reflexivity|]. split; [done|]. solve_calls.
  - intros gd Hgd Hdir Hclean [h Hh] Htarget. unfold startAnticipate. rewrite !bind_Printf.
    step_with isAnticipateInProgress_eq. wsimpl.
    rewrite bool_decide_false by (rewrite Hdir; by intros [??]).
    step_with (hasUncommittedChanges_run gd). frame.
    rewrite bool_decide_false by (by intros H; apply H).
    step_on (getCurrentBranch_run gd). frame. rewrite Hh.
    rewrite bind_Printf.
    step_on (validateBranchExists_run gd). frame. rewrite Htarget.
    eexists _, _. split; [reflexivity|]. split; [reflexivity|].
    split; [reflexivity|]. split; [done|]. solve_calls.
Qed.
Lemma start_split sd tb w :
  startAnticipate sd tb w = bind (startPrefix sd tb) (λ _, startMerge sd tb) w.
Proof.
  unfold startAnticipate, startPrefix, startMerge.
  cbv [bind Printf ret fail].
  repeat (case_match; simplify_eq; try reflexivity).
Qed.
Lemma resolve_HEAD w : resolve w "HEAD" = HEAD w.
Proof. unfold resolve. by rewrite decide_True. Qed.

Lemma Output_norepo c w :
  gitdir w = None → Output c w = (Err exitError, record (Git c) w).
Proof. intros H. unfold Output, git_exec. wsimpl. by rewrite H. Qed.

(** What a successful preamble of [start] tells about the world it ran in,
    and what it leaves. *)
Lemma startPrefix_ok sd tb w cb oh ts w1 :
  startPrefix sd tb w = (Ok (cb, oh, ts), w1) →
  ∃ gd h t,
    gitdir w = Some gd ∧ dirs w !! sd = None ∧ clean w
    ∧ HEAD w = Some h ∧ resolve w tb = Some t
    ∧ cb = TrimSpace (branch w) ∧ oh = TrimSpace h ∧ ts = TrimSpace t
    ∧ env w1 = env w ∧ repo w1 = repo w
    ∧ dirs w1 = <[sd := sessionRecord tb oh ts cb]> (dirs w)
    ∧ ∃ writes,
        log w1 = log w
                 ++ [OsStat sd; Git StatusPorcelain; Git RevParseAbbrevRefHEAD;
                     Git (RevParseVerify tb); Git (RevParse "HEAD"); Git (RevParse tb);
                     Git (MergeBase tb cb)]
                 ++ OsMkdirAll sd :: writes
        ∧ Forall isWrite writes.
Proof.
  unfold startPrefix. rewrite !bind_Printf.
  step_with isAnticipateInProgress_eq. wsimpl.
  destruct (dirs w !! sd) as [old|] eqn:Hd.
  { rewrite bool_decide_true by done. intros [=]. }
  rewrite bool_decide_false by (by intros [??]).
  destruct (gitdir w) as [gd|] eqn:Hgd.
  2:{ unfold bind at 1, hasUncommittedChanges. rewrite Output_norepo by done.
      unfold bind at 1, onError, getCurrentBranch. unfold bind at 1.
      rewrite Output_norepo by done. intros [=]. }
  step_with (hasUncommittedChanges_run gd). frame.
  case_bool_decide as Hclean; [intros [=]|].
  change (clean w) in Hclean.
  step_on (getCurrentBranch_run gd). frame.
  destruct (HEAD w) as [h|] eqn:Hh; [|intros [=]].
  rewrite bind_Printf.
  step_on (validateBranchExists_run gd). frame.
  destruct (resolve w tb) as [t|] eqn:Ht; [|intros [=]].
  step_on (getRevisionSHA_run gd). frame. rewrite resolve_HEAD, Hh.
  step_on (getRevisionSHA_run gd). frame. rewrite Ht.
  step_on (getMergeBase_run gd). frame. rewrite Ht.
  destruct (resolve w (TrimSpace (branch w))) as [c2|]; [|intros [=]].
  destruct (merge_base (env w) t c2) as [b|]; [|intros [=]].
  rewrite bind_Printf. unfold bind at 1, onError at 1.
  match goal with |- context [saveState ?a ?b ?c ?d ?e ?w0] =>
    destruct (saveState a b c d e w0) as [[[]|e0] w2] eqn:Hsave end; [|intros [=]].
  apply saveState_run in Hsave as (He & Hr & _ & _ & (lw & Hlw & Hwr) & Hok & _).
  specialize (Hok eq_refl). wsimpl. rewrite Hd in Hok. cbn [default] in Hok.
  rewrite (right_id_L ∅ (∪)) in Hok.
  unfold ret. intros [= <- <- <- <-].
  exists gd, h, t. split_and!; try done.
  exists lw. split; [|done]. rewrite Hlw. by rewrite <- !app_assoc.
Qed.
(** * Which calls a computation makes *)

Lemma logs_ret {A} P (a : A) : logs P (ret a).
Proof. intros w r w' [= <- <-]. exists []. by rewrite app_nil_r. Qed.

Lemma logs_fail {A} P e : logs P (@fail A e).
Proof. intros w r w' [= <- <-]. exists []. by rewrite app_nil_r. Qed.

Lemma logs_Printf P s : logs P (Printf s).
Proof. intros w r w' [= <- <-]. exists []. by rewrite app_nil_r. Qed.

Lemma logs_bind {A B} P (m : M A) (k : A → M B) :
  logs P m → (∀ a, logs P (k a)) → logs P (bind m k).
Proof.
  intros Hm Hk w r w' Hrun. unfold bind in Hrun.
  destruct (m w) as [[a|e] w1] eqn:E.
  - destruct (Hm _ _ _ E) as (l1 & E1 & H1).
    destruct (Hk a _ _ _ Hrun) as (l2 & E2 & H2).
    exists (l1 ++ l2). split; [by rewrite E2, E1, app_assoc|]. by apply Forall_app.
  - injection Hrun as <- <-. by apply (Hm _ _ _ E).
Qed.

Lemma logs_onError {A} P f (m : M A) : logs P m → logs P (onError f m).
Proof.
  intros Hm w r w' Hrun. unfold onError in Hrun.
  destruct (m w) as [[a|e] w1] eqn:E; injection Hrun as <- <-; by apply (Hm _ _ _ E).
Qed.

Lemma logs_ignoreError {A} P (m : M A) : logs P m → logs P (ignoreError m).
Proof.
  intros Hm w r w' Hrun. unfold ignoreError in Hrun.
  destruct (m w) as [r1 w1] eqn:E. injection Hrun as <- <-. by apply (Hm _ _ _ E).
Qed.

Lemma logs_orDefault {A} P (d : A) (m : M A) : logs P m → logs P (orDefault d m).
Proof.
  intros Hm w r w' Hrun. unfold orDefault in Hrun.
  destruct (m w) as [[a|e] w1] eqn:E; injection Hrun as <- <-; by apply (Hm _ _ _ E).
Qed.

Lemma logs_fails P (m : M unit) : logs P m → logs P (fails m).
Proof.
  intros Hm w r w' Hrun. unfold fails in Hrun.
  destruct (m w) as [[a|e] w1] eqn:E; injection Hrun as <- <-; by apply (Hm _ _ _ E).
Qed.

Lemma logs_forEach {A} P (l : list A) (body : A → M unit) :
  (∀ x, logs P (body x)) → logs P (forEach l body).
Proof.
  intros Hb. induction l as [|x l IH]; cbn [forEach].
  - apply logs_ret.
  - apply logs_bind; [apply Hb | by intros _].
Qed.

Lemma logs_rangeMap {V} P (m : gmap string V) (body : string → V → M unit) :
  (∀ k v, logs P (body k v)) → logs P (rangeMap m body).
Proof.
  intros Hb w r w' Hrun. unfold rangeMap in Hrun.
  refine (logs_forEach P _ _ _ _ _ _ Hrun).
  intros k. destruct (m !! k); [apply Hb | apply logs_ret].
Qed.

Lemma git_exec_log c w : log (snd (git_exec c w)) = log w.
Proof.
  unfold git_exec. destruct (gitdir w); [|done].
  destruct c; try done; cbn [snd].
  - by destruct (resolve w rev).
  - by destruct (HEAD w).
  - by destruct (resolve w rev).
  - destruct (resolve w b1); [|done]. destruct (resolve w b2); [|done].
    by destruct (merge_base _ _ _).
  - unfold git_merge. destruct (HEAD w); [|done]. destruct (resolve w b); [|done].
    case_bool_decide; [|done]. destruct (merge_plan _ _ _) as [| |ps]; try done.
    cbn [snd]. wsimpl. generalize w. induction ps as [|[p pm] ps IH]; intros w0; [done|].
    cbn [foldl]. rewrite IH. by destruct pm as [[?|]|[?|]].
  - by destruct (merge_head w).
  - destruct (resolve w rev); [|done]. by destruct (objects w !! _).
  - destruct (worktree w !! f); [done|]. by case_decide.
  - by destruct (_ || _).
Qed.

Lemma logs_Run (P : Call → Prop) c : P (Git c) → logs P (Run c).
Proof.
  intros HP w r w' Hrun. unfold Run in Hrun.
  pose proof (git_exec_log c (record (Git c) w)) as Hlog.
  destruct (git_exec c (record (Git c) w)) as [[[] out] w1];
    injection Hrun as <- <-; exists [Git c]; split; try done; by repeat constructor.
Qed.

Lemma logs_Output (P : Call → Prop) c : P (Git c) → logs P (Output c).
Proof.
  intros HP w r w' Hrun. unfold Output in Hrun.
  pose proof (git_exec_log c (record (Git c) w)) as Hlog.
  destruct (git_exec c (record (Git c) w)) as [[[] out] w1];
    injection Hrun as <- <-; exists [Git c]; split; try done; by repeat constructor.
Qed.

Lemma logs_CombinedOutput (P : Call → Prop) c : P (Git c) → logs P (CombinedOutput c).
Proof.
  intros HP w r w' Hrun. unfold CombinedOutput in Hrun.
  pose proof (git_exec_log c (record (Git c) w)) as Hlog.
  destruct (git_exec c (record (Git c) w)) as [[[] out] w1];
    injection Hrun as <- <-; exists [Git c]; split; try done; by repeat constructor.
Qed.

Lemma logs_os_Stat (P : Call → Prop) d : P (OsStat d) → logs P (os_Stat d).
Proof.
  intros HP w r w' Hrun. unfold os_Stat in Hrun.
  destruct (dirs w !! d); injection Hrun as <- <-; exists [OsStat d];
    split; try done; by repeat constructor.
Qed.

Lemma logs_os_MkdirAll (P : Call → Prop) d : P (OsMkdirAll d) → logs P (os_MkdirAll d).
Proof.
  intros HP w r w' Hrun. unfold os_MkdirAll in Hrun.
  destruct (mkdir_fails _ _); injection Hrun as <- <-; exists [OsMkdirAll d];
    split; try done; by repeat constructor.
Qed.

Lemma logs_os_MkdirAll_tree (P : Call → Prop) d : P (OsMkdirAll d) → logs P (os_MkdirAll_tree d).
Proof.
  intros HP w r w' [= <- <-]. exists [OsMkdirAll d]. split; [done|]. by repeat constructor.
Qed.

Lemma logs_os_RemoveAll (P : Call → Prop) d : P (OsRemoveAll d) → logs P (os_RemoveAll d).
Proof.
  intros HP w r w' [= <- <-]. exists [OsRemoveAll d]. split; [done|]. by repeat constructor.
Qed.

Lemma logs_os_WriteFileIn (P : Call → Prop) d n data :
  P (OsWriteFile (filepath_Join d n) data) → logs P (os_WriteFileIn d n data).
Proof.
  intros HP w r w' Hrun. unfold os_WriteFileIn in Hrun.
  destruct (dirs w !! d); [destruct (write_fails _ _)|];
    injection Hrun as <- <-; eexists [_]; split; try done; by repeat constructor.
Qed.

Lemma logs_os_ReadFileIn (P : Call → Prop) d n :
  P (OsReadFile (filepath_Join d n)) → logs P (os_ReadFileIn d n).
Proof.
  intros HP w r w' Hrun. unfold os_ReadFileIn in Hrun.
  destruct (dirs w !! d ≫= _);
    injection Hrun as <- <-; eexists [_]; split; try done; by repeat constructor.
Qed.

Lemma logs_os_ReadFile (P : Call → Prop) f : P (OsReadFile f) → logs P (os_ReadFile f).
Proof.
  intros HP w r w' Hrun. unfold os_ReadFile in Hrun.
  destruct (worktree w !! f);
    injection Hrun as <- <-; eexists [_]; split; try done; by repeat constructor.
Qed.

Lemma logs_os_WriteFile (P : Call → Prop) f data :
  P (OsWriteFile f data) → logs P (os_WriteFile f data).
Proof.
  intros HP w r w' Hrun. unfold os_WriteFile in Hrun.
  destruct (write_fails _ _);
    injection Hrun as <- <-; eexists [_]; split; try done; by repeat constructor.
Qed.

Lemma logs_os_Remove (P : Call → Prop) f : P (OsRemove f) → logs P (os_Remove f).
Proof.
  intros HP w r w' Hrun. unfold os_Remove in Hrun.
  destruct (worktree w !! f);
    injection Hrun as <- <-; eexists [_]; split; try done; by repeat constructor.
Qed.

Lemma logs_if {A} P (b : bool) (m1 m2 : M A) : logs P m1 → logs P m2 → logs P (if b then m1 else m2).
Proof. by destruct b. Qed.

Lemma logs_isAnticipateInProgress (P : Call → Prop) d :
  P (OsStat d) → logs P (isAnticipateInProgress d).
Proof.
  intros HP w r w' Hrun. rewrite isAnticipateInProgress_eq in Hrun.
  injection Hrun as <- <-. exists [OsStat d]. split; [done|]. by repeat constructor.
Qed.

Lemma logs_hasUncommittedChanges (P : Call → Prop) :
  P (Git StatusPorcelain) → logs P hasUncommittedChanges.
Proof.
  intros HP w r w' Hrun. unfold hasUncommittedChanges in Hrun.
  destruct (Output StatusPorcelain w) as [[out|e] w1] eqn:E;
    injection Hrun as <- <-; by apply (logs_Output P _ HP _ _ _ E).
Qed.

Lemma logs_hasUnmergedFiles (P : Call → Prop) :
  P (Git LsFilesU) → logs P hasUnmergedFiles.
Proof.
  intros HP w r w' Hrun. rewrite hasUnmergedFiles_run in Hrun.
  injection Hrun as <- <-. exists [Git LsFilesU]. split; [done|]. by repeat constructor.
Qed.

Lemma logs_getConflictingFiles (P : Call → Prop) :
  P (Git DiffNameOnlyU) → logs P getConflictingFiles.
Proof.
  intros HP w r w' Hrun. rewrite getConflictingFiles_run in Hrun.
  injection Hrun as <- <-. exists [Git DiffNameOnlyU]. split; [done|]. by repeat constructor.
Qed.

(** Break a computation into its calls. *)
Ltac logs_tac :=
  repeat first
    [ apply logs_ret | apply logs_fail | apply logs_Printf
    | apply logs_bind; [|intros ?] | apply logs_onError | apply logs_ignoreError
    | apply logs_orDefault | apply logs_fails | apply logs_if
    | apply logs_forEach; intros ? | apply logs_rangeMap; intros ? ?
    | apply logs_Run | apply logs_Output | apply logs_CombinedOutput
    | apply logs_os_Stat | apply logs_os_MkdirAll | apply logs_os_MkdirAll_tree
    | apply logs_os_RemoveAll | apply logs_os_WriteFileIn | apply logs_os_ReadFileIn
    | apply logs_os_ReadFile | apply logs_os_WriteFile | apply logs_os_Remove
    | apply logs_isAnticipateInProgress | apply logs_hasUncommittedChanges
    | apply logs_hasUnmergedFiles | apply logs_getConflictingFiles ].

Lemma logs_startPrefix sd tb :
  logs (λ c, c ≠ Git (Merge tb)) (startPrefix sd tb).
Proof.
  unfold startPrefix, getCurrentBranch, validateBranchExists, getRevisionSHA,
    getMergeBase, saveState.
  logs_tac; try done.
Qed.
(** * Abort *)

Lemma abortMerge_run gd w :
  gitdir w = Some gd →
  abortMerge w = (Ok tt, mergeAborted (record (Git MergeAbort) w)).
Proof.
  intros H. unfold abortMerge, ignoreError, Run, git_exec, mergeAborted. wsimpl.
  rewrite H. by destruct (merge_head w).
Qed.

Lemma ResetHard_run gd w rev id cm :
  gitdir w = Some gd → resolve w rev = Some id → objects w !! id = Some cm →
  Run (ResetHard rev) w
  = (Ok tt, set_refs <[branch w := id]>
              (checkout_tree (c_tree cm) (record (Git (ResetHard rev)) w))).
Proof.
  intros H Hr Ho. unfold Run, git_exec. wsimpl. rewrite H.
  autorewrite with frame. by rewrite Hr, Ho.
Qed.

Lemma removeState_run sd w :
  removeState sd w = (Ok tt, set_dirs (delete sd) (record (OsRemoveAll sd) w)).
Proof. reflexivity. Qed.

Lemma mergeAborted_facts w :
  env (mergeAborted w) = env w ∧ gitdir (mergeAborted w) = gitdir w
  ∧ branch (mergeAborted w) = branch w ∧ refs (mergeAborted w) = refs w
  ∧ objects (mergeAborted w) = objects w ∧ dirs (mergeAborted w) = dirs w
  ∧ log (mergeAborted w) = log w ∧ stdout (mergeAborted w) = stdout w.
Proof. unfold mergeAborted. by destruct (merge_head w). Qed.

(** Files that survive a checkout are files git did not track. *)
Lemma checkout_exact (t wt : gmap string (list byte)) (tr : gset string) :
  dom wt ⊆ tr ∪ dom t →
  t ∪ filter (λ kv, kv.1 ∉ tr) wt = t.
Proof.
  intros Hsub. apply map_eq. intros p. rewrite lookup_union.
  destruct (t !! p) as [c|] eqn:Ht.
  - by destruct (filter _ _ !! p).
  - rewrite (left_id_L None _). apply map_lookup_filter_None. right.
    intros c Hc Hnt. cbn in Hnt.
    assert (p ∈ dom wt) as Hin by (apply elem_of_dom; eauto).
    apply Hsub in Hin. apply elem_of_union in Hin as [?|Hin]; [done|].
    apply elem_of_dom in Hin as [? Hin]. congruence.
Qed.

Lemma mergeAborted_stray (t : gmap string (list byte)) w :
  dom (worktree w) ⊆ tracked w ∪ dom t →
  dom (worktree (mergeAborted w)) ⊆ tracked (mergeAborted w) ∪ dom t.
Proof.
  intros Hsub. unfold mergeAborted. destruct (merge_head w); [|done].
  unfold checkout_tree, tracked. wsimpl. intros p.
  rewrite dom_union, !elem_of_union, !elem_of_dom.
  intros [Hp|[c Hc]]; [by left; left|].
  apply map_lookup_filter_Some in Hc as [Hc Hnt]. cbn in Hnt.
  assert (p ∈ dom (worktree w)) as Hin by (apply elem_of_dom; eauto).
  apply Hsub in Hin. apply elem_of_union in Hin as [?|Hin]; [done|].
  right. by apply elem_of_dom.
Qed.

(** What [abort] does to a session whose recorded tip names a commit. *)
Lemma abort_run gd sd w tip id cm :
  gitdir w = Some gd →
  field w sd "orig_head" = Some tip →
  resolve w tip = Some id →
  objects w !! id = Some cm →
  ∃ w', abortAnticipate sd w = (Ok tt, w')
    ∧ calls w w' = [OsStat sd; Git MergeAbort; OsReadFile (filepath_Join sd "orig_head");
                    Git (ResetHard tip); OsRemoveAll sd]
    ∧ env w' = env w ∧ gitdir w' = gitdir w ∧ branch w' = branch w
    ∧ objects w' = objects w
    ∧ HEAD w' = Some id
    ∧ index w' = c_tree cm
    ∧ conflicted w' = ∅
    ∧ merge_head w' = None
    ∧ dirs w' = delete sd (dirs w)
    ∧ (dom (worktree w) ⊆ tracked w ∪ dom (c_tree cm) → worktree w' = c_tree cm).
Proof.
  intros Hgd Hf Hr Ho.
  assert (is_Some (dirs w !! sd)) as Hd.
  { unfold field in Hf. destruct (dirs w !! sd); [by eexists|]. by cbn [mbind option_bind fmap option_fmap option_map] in Hf. }
  unfold abortAnticipate. step_with isAnticipateInProgress_eq.
  rewrite bool_decide_true by done. cbn [negb]. rewrite bind_Printf.
  step_with (abortMerge_run gd).
  match goal with |- context [mergeAborted ?w0] =>
    destruct (mergeAborted_facts w0) as (Ee & Eg & Eb & Er & Eo & Ed & El & Es);
    pose proof (mergeAborted_stray (c_tree cm) w0) as Hstray;
    autorewrite with frame in Hstray;
    set (wa := mergeAborted w0) in * end.
  wsimpl.
  unfold bind at 1, onError at 1. rewrite readStateFile_eq.
  replace (field wa sd "orig_head") with (Some tip)
    by (unfold field; by rewrite Ed).
  cbv beta iota. rewrite bind_Printf.
  unfold bind at 1, onError at 1.
  rewrite (ResetHard_run gd _ tip id cm);
    [| wsimpl; by rewrite Eg
     | rewrite <- Hr; unfold resolve, HEAD; wsimpl; by rewrite Eb, Er, Eo
     | wsimpl; by rewrite Eo].
  cbv beta iota. unfold bind at 1. rewrite removeState_run. cbv beta iota.
  rewrite bind_Printf. unfold ret.
  eexists. split; [reflexivity|].
  split. { apply calls_app. projs. rewrite El. by rewrite <- !app_assoc. }
  unfold HEAD. projs. rewrite Eb, Ed.
  split; [exact Ee|]. split; [exact Eg|]. split; [reflexivity|]. split; [exact Eo|].
  split; [by rewrite lookup_insert_eq|].
  split; [reflexivity|]. split; [reflexivity|]. split; [reflexivity|].
  split; [reflexivity|].
  intros Hsub. autorewrite with frame. apply checkout_exact, Hstray, Hsub.
Qed.
(** * The trial merge *)

Lemma apply_path_frame w pm :
  env (apply_path w pm) = env w ∧ gitdir (apply_path w pm) = gitdir w
  ∧ branch (apply_path w pm) = branch w ∧ refs (apply_path w pm) = refs w
  ∧ objects (apply_path w pm) = objects w ∧ merge_head (apply_path w pm) = merge_head w
  ∧ dirs (apply_path w pm) = dirs w ∧ stdout (apply_path w pm) = stdout w
  ∧ stderr (apply_path w pm) = stderr w ∧ log (apply_path w pm) = log w.
Proof. by destruct pm as [p [[c|]|[c|]]]. Qed.

Lemma apply_path_agree w pm : agree w → agree (apply_path w pm).
Proof.
  intros Hag q. destruct pm as [p [[c|]|[c|]]]; unfold apply_path; projs;
    intros Hq; destruct (decide (q = p)) as [->|Hne];
    rewrite ?lookup_insert_eq, ?lookup_delete_eq, ?lookup_insert_ne, ?lookup_delete_ne by done;
    try done; try (apply Hag; set_solver); set_solver.
Qed.

Lemma foldl_apply_path_frame ps w :
  env (foldl apply_path w ps) = env w ∧ gitdir (foldl apply_path w ps) = gitdir w
  ∧ branch (foldl apply_path w ps) = branch w ∧ refs (foldl apply_path w ps) = refs w
  ∧ objects (foldl apply_path w ps) = objects w
  ∧ dirs (foldl apply_path w ps) = dirs w ∧ stdout (foldl apply_path w ps) = stdout w
  ∧ stderr (foldl apply_path w ps) = stderr w ∧ log (foldl apply_path w ps) = log w
  ∧ (agree w → agree (foldl apply_path w ps)).
Proof.
  revert w. induction ps as [|pm ps IH]; intros w; [done|].
  cbn [foldl]. destruct (IH (apply_path w pm)) as (?&?&?&?&?&?&?&?&?&Hag).
  destruct (apply_path_frame w pm) as (?&?&?&?&?&?&?&?&?&?).
  split_and!; try congruence. intros Hw. by apply Hag, apply_path_agree.
Qed.

(** What [git merge] leaves untouched, and the two properties it keeps. *)
Lemma git_merge_facts b w ok out wm :
  git_merge b w = ((ok, out), wm) →
  env wm = env w ∧ gitdir wm = gitdir w ∧ branch wm = branch w ∧ refs wm = refs w
  ∧ objects wm = objects w ∧ dirs wm = dirs w ∧ stdout wm = stdout w
  ∧ stderr wm = stderr w ∧ log wm = log w
  ∧ (agree w → agree wm)
  ∧ (ok = true → conflicted w = ∅ → conflicted wm = ∅)
  ∧ (ok = false → wm = w ∨ conflicted wm ≠ ∅).
Proof.
  unfold git_merge. intros Hm.
  destruct (HEAD w) as [h|]; [|by injection Hm as <- <- <-; split_and!; auto].
  destruct (resolve w b) as [t|]; [|by injection Hm as <- <- <-; split_and!; auto].
  case_bool_decide as Hpre; [|by injection Hm as <- <- <-; split_and!; auto].
  destruct (merge_plan (env w) h t) as [o| |ps].
  - injection Hm as <- <- <-. split_and!; auto.
  - injection Hm as <- <- <-. split_and!; auto.
  - injection Hm as <- <- <-.
    destruct (foldl_apply_path_frame ps w) as (?&?&?&?&?&?&?&?&?&Hag).
    projs. split_and!; try done.
    + intros Hok _. by apply bool_decide_eq_true in Hok.
    + intros Hok. right. by apply bool_decide_eq_false in Hok.
Qed.

Lemma clean_agree w : clean w → agree w.
Proof. intros (_ & _ & Hw) p _. by rewrite Hw. Qed.

Lemma agree_no_stray w : agree w → dom (worktree w) ⊆ tracked w.
Proof.
  intros Hag p Hp. unfold tracked. destruct (decide (p ∈ conflicted w)); [set_solver|].
  apply elem_of_union_l. apply elem_of_dom. rewrite <- Hag by done. by apply elem_of_dom.
Qed.

Lemma agree_resolved w : agree w → conflicted w = ∅ → worktree w = index w.
Proof. intros Hag Hc. apply map_eq. intros p. apply Hag. rewrite Hc. set_solver. Qed.

(** After a merge without unmerged paths, from a clean tree, the two
    tests for pending changes agree. *)
Lemma changesNow_clean w :
  agree w → conflicted w = ∅ → changesNow w = bool_decide (¬ clean w).
Proof.
  intros Hag Hc. pose proof (agree_resolved w Hag Hc) as Hw.
  unfold changesNow, clean.
  assert (filter (λ kv, kv.1 ∈ dom (index w)) (worktree w) = index w) as Hf.
  { rewrite Hw. apply map_filter_id. intros p c Hp. cbn. apply elem_of_dom. eauto. }
  rewrite (bool_decide_true (_ ∧ filter _ _ = _)) by done.
  cbn [negb]. rewrite orb_false_r.
  destruct (decide (index w = head_tree w)) as [Hi|Hi].
  - rewrite bool_decide_true by done. rewrite bool_decide_false; [done|]. by intros H; apply H.
  - rewrite bool_decide_false by (by intros [??]). rewrite bool_decide_true; [done|].
    by intros (?&?&?).
Qed.

Lemma hasStagedOrUnstagedChanges_run gd w :
  gitdir w = Some gd →
  hasStagedOrUnstagedChanges w
  = (Ok (changesNow w),
     if bool_decide (conflicted w = ∅ ∧ index w = head_tree w)
     then record (Git DiffQuiet) (record (Git DiffCachedQuiet) w)
     else record (Git DiffCachedQuiet) w).
Proof.
  intros Hgd. unfold hasStagedOrUnstagedChanges, changesNow.
  unfold bind at 1, fails at 1, Run at 1, git_exec. wsimpl. rewrite Hgd.
  autorewrite with frame. case_bool_decide as H1; cbn [negb orb]; [|done].
  unfold bind at 1, fails at 1, Run at 1, git_exec. wsimpl. rewrite Hgd.
  by case_bool_decide.
Qed.
Lemma performMerge_run gd tb w ok out wm :
  gitdir w = Some gd →
  git_merge tb (record (Git (Merge tb)) w) = ((ok, out), wm) →
  performMerge tb w
  = (Ok (if ok then (MergeClean, None)
         else if bool_decide (conflicted wm ≠ ∅) then (MergeConflict, None)
         else (MergeError, Some (Errorf ("merge failed: " +:+ TrimSpace out)))),
     if ok then wm else record (Git LsFilesU) wm).
Proof.
  intros Hgd Hm. pose proof Hm as Hf. apply git_merge_facts in Hf as (_&Hg&_).
  unfold performMerge. unfold bind at 1, CombinedOutput, git_exec.
  rewrite gitdir_record, Hgd, Hm. destruct ok; [done|].
  cbv beta iota. step_with hasUnmergedFiles_run.
  unfold unmergedNow. rewrite Hg, gitdir_record, Hgd.
  by case_bool_decide.
Qed.

Lemma print_block (b : bool) (a : string) (l : list string) (f : string → string) w :
  (if b then Printf a >> forEach l (λ x, Printf (f x)) >> Printf LF else ret tt) w
  = (Ok tt, set_stdout (λ o, o ++ (if b then a :: (f <$> l) ++ [LF] else [])) w).
Proof.
  destruct b.
  - rewrite bind_Printf, bind_forEach_Printf. unfold Printf.
    destruct w as [e g b0 r o i c m wt d so se lg]. unfold set_stdout. cbn [stdout env gitdir branch refs objects index
      conflicted merge_head worktree dirs stderr log].
    by rewrite <- !app_assoc.
  - unfold ret. destruct w as [e g b0 r o i c m wt d so se lg]. unfold set_stdout. cbn [stdout env gitdir branch refs objects index
      conflicted merge_head worktree dirs stderr log].
    by rewrite app_nil_r.
Qed.

(** The second half of [start], case by case. *)
Lemma startMerge_run gd sd tb w r w' :
  gitdir w = Some gd →
  startMerge sd tb w = (r, w') →
  ∃ m wm ok out wg,
    performMerge tb (set_stdout (λ o, o ++ ["✔ Attempting merge with " +:+ tb +:+ "..." +:+ LF]) w)
      = (Ok m, wm)
    ∧ git_merge tb (record (Git (Merge tb))
         (set_stdout (λ o, o ++ ["✔ Attempting merge with " +:+ tb +:+ "..." +:+ LF]) w))
      = ((ok, out), wg)
    ∧ repo w' = repo wg ∧ env w' = env w
    ∧ (∃ l, log w' = log w ++ Git (Merge tb) :: l)
    ∧ match m with
      | (MergeConflict, _) =>
          ok = false ∧ conflicted wg ≠ ∅
          ∧ r = Err errConflicts ∧ dirs w' = dirs w
      | (MergeError, mergeErr) =>
          ok = false ∧ conflicted wg = ∅
          ∧ mergeErr = Some (Errorf ("merge failed: " +:+ TrimSpace out))
          ∧ r = Err (Errorf ("merge failed: " +:+ TrimSpace out))
          ∧ dirs w' = delete sd (dirs w)
      | (MergeClean, _) =>
          ok = true ∧ r = Ok tt
          ∧ if changesNow wg
            then dirs w' = dirs w
                 ∧ ("✔ No conflicts detected!" +:+ LF) ∈ printed w w'
            else dirs w' = delete sd (dirs w)
                 ∧ ("✨ No conflicts and no changes - branches are already compatible!" +:+ LF)
                   ∈ printed w w'
      end.
Proof.
  intros Hgd. unfold startMerge. rewrite bind_Printf.
  match goal with |- context [performMerge tb ?w0] =>
    destruct (git_merge tb (record (Git (Merge tb)) w0)) as [[ok out] wg] eqn:Hm;
    pose proof (performMerge_run gd tb w0 ok out wg Hgd Hm) as Hpm end.
  pose proof Hm as Hf.
  apply git_merge_facts in Hf as (He&Hg&Hb&Hr&Ho&Hd&Hso&Hse&Hl&_&_&_).
  projs in He; projs in Hg; projs in Hb; projs in Hr; projs in Ho; projs in Hd; projs in Hso; projs in Hse; projs in Hl. rewrite Hgd in Hg.
  unfold bind at 1. rewrite Hpm. cbv beta iota.
  destruct ok.
  - step_with (hasStagedOrUnstagedChanges_run gd).
    match goal with |- context [if ?b then record ?c (record ?c' wg) else _] =>
      assert (∃ l, (if b then record c (record c' wg) else record c' wg)
                   = foldl (λ x y, record y x) wg l) as [lq ->]
        by (destruct b; [by exists [c'; c] | by exists [c']]) end.
    assert (∀ l x, repo (foldl (λ x y, record y x) x l) = repo x
                   ∧ env (foldl (λ x y, record y x) x l) = env x
                   ∧ dirs (foldl (λ x y, record y x) x l) = dirs x
                   ∧ stdout (foldl (λ x y, record y x) x l) = stdout x
                   ∧ log (foldl (λ x y, record y x) x l) = log x ++ l) as Hq.
    { induction l as [|c l IH]; intros x; cbn [foldl].
      - by rewrite app_nil_r.
      - destruct (IH (record c x)) as (->&->&->&->&->).
        projs. by rewrite <- app_assoc. }
    destruct (Hq lq wg) as (Hq1&Hq2&Hq3&Hq4&Hq5).
    intros Hrun. eexists _, _, true, out, wg. split; [reflexivity|]. split; [reflexivity|].
    destruct (changesNow wg) eqn:Hch; cbn [negb] in Hrun.
    + rewrite !bind_Printf in Hrun. injection Hrun as <- <-.
      split; [exact Hq1|]. projs.
      split; [by rewrite Hq2|].
      split; [eexists; projs;
              rewrite Hq5, Hl, <- ?app_assoc; reflexivity|].
      split; [reflexivity|]. split; [reflexivity|]. split; [by rewrite Hq3|].
      unfold printed. projs.
      rewrite Hq4, Hso, <- ?app_assoc, drop_app_length.
      apply list_elem_of_further, list_elem_of_here.
    + rewrite bind_Printf in Hrun. unfold bind at 1 in Hrun.
      rewrite removeState_run in Hrun. injection Hrun as <- <-.
      split; [exact Hq1|]. projs.
      split; [by rewrite Hq2|].
      split; [eexists; projs;
              rewrite Hq5, Hl, <- ?app_assoc; reflexivity|].
      split; [reflexivity|]. split; [reflexivity|]. split; [by rewrite Hq3, Hd|].
      unfold printed. projs.
      rewrite Hq4, Hso, <- ?app_assoc, drop_app_length.
      apply list_elem_of_further, list_elem_of_here.
  - case_bool_decide as Hc.
    + step_with getConflictingFiles_run. rewrite bind_Printf.
      unfold bind at 1.
      rewrite print_block. cbv beta iota. rewrite !bind_Printf. unfold fail.
      intros [= <- <-]. eexists _, _, false, out, wg.
      split; [reflexivity|]. split; [reflexivity|].
      projs. split; [reflexivity|]. split; [exact He|].
      split; [eexists; projs;
              rewrite Hl, <- ?app_assoc; reflexivity|].
      split; [reflexivity|]. split; [exact Hc|]. split; [reflexivity|]. exact Hd.
    + unfold bind at 1. rewrite removeState_run. unfold fail.
      intros [= <- <-]. eexists _, _, false, out, wg.
      split; [reflexivity|]. split; [reflexivity|].
      projs. split; [reflexivity|]. split; [exact He|].
      split; [eexists; projs;
              rewrite Hl, <- ?app_assoc; reflexivity|].
      split; [reflexivity|]. split; [exact Hc|].
      split; [reflexivity|]. split; [reflexivity|].
      by rewrite Hd.
Qed.
Lemma clean_repo w w' : repo w = repo w' → clean w → clean w'.
Proof.
  unfold repo, clean, head_tree, HEAD, tree_at.
  intros [= Hg Hb Hr Ho Hi Hc Hm Hw]. by rewrite Hb, Hr, Ho, Hi, Hc, Hw.
Qed.

Lemma start_reaches_merge sd tb w r w' :
  startAnticipate sd tb w = (r, w') →
  Git (Merge tb) ∈ calls w w' →
  ∃ cb oh ts w1 l1,
    startPrefix sd tb w = (Ok (cb, oh, ts), w1)
    ∧ startMerge sd tb w1 = (r, w')
    ∧ log w1 = log w ++ l1
    ∧ Git (Merge tb) ∉ l1.
Proof.
  rewrite start_split. unfold bind. intros Hrun Hin.
  destruct (startPrefix sd tb w) as [[[[cb oh] ts]|e] w1] eqn:Hp.
  - destruct (logs_startPrefix sd tb _ _ _ Hp) as (l1 & Hl1 & Hno).
    exists cb, oh, ts, w1, l1. split_and!; [done|done|done|].
    intros Hm. rewrite Forall_forall in Hno. by apply (Hno _ Hm).
  - injection Hrun as <- <-.
    destruct (logs_startPrefix sd tb _ _ _ Hp) as (l1 & Hl1 & Hno).
    rewrite (calls_app _ _ _ Hl1) in Hin.
    rewrite Forall_forall in Hno. by destruct (Hno _ Hin).
Qed.

(** * Starting a session: what the merge leads to *)

(** * Continue, in three parts *)

Lemma continue_split sd nv w :
  continueAnticipate sd nv w
  = bind (continueCapture sd)
      (λ o, match o with
            | None => ret tt
            | Some s => continueStage s >> continueCommit sd nv s
            end) w.
Proof.
  unfold continueAnticipate, continueCapture, continueStage, continueReplay,
    continueCommit, commitMessage.
  cbv [bind Printf ret fail s_targetBranch s_targetSHA s_currentBranch s_origHead
       s_changedFiles s_deletedFiles s_fileContents].
  repeat (case_match; simplify_eq; try reflexivity).
Qed.
Lemma readResolved_run del ch fc0 w r w' :
  readResolved del ch fc0 w = (r, w') →
  unchanged w w' ∧ stdout w' = stdout w
  ∧ (∀ fc, r = Ok fc →
       log w' = log w ++ (OsReadFile <$> filter (λ p, isDeleted del p = false) ch)
       ∧ (∀ p, fc !! p = if decide (p ∈ ch ∧ isDeleted del p = false)
                         then worktree w !! p else fc0 !! p)
       ∧ (∀ p, p ∈ ch → isDeleted del p = false → is_Some (worktree w !! p))).
Proof.
  revert fc0 w. induction ch as [|file ch IH]; intros fc0 w Hrun.
  - cbn in Hrun. injection Hrun as <- <-. split; [done|]. split; [done|].
    intros fc [= <-]. split; [by rewrite app_nil_r|]. split.
    + intros p. rewrite decide_False; [done|]. intros [H _]. by apply elem_of_nil in H.
    + intros p H. by apply elem_of_nil in H.
  - cbn [readResolved] in Hrun. fold (isDeleted del file) in Hrun.
    destruct (isDeleted del file) eqn:Hdel.
    + destruct (IH _ _ Hrun) as (Hun & Hso & Hok). split; [done|]. split; [done|].
      intros fc Hr. destruct (Hok fc Hr) as (Hl & Hfc & Hsome).
      split; [|split].
      * rewrite Hl. rewrite filter_cons_False; [done|]. by rewrite Hdel.
      * intros p. rewrite Hfc. destruct (decide (p = file)) as [->|Hne].
        -- rewrite (decide_False (P := _ ∧ _)) by (rewrite Hdel; by intros [??]).
           rewrite (decide_False (P := _ ∧ _)) by (rewrite Hdel; by intros [??]). done.
        -- apply decide_ext. set_solver.
      * intros p [->|Hp]%elem_of_cons Hd; [congruence|]. by apply Hsome.
    + unfold bind at 1, onError, os_ReadFile in Hrun.
      destruct (worktree w !! file) as [content|] eqn:Hfile; [|by injection Hrun as <- <-].
      destruct (IH _ _ Hrun) as (Hun & Hso & Hok).
      split; [exact Hun|]. split; [exact Hso|].
      intros fc Hr. destruct (Hok fc Hr) as (Hl & Hfc & Hsome).
      projs in Hl. projs in Hfc. projs in Hsome.
      split; [|split].
      * rewrite Hl. rewrite filter_cons_True by done. by rewrite <- app_assoc.
      * intros p. rewrite Hfc. destruct (decide (p = file)) as [->|Hne].
        -- rewrite (decide_True (P := file ∈ file :: ch ∧ _)) by (split; [left|done]).
           case_decide; [done|]. by rewrite lookup_insert_eq.
        -- rewrite lookup_insert_ne by done. apply decide_ext. set_solver.
      * intros p [->|Hp]%elem_of_cons Hd; [by rewrite Hfile|]. by apply Hsome.
Qed.
Lemma onlyFiles_refl w : onlyFiles w w.
Proof. by repeat split. Qed.

Lemma onlyFiles_trans w1 w2 w3 : onlyFiles w1 w2 → onlyFiles w2 w3 → onlyFiles w1 w3.
Proof.
  intros (?&?&?&?&?&?&?&?&?) (?&?&?&?&?&?&?&?&?). repeat split; congruence.
Qed.

Lemma onlyIndex_refl w : onlyIndex w w.
Proof. by repeat split. Qed.

Lemma onlyIndex_trans w1 w2 w3 : onlyIndex w1 w2 → onlyIndex w2 w3 → onlyIndex w1 w3.
Proof.
  intros (?&?&?&?&?&?&?&?) (?&?&?&?&?&?&?&?). repeat split; congruence.
Qed.

(** The loop that writes the captured contents back, over any list of names. *)
Lemma writeBack_loop (fc : gmap string (list byte)) ks w r w' :
  forEach ks (λ k, match fc !! k with
                   | Some content =>
                       (if decide (filepath_Dir k ≠ ".")
                        then ignoreError (os_MkdirAll_tree (filepath_Dir k)) else ret tt) >>
                       onError (wrap ("failed to write resolved file " +:+ k +:+ ": "))
                         (os_WriteFile k content)
                   | None => ret tt
                   end) w = (r, w') →
  onlyFiles w w'
  ∧ (r = Ok tt → ∀ p, worktree w' !! p =
       if decide (p ∈ ks) then
         match fc !! p with Some c => Some c | None => worktree w !! p end
       else worktree w !! p).
Proof.
  revert w. induction ks as [|k ks IH]; intros w Hrun.
  - cbn in Hrun. injection Hrun as <- <-. split; [apply onlyFiles_refl|].
    intros _ p. rewrite decide_False; [done|]. apply not_elem_of_nil.
  - cbn [forEach] in Hrun. unfold bind at 1 in Hrun.
    destruct (fc !! k) as [content|] eqn:Hk.
    + assert (∃ w0, ((if decide (filepath_Dir k ≠ ".")
                      then ignoreError (os_MkdirAll_tree (filepath_Dir k)) else ret tt) w
                     = (Ok tt, w0)) ∧ onlyFiles w w0 ∧ worktree w0 = worktree w
                    ∧ env w0 = env w) as (w0 & Hpre & Hof0 & Hwt0 & He0).
      { case_decide; eexists; (split; [reflexivity|]); by repeat split. }
      unfold bind at 1 in Hrun. rewrite Hpre in Hrun. cbv beta iota in Hrun.
      unfold onError, os_WriteFile in Hrun.
      destruct (write_fails (env w0) k).
      { injection Hrun as <- <-. split; [|done].
        eapply onlyFiles_trans; [exact Hof0|]. by repeat split. }
      destruct (IH _ Hrun) as (Hof & Hwt).
      split. { eapply onlyFiles_trans; [exact Hof0|].
               eapply onlyFiles_trans; [|exact Hof]. by repeat split. }
      intros Hok p. rewrite (Hwt Hok p).
      rewrite !worktree_set_worktree, !worktree_record, Hwt0.
      destruct (decide (p = k)) as [->|Hne].
      * rewrite (decide_True (P := k ∈ k :: ks)) by left. rewrite Hk, lookup_insert_eq.
        by destruct (decide (k ∈ ks)).
      * rewrite lookup_insert_ne by done.
        destruct (decide (p ∈ ks)).
        -- by rewrite decide_True by (by right).
        -- rewrite decide_False; [done|]. by intros [?|?]%elem_of_cons.
    + unfold ret at 1 in Hrun. cbv beta iota in Hrun.
      destruct (IH _ Hrun) as (Hof & Hwt). split; [done|].
      intros Hok p. rewrite (Hwt Hok p).
      destruct (decide (p = k)) as [->|Hne].
      * rewrite (decide_True (P := k ∈ k :: ks)) by left. rewrite Hk.
        by destruct (decide (k ∈ ks)).
      * destruct (decide (p ∈ ks)).
        -- by rewrite decide_True by (by right).
        -- rewrite decide_False; [done|]. by intros [?|?]%elem_of_cons.
Qed.

Lemma writeBack_run (fc : gmap string (list byte)) w r w' :
  rangeMap fc (λ file content,
    (if decide (filepath_Dir file ≠ ".")
     then ignoreError (os_MkdirAll_tree (filepath_Dir file)) else ret tt) >>
    onError (wrap ("failed to write resolved file " +:+ file +:+ ": "))
      (os_WriteFile file content)) w = (r, w') →
  onlyFiles w w'
  ∧ (r = Ok tt → ∀ p, worktree w' !! p =
       match fc !! p with Some c => Some c | None => worktree w !! p end).
Proof.
  unfold rangeMap. intros Hrun. apply writeBack_loop in Hrun as (Hof & Hwt).
  split; [done|]. intros Hok p. rewrite (Hwt Hok p).
  case_decide as Hin; [done|].
  rewrite elem_of_rangeOrder, elem_of_elements, not_elem_of_dom in Hin. by rewrite Hin.
Qed.

(** The loop that removes the deleted files, over any list of names. *)
Lemma removeDeleted_loop (del : gmap string bool) ks w :
  ∃ w', forEach ks (λ k, match del !! k with
                         | Some _ => ignoreError (os_Remove k)
                         | None => ret tt
                         end) w = (Ok tt, w')
    ∧ onlyFiles w w'
    ∧ ∀ p, worktree w' !! p =
        if decide (p ∈ ks ∧ is_Some (del !! p)) then None else worktree w !! p.
Proof.
  revert w. induction ks as [|k ks IH]; intros w.
  - exists w. split; [done|]. split; [apply onlyFiles_refl|].
    intros p. rewrite decide_False; [done|]. intros [H _]. by apply elem_of_nil in H.
  - cbn [forEach]. unfold bind at 1.
    destruct (del !! k) as [b|] eqn:Hk.
    + unfold ignoreError, os_Remove. cbn [snd].
      match goal with |- context [forEach ks _ ?w0] =>
        destruct (IH w0) as (w' & Hrun & Hof & Hwt);
        assert (onlyFiles w w0 ∧ worktree w0 = delete k (worktree w)) as [Hof0 Hwt0] end.
      { destruct (worktree w !! k) eqn:Hw; cbn [snd]; (split; [by repeat split|]); projs;
          [done|]. by rewrite delete_id. }
      exists w'. split; [exact Hrun|]. split; [by eapply onlyFiles_trans|].
      intros p. rewrite Hwt, Hwt0. destruct (decide (p = k)) as [->|Hne].
      * rewrite (decide_True (P := k ∈ k :: ks ∧ _)) by (split; [left|by rewrite Hk]).
        rewrite lookup_delete_eq. by case_decide.
      * rewrite lookup_delete_ne by done. apply decide_ext. set_solver.
    + unfold ret at 1. cbv beta iota.
      destruct (IH w) as (w' & Hrun & Hof & Hwt).
      exists w'. split; [exact Hrun|]. split; [done|].
      intros p. rewrite Hwt. destruct (decide (p = k)) as [->|Hne].
      * rewrite (decide_False (P := k ∈ ks ∧ _)) by (rewrite Hk; by intros [_ [??]]).
        rewrite (decide_False (P := k ∈ k :: ks ∧ _)) by (rewrite Hk; by intros [_ [??]]).
        done.
      * apply decide_ext. set_solver.
Qed.

Lemma removeDeleted_run (del : gmap string bool) w :
  ∃ w', rangeMap del (λ file _, ignoreError (os_Remove file)) w = (Ok tt, w')
    ∧ onlyFiles w w'
    ∧ ∀ p, worktree w' !! p = if decide (is_Some (del !! p)) then None else worktree w !! p.
Proof.
  unfold rangeMap.
  destruct (removeDeleted_loop del (rangeOrder (env w) (elements (dom del))) w)
    as (w' & Hrun & Hof & Hwt).
  exists w'. split; [exact Hrun|]. split; [done|].
  intros p. rewrite Hwt. apply decide_ext.
  rewrite elem_of_rangeOrder, elem_of_elements, elem_of_dom. tauto.
Qed.
Lemma Run_RmCached gd f w :
  gitdir w = Some gd →
  Run (RmCached f) w
  = (Ok tt, set_conflicted (λ u, u ∖ {[f]}) (set_index (delete f) (record (Git (RmCached f)) w))).
Proof. intros H. unfold Run, git_exec. wsimpl. by rewrite H. Qed.

Lemma Run_Add gd f w r w' :
  gitdir w = Some gd →
  Run (Add f) w = (r, w') →
  onlyIndex w w'
  ∧ (conflicted w = ∅ → conflicted w' = ∅)
  ∧ (r = Ok tt → index w' = match worktree w !! f with
                             | Some c => <[f := c]> (index w)
                             | None => delete f (index w)
                             end)
  ∧ (r ≠ Ok tt → index w' = index w).
Proof.
  intros H. unfold Run, git_exec. rewrite gitdir_record, H, worktree_record.
  destruct (worktree w !! f) as [c|] eqn:Hf.
  - intros [= <- <-]. projs. split; [by repeat split|]. split; [set_solver|]. done.
  - case_decide.
    + intros [= <- <-]. projs. split; [by repeat split|]. split; [set_solver|]. done.
    + intros [= <- <-]. projs. split; [by repeat split|]. done.
Qed.

(** The staging loop. *)
Lemma stage_loop gd (del : gmap string bool) ch w r w' :
  gitdir w = Some gd →
  forEach ch (λ file,
    if default false (del !! file) then ignoreError (Run (RmCached file))
    else onError (wrap ("failed to stage file " +:+ file +:+ ": ")) (Run (Add file))) w
  = (r, w') →
  onlyIndex w w'
  ∧ (conflicted w = ∅ → conflicted w' = ∅)
  ∧ (r = Ok tt → ∀ p, index w' !! p =
       if decide (p ∈ ch) then
         (if isDeleted del p then None else worktree w !! p)
       else index w !! p).
Proof.
  revert w. induction ch as [|file ch IH]; intros w Hgd Hrun.
  - cbn in Hrun. injection Hrun as <- <-. split; [apply onlyIndex_refl|]. split; [done|].
    intros _ p. rewrite decide_False; [done|]. apply not_elem_of_nil.
  - cbn [forEach] in Hrun. unfold bind at 1 in Hrun.
    fold (isDeleted del file) in Hrun.
    destruct (isDeleted del file) eqn:Hdel.
    + unfold ignoreError in Hrun. rewrite (Run_RmCached gd) in Hrun by done.
      cbn [snd] in Hrun. apply IH in Hrun as (Hoi & Hc & Hidx); [|done].
      projs in Hoi. projs in Hc. 
      split. { eapply onlyIndex_trans; [|exact Hoi]. by repeat split. }
      split. { intros Hc0. apply Hc. projs. set_solver. }
      intros Hok p. rewrite (Hidx Hok p).
      rewrite !worktree_set_conflicted, !worktree_set_index, !worktree_record,
        !index_set_conflicted, !index_set_index, !index_record.
      destruct (decide (p = file)) as [->|Hne].
      * rewrite (decide_True (P := file ∈ file :: ch)) by left. rewrite Hdel, lookup_delete_eq.
        by destruct (decide (file ∈ ch)).
      * rewrite lookup_delete_ne by done.
        destruct (decide (p ∈ ch)).
        -- by rewrite decide_True by (by right).
        -- rewrite decide_False; [done|]. by intros [?|?]%elem_of_cons.
    + unfold onError in Hrun.
      destruct (Run (Add file) w) as [[[]|e] w0] eqn:Hadd.
      * apply (Run_Add gd) in Hadd as (Hoi0 & Hc0 & Hi0 & _); [|done].
        specialize (Hi0 eq_refl).
        apply IH in Hrun as (Hoi & Hc & Hidx); [|by destruct Hoi0 as (_ & -> & _)].
        split; [by eapply onlyIndex_trans|]. split; [by auto|].
        intros Hok p. rewrite (Hidx Hok p), Hi0.
        assert (worktree w0 = worktree w) as -> by apply Hoi0.
        destruct (decide (p = file)) as [->|Hne].
        -- rewrite (decide_True (P := file ∈ file :: ch)) by left. rewrite Hdel.
           destruct (decide (file ∈ ch)); [done|].
           destruct (worktree w !! file); by rewrite ?lookup_insert_eq, ?lookup_delete_eq.
        -- assert (match worktree w !! file with
                   | Some c => <[file:=c]> (index w)
                   | None => delete file (index w)
                   end !! p = index w !! p) as ->
             by (destruct (worktree w !! file);
                 by rewrite ?lookup_insert_ne, ?lookup_delete_ne by done).
           destruct (decide (p ∈ ch)).
           ++ by rewrite decide_True by (by right).
           ++ rewrite decide_False; [done|]. by intros [?|?]%elem_of_cons.
      * injection Hrun as <- <-.
        apply (Run_Add gd) in Hadd as (Hoi0 & Hc0 & _); [|done].
        split; [done|]. split; [done|]. intros [=].
Qed.

Lemma Run_commit gd msg nv w r w' :
  gitdir w = Some gd →
  Run (CommitM msg nv) w = (r, w') →
  (r = Ok tt
   ∧ HEAD w' = Some (commit_id (env w) (new_commit msg w))
   ∧ objects w' !! commit_id (env w) (new_commit msg w) = Some (new_commit msg w)
   ∧ c_tree (new_commit msg w) = index w
   ∧ env w' = env w ∧ gitdir w' = gitdir w ∧ branch w' = branch w
   ∧ worktree w' = worktree w ∧ index w' = index w ∧ dirs w' = dirs w
   ∧ stdout w' = stdout w ∧ log w' = log w ++ [Git (CommitM msg nv)])
  ∨ (r = Err exitError ∧ w' = record (Git (CommitM msg nv)) w).
Proof.
  intros H. unfold Run, git_exec. rewrite gitdir_record, H.
  destruct (_ || _).
  - intros [= <- <-]. by right.
  - intros [= <- <-]. left. unfold HEAD. projs.
    rewrite !lookup_insert_eq. by split_and!.
Qed.
Lemma changed_paths_repo w w' : repo w = repo w' → changed_paths w = changed_paths w'.
Proof.
  unfold repo, changed_paths, head_tree, HEAD, tree_at.
  intros [= Hg Hb Hr Ho Hi Hc Hm Hw]. by rewrite Hb, Hr, Ho, Hi, Hc.
Qed.

Lemma deleted_paths_repo w w' : repo w = repo w' → deleted_paths w = deleted_paths w'.
Proof.
  unfold repo, deleted_paths, head_tree, HEAD, tree_at.
  intros [= Hg Hb Hr Ho Hi Hc Hm Hw]. by rewrite Hb, Hr, Ho, Hi, Hc.
Qed.

Lemma AddU_run gd w :
  gitdir w = Some gd →
  ignoreError (Run AddU) w = (Ok tt, staged (record (Git AddU) w)).
Proof. intros H. unfold ignoreError, Run, git_exec. wsimpl. by rewrite H. Qed.

Lemma AddU_norepo w :
  gitdir w = None → ignoreError (Run AddU) w = (Ok tt, record (Git AddU) w).
Proof. intros H. unfold ignoreError, Run, git_exec. wsimpl. by rewrite H. Qed.

Lemma Output_DiffCachedNameOnly gd w :
  gitdir w = Some gd →
  Output DiffCachedNameOnly w = (Ok (unlines (changed_paths w)), record (Git DiffCachedNameOnly) w).
Proof. intros H. unfold Output, git_exec. wsimpl. by rewrite H. Qed.

Lemma Output_DiffCachedNameOnlyD gd w :
  gitdir w = Some gd →
  orDefault "" (Output DiffCachedNameOnlyD) w
  = (Ok (unlines (deleted_paths w)), record (Git DiffCachedNameOnlyD) w).
Proof. intros H. unfold orDefault, Output, git_exec. wsimpl. by rewrite H. Qed.

Lemma staged_facts w :
  env (staged w) = env w ∧ gitdir (staged w) = gitdir w ∧ branch (staged w) = branch w
  ∧ refs (staged w) = refs w ∧ objects (staged w) = objects w
  ∧ merge_head (staged w) = merge_head w ∧ worktree (staged w) = worktree w
  ∧ dirs (staged w) = dirs w ∧ stdout (staged w) = stdout w ∧ log (staged w) = log w
  ∧ conflicted (staged w) = ∅.
Proof. done. Qed.

Lemma staged_record c w : staged (record c w) = record c (staged w).
Proof. by destruct w. Qed.
Lemma staged_stdout f w : staged (set_stdout f w) = set_stdout f (staged w).
Proof. by destruct w. Qed.
Lemma repo_record c w : repo (record c w) = repo w.
Proof. by destruct w. Qed.
Lemma repo_set_stdout f w : repo (set_stdout f w) = repo w.
Proof. by destruct w. Qed.

(** What the first part of [continue] has established when it hands a
    snapshot on. *)
Lemma capture_run sd w s w1 :
  continueCapture sd w = (Ok (Some s), w1) →
  ∃ gd,
    gitdir w = Some gd ∧ is_Some (dirs w !! sd) ∧ conflicted w = ∅
    ∧ field w sd "target" = Some (s_targetBranch s)
    ∧ field w sd "target_sha" = Some (s_targetSHA s)
    ∧ field w sd "current_branch" = Some (s_currentBranch s)
    ∧ field w sd "orig_head" = Some (s_origHead s)
    ∧ env w1 = env w ∧ repo w1 = repo (staged w) ∧ dirs w1 = dirs w
    ∧ s_changedFiles s = nonEmptyLines (unlines (changed_paths (staged w)))
    ∧ s_changedFiles s ≠ []
    ∧ s_deletedFiles s
      = list_to_map ((λ f, (f, true)) <$> nonEmptyLines (unlines (deleted_paths (staged w))))
    ∧ (∀ p, s_fileContents s !! p =
         if decide (p ∈ s_changedFiles s ∧ isDeleted (s_deletedFiles s) p = false)
         then worktree w !! p else None)
    ∧ (∀ p, p ∈ s_changedFiles s → isDeleted (s_deletedFiles s) p = false →
         is_Some (worktree w !! p))
    ∧ log w1 = log w
        ++ [OsStat sd; Git LsFilesU; OsReadFile (filepath_Join sd "target");
            OsReadFile (filepath_Join sd "target_sha");
            OsReadFile (filepath_Join sd "current_branch");
            OsReadFile (filepath_Join sd "orig_head");
            Git AddU; Git DiffCachedNameOnly; Git DiffCachedNameOnlyD]
        ++ (OsReadFile <$> filter (λ p, isDeleted (s_deletedFiles s) p = false)
                             (s_changedFiles s)).
Proof.
  unfold continueCapture. step_with isAnticipateInProgress_eq.
  destruct (dirs w !! sd) as [files|] eqn:Hd.
  2:{ rewrite bool_decide_false by (by intros [??]). intros [=]. }
  rewrite bool_decide_true by done. cbn [negb].
  step_with hasUnmergedFiles_run. autorewrite with frame.
  destruct (unmergedNow w) eqn:Hum.
  { step_with getConflictingFiles_run.
    rewrite bind_Printf, bind_forEach_Printf, bind_Printf. intros [=]. }
  do 4 (step_on readStateFile_eq; autorewrite with frame;
        match goal with |- context [field w sd ?n] =>
          destruct (field w sd n) eqn:? end; [|intros [=]]).
  rewrite bind_Printf.
  destruct (gitdir w) as [gd|] eqn:Hgd.
  2:{ step_with AddU_norepo. unfold bind at 1, onError.
      rewrite Output_norepo by (projs; exact Hgd). intros [=]. }
  step_with (AddU_run gd).
  rewrite !staged_record, staged_stdout, !staged_record.
  step_on (Output_DiffCachedNameOnly gd).
  match goal with |- context [changed_paths ?w0] =>
    rewrite (changed_paths_repo w0 (staged w))
      by (by rewrite !repo_record, repo_set_stdout, !repo_record) end.
  destruct (length _ =? 0) eqn:Hlen.
  { rewrite bind_Printf. step_with (abortMerge_run gd). unfold bind at 1.
    rewrite removeState_run. intros [=]. }
  step_with (Output_DiffCachedNameOnlyD gd).
  match goal with |- context [deleted_paths ?w0] =>
    rewrite (deleted_paths_repo w0 (staged w))
      by (by rewrite !repo_record, repo_set_stdout, !repo_record) end.
  rewrite bind_Printf. unfold bind at 1.
  match goal with |- context [readResolved ?d ?c ?f ?w0] =>
    destruct (readResolved d c f w0) as [[fc|e] w2] eqn:Hrr end; [|intros [=]].
  apply readResolved_run in Hrr as (Hun & Hso & Hok).
  destruct (Hok fc eq_refl) as (Hl & Hfc & Hsome). clear Hok.
  unfold ret. intros [= <- <-].
  cbn [s_targetBranch s_targetSHA s_currentBranch s_origHead s_changedFiles
       s_deletedFiles s_fileContents].
  destruct Hun as (He & Hr & Hdd).
  rewrite !repo_set_stdout, !repo_record, repo_set_stdout, !repo_record in Hr.
  projs in He. projs in Hdd.
  destruct (staged_facts w) as (Ee&_&_&_&_&_&_&Ed&_&El&_).
  rewrite Ee in He. rewrite Ed in Hdd.
  exists gd. split; [reflexivity|]. split; [by eexists|].
  split. { unfold unmergedNow in Hum. rewrite Hgd in Hum.
           apply bool_decide_eq_false in Hum. by apply dec_stable in Hum. }
  do 4 (split; [reflexivity|]).
  split; [symmetry; exact He|]. split; [symmetry; exact Hr|]. split; [symmetry; exact Hdd|].
  split; [reflexivity|].
  split. { intros Hnil. by rewrite Hnil in Hlen. }
  split; [reflexivity|].
  split. { intros p. rewrite Hfc. by rewrite lookup_empty. }
  split. { intros p Hp Hq. specialize (Hsome p Hp Hq). projs in Hsome.
           change (worktree (staged w)) with (worktree w) in Hsome. exact Hsome. }
  rewrite Hl. projs. rewrite El. rewrite <- !app_assoc. reflexivity.
Qed.
Lemma logs_ifdec {A} P (Q : Prop) (d : {Q} + {¬ Q}) (m1 m2 : M A) :
  logs P m1 → logs P m2 → logs P (if d then m1 else m2).
Proof. by destruct d. Qed.

Lemma logs_continueReplay s : logs notRead (continueReplay s).
Proof.
  unfold continueReplay.
  repeat first [ apply logs_ifdec | progress logs_tac ]; done.
Qed.

Lemma logs_continueCommit sd nv s : logs notRead (continueCommit sd nv s).
Proof. unfold continueCommit, removeState. logs_tac; done. Qed.

Lemma ResetHard_ok gd rev w w' :
  gitdir w = Some gd →
  Run (ResetHard rev) w = (Ok tt, w') →
  env w' = env w ∧ gitdir w' = gitdir w ∧ branch w' = branch w ∧ dirs w' = dirs w
  ∧ objects w' = objects w ∧ conflicted w' = ∅.
Proof.
  intros Hgd. unfold Run, git_exec. rewrite gitdir_record, Hgd.
  destruct (resolve _ rev) as [id|]; [|intros [=]].
  destruct (objects _ !! id) as [cm|]; [|intros [=]].
  intros [= <-]. by projs.
Qed.

Lemma deletedSet_lookup (l : list string) p :
  (list_to_map ((λ f, (f, true)) <$> l) : gmap string bool) !! p
  = if decide (p ∈ l) then Some true else None.
Proof.
  induction l as [|x l IH].
  { rewrite fmap_nil, list_to_map_nil, lookup_empty.
    by rewrite decide_False by apply not_elem_of_nil. }
  rewrite fmap_cons, list_to_map_cons.
  destruct (decide (p = x)) as [->|Hne].
  - rewrite lookup_insert. rewrite decide_True by done. by rewrite decide_True by left.
  - rewrite lookup_insert_ne by done. rewrite IH.
    destruct (decide (p ∈ l)).
    + by rewrite decide_True by (by right).
    + rewrite decide_False; [done|]. by intros [->|?]%elem_of_cons.
Qed.

Lemma isDeleted_deletedSet (l : list string) p :
  isDeleted (list_to_map ((λ f, (f, true)) <$> l)) p = bool_decide (p ∈ l).
Proof.
  unfold isDeleted. rewrite deletedSet_lookup.
  destruct (decide (p ∈ l)); [by rewrite bool_decide_true|by rewrite bool_decide_false].
Qed.

(** What the replay leaves when it went through: the files that were read
    are back, the deleted ones are gone, and the index says the same of
    every changed path. *)
Lemma stage_run gd s w1 w5 :
  gitdir w1 = Some gd →
  continueStage s w1 = (Ok tt, w5) →
  env w5 = env w1 ∧ gitdir w5 = gitdir w1 ∧ branch w5 = branch w1 ∧ dirs w5 = dirs w1
  ∧ conflicted w5 = ∅
  ∧ (∀ p, is_Some (s_deletedFiles s !! p) → worktree w5 !! p = None)
  ∧ (∀ p, s_deletedFiles s !! p = None →
       is_Some (s_fileContents s !! p) → worktree w5 !! p = s_fileContents s !! p)
  ∧ (∀ p, p ∈ s_changedFiles s →
       index w5 !! p = if isDeleted (s_deletedFiles s) p then None else worktree w5 !! p)
  ∧ ∃ l, log w5 = log w1 ++ Git MergeAbort :: l ∧ Forall notRead l.
Proof.
  intros Hgd. unfold continueStage. step_with (abortMerge_run gd).
  set (w2 := mergeAborted (record (Git MergeAbort) w1)).
  intros Hrun.
  destruct (logs_continueReplay s _ _ _ Hrun) as (l & Hlog & Hl).
  destruct (mergeAborted_facts (record (Git MergeAbort) w1))
    as (He2 & Hg2 & Hb2 & _ & _ & Hd2 & Hl2 & _).
  fold w2 in He2, Hg2, Hb2, Hd2, Hl2.
  rewrite gitdir_record in Hg2. rewrite env_record in He2. rewrite branch_record in Hb2.
  rewrite dirs_record in Hd2. rewrite log_record in Hl2.
  revert Hrun. unfold continueReplay. unfold bind at 1.
  destruct (onError _ (Run (ResetHard (s_origHead s))) w2) as [[[]|e] w3] eqn:E3;
    [|intros [=]].
  unfold onError in E3.
  destruct (Run (ResetHard (s_origHead s)) w2) as [[[]|e] w3'] eqn:E3'; [|done].
  injection E3 as ->.
  apply (ResetHard_ok gd) in E3' as (He3 & Hg3 & Hb3 & Hd3 & _ & Hc3);
    [|by rewrite Hg2].
  rewrite bind_Printf. unfold bind at 1.
  match goal with |- context [rangeMap (s_fileContents s) ?body ?w0] =>
    destruct (rangeMap (s_fileContents s) body w0) as [[[]|e] w4] eqn:E4 end;
    [|intros [=]].
  apply writeBack_run in E4 as (Hof4 & Hwt4). specialize (Hwt4 eq_refl).
  destruct (removeDeleted_run (s_deletedFiles s) w4) as (w4' & E5 & Hof5 & Hwt5).
  unfold bind at 1. rewrite E5. intros E6.
  pose proof (onlyFiles_trans _ _ _ Hof4 Hof5) as Hof.
  destruct Hof as (He & Hg & Hb & _ & _ & _ & Hc & _ & Hd).
  rewrite env_set_stdout in He. rewrite gitdir_set_stdout in Hg.
  rewrite branch_set_stdout in Hb. rewrite conflicted_set_stdout in Hc.
  rewrite dirs_set_stdout in Hd.
  apply (stage_loop gd) in E6 as (Hoi & Hc6 & Hix); [|by rewrite Hg, Hg3, Hg2].
  specialize (Hix eq_refl).
  destruct Hoi as (He6 & Hg6 & Hb6 & _ & _ & Hw6 & _ & Hd6).
  split; [by rewrite He6, He, He3, He2|].
  split; [by rewrite Hg6, Hg, Hg3, Hg2|].
  split; [by rewrite Hb6, Hb, Hb3, Hb2|].
  split; [by rewrite Hd6, Hd, Hd3, Hd2|].
  split; [apply Hc6; by rewrite Hc, Hc3|].
  split. { intros p Hp. rewrite Hw6, Hwt5. by rewrite decide_True. }
  split. { intros p Hp [c Hc']. rewrite Hw6, Hwt5.
           rewrite decide_False by (rewrite Hp; by intros [??]).
           by rewrite Hwt4, Hc'. }
  split. { intros p Hp. rewrite Hix, decide_True by done. by rewrite Hw6. }
  exists l. split; [|done]. by rewrite Hlog, Hl2, <- app_assoc.
Qed.
Lemma logs_readResolved P del ch fc :
  (∀ f, P (OsReadFile f)) → logs P (readResolved del ch fc).
Proof.
  intros HP. revert fc. induction ch as [|f ch IH]; intros fc; cbn [readResolved].
  - apply logs_ret.
  - destruct (default false (del !! f)); [apply IH|].
    apply logs_bind; [|intros ?; apply IH].
    apply logs_onError, logs_os_ReadFile, HP.
Qed.

Lemma logs_continueCapture sd : logs notCommit (continueCapture sd).
Proof.
  unfold continueCapture, readStateFile, abortMerge, removeState.
  repeat first [ apply logs_readResolved; intros ? | progress logs_tac ]; done.
Qed.

Lemma logs_continueStage s : logs notCommit (continueStage s).
Proof.
  unfold continueStage, continueReplay, abortMerge.
  repeat first [ apply logs_ifdec | progress logs_tac ]; done.
Qed.

(** [continue] with nothing staged: no snapshot, and the branch stays
    where it was. *)
Lemma capture_none sd w w1 :
  continueCapture sd w = (Ok None, w1) →
  nonEmptyLines (unlines (changed_paths (staged w))) = [] ∧ HEAD w1 = HEAD w.
Proof.
  unfold continueCapture. step_with isAnticipateInProgress_eq.
  destruct (dirs w !! sd) as [files|] eqn:Hd.
  2:{ rewrite bool_decide_false by (by intros [??]). intros [=]. }
  rewrite bool_decide_true by done. cbn [negb].
  step_with hasUnmergedFiles_run. autorewrite with frame.
  destruct (unmergedNow w) eqn:Hum.
  { step_with getConflictingFiles_run.
    rewrite bind_Printf, bind_forEach_Printf, bind_Printf. intros [=]. }
  do 4 (step_on readStateFile_eq; autorewrite with frame;
        match goal with |- context [field w sd ?n] =>
          destruct (field w sd n) eqn:? end; [|intros [=]]).
  rewrite bind_Printf.
  destruct (gitdir w) as [gd|] eqn:Hgd.
  2:{ step_with AddU_norepo. unfold bind at 1, onError.
      rewrite Output_norepo by (projs; exact Hgd). intros [=]. }
  step_with (AddU_run gd).
  rewrite !staged_record, staged_stdout, !staged_record.
  step_on (Output_DiffCachedNameOnly gd).
  match goal with |- context [changed_paths ?w0] =>
    rewrite (changed_paths_repo w0 (staged w))
      by (by rewrite !repo_record, repo_set_stdout, !repo_record) end.
  destruct (length _ =? 0) eqn:Hlen.
  2:{ step_with (Output_DiffCachedNameOnlyD gd). rewrite bind_Printf. unfold bind at 1.
      match goal with |- context [readResolved ?d ?c ?f ?w0] =>
        destruct (readResolved d c f w0) as [[fc|e] w2] end; intros [=]. }
  rewrite bind_Printf. step_with (abortMerge_run gd). unfold bind at 1.
  rewrite removeState_run. unfold ret. intros [= <-].
  split.
  { apply Nat.eqb_eq in Hlen. by apply length_zero_iff_nil in Hlen. }
  unfold HEAD. rewrite refs_set_dirs, branch_set_dirs, refs_record, branch_record.
  match goal with |- context [mergeAborted ?w0] =>
    destruct (mergeAborted_facts w0) as (_ & _ & -> & -> & _) end.
  by projs.
Qed.

(** The commit and the clean-up: either the commit is made from the index
    and the session directory removed, or [continue] stops in the world
    the failed commit left. *)
Lemma commit_run gd sd nv s w5 r w' :
  gitdir w5 = Some gd →
  continueCommit sd nv s w5 = (r, w') →
  (r = Ok tt
   ∧ (∃ id cm, HEAD w' = Some id ∧ objects w' !! id = Some cm ∧ c_tree cm = index w5)
   ∧ worktree w' = worktree w5 ∧ index w' = index w5
   ∧ dirs w' = delete sd (dirs w5)
   ∧ log w' = log w5 ++ [Git (CommitM (commitMessage s) nv); OsRemoveAll sd])
  ∨ ((∃ msg, r = Err (Errorf ("failed to create commit: exit status 1" +:+ msg)))
     ∧ env w' = env w5 ∧ repo w' = repo w5 ∧ dirs w' = dirs w5
     ∧ log w' = log w5 ++ [Git (CommitM (commitMessage s) nv)]).
Proof.
  intros Hgd. unfold continueCommit. rewrite bind_Printf. unfold bind at 1.
  unfold onError at 1.
  match goal with |- context [Run ?c ?w0] =>
    destruct (Run c w0) as [r0 wc] eqn:Erun end.
  apply (Run_commit gd) in Erun as
    [(-> & Hh & Ho & Ht & He & Hg & Hb & Hw & Hi & Hd & Hso & Hl)|(-> & ->)];
    [| |exact Hgd].
  - cbv beta iota. step_with removeState_run. rewrite !bind_Printf. unfold ret.
    intros [= <- <-]. left. split; [done|].
    split.
    { eexists _, _. split; [|split; [|exact Ht]].
      - unfold HEAD. projs. exact Hh.
      - projs. exact Ho. }
    split; [by projs|]. split; [by projs|].
    split; [projs; by rewrite Hd|].
    projs. rewrite Hl. projs. by rewrite <- app_assoc.
  - cbv beta iota. intros [= <- <-]. right.
    split; [by eexists|]. by rewrite repo_record, repo_set_stdout.
Qed.
Lemma logs_continueStage_keeps sd s : logs (λ c, c ≠ OsRemoveAll sd) (continueStage s).
Proof.
  unfold continueStage, continueReplay, abortMerge.
  repeat first [ apply logs_ifdec | progress logs_tac ]; done.
Qed.

Lemma deleted_in_changed w p : p ∈ deleted_paths w → p ∈ changed_paths w.
Proof.
  unfold deleted_paths, changed_paths.
  rewrite !elem_of_elements, !elem_of_filter, !elem_of_union, !elem_of_dom.
  intros [[Hc Hi] [c Hh]]. split; [|by left; right; exists c].
  right. by rewrite Hi, Hh.
Qed.

Lemma deleted_plain w :
  Forall plainName (changed_paths w) → Forall plainName (deleted_paths w).
Proof.
  rewrite !Forall_forall. intros H p Hp. by apply H, deleted_in_changed.
Qed.

Lemma repo_gitdir w w' : repo w = repo w' → gitdir w = gitdir w'.
Proof. by intros [= -> _]. Qed.

Lemma repo_tree w w' : repo w = repo w' → worktree w = worktree w' ∧ index w = index w'.
Proof. unfold repo. by intros [= _ _ _ _ -> _ _ ->]. Qed.


(** * Status *)

(** [status] always succeeds and only looks; with a session on record it
    prints the recorded tip through [truncateSHA]. *)
Lemma showStatus_run (stateDir : string) (w : World) :
  ∃ w', showStatus stateDir w = (Ok tt, w')
    ∧ unchanged w w'
    ∧ Forall isQuery (calls w w')
    ∧ (is_Some (dirs w !! stateDir) →
       ("Original HEAD:   " +:+ truncateSHA (default "" (field w stateDir "orig_head")) +:+ LF)
       ∈ printed w w').
Proof.
  unfold showStatus. step_with isAnticipateInProgress_eq.
  destruct (dirs w !! stateDir) as [files|] eqn:Hd.
  - rewrite bool_decide_true by done. cbn [negb].
    do 3 step_with orDefault_readStateFile.
    rewrite !bind_Printf. step_with hasUnmergedFiles_run.
    match goal with |- context [if ?b then _ else _] => destruct b end.
    + unfold bind at 1. step_with getConflictingFiles_run.
      rewrite bind_Printf, bind_forEach_Printf, !bind_Printf.
      eexists. split; [reflexivity|]. split; [done|]. split.
      { erewrite calls_app by (projs; rewrite <- ?app_assoc; reflexivity).
        by repeat constructor. }
      intros _. unfold printed. projs. autorewrite with frame.
      rewrite <- !app_assoc, drop_app_length. cbn [app].
      do 3 apply list_elem_of_further. apply list_elem_of_here.
    + unfold bind at 1. rewrite !bind_Printf.
      eexists. split; [reflexivity|]. split; [done|]. split.
      { erewrite calls_app by (projs; rewrite <- ?app_assoc; reflexivity).
        by repeat constructor. }
      intros _. unfold printed. projs. autorewrite with frame.
      rewrite <- !app_assoc, drop_app_length. cbn [app].
      do 3 apply list_elem_of_further. apply list_elem_of_here.
  - rewrite bool_decide_false by (by intros [??]). cbn [negb].
    rewrite !bind_Printf.
    eexists. split; [reflexivity|]. split; [done|]. split.
    { erewrite calls_app by (projs; rewrite <- ?app_assoc; reflexivity).
      by repeat constructor. }
    by intros [??].
Qed.

(** C9.  [status] never fails (exit status 0) and touches nothing
    durable.  When a session is recorded, the line it prints for the
    original tip shows the stored value, as loaded, cut to its first 8
    characters if it is longer than 8, the word [unknown] if it is
    empty, and the value itself otherwise. *)
Theorem status_shows_short_tip (stateDir : string) (w : World) :
  ∃ w', showStatus stateDir w = (Ok tt, w')
    ∧ exitCode (Ok tt) = ExitSuccess
    ∧ unchanged w w'
    ∧ ∀ files raw,
        dirs w !! stateDir = Some files →
        files !! "orig_head" = Some raw →
        let tip := TrimSpace (string_of_list_byte raw) in
        truncateSHA tip
        = (if 8 <? String.length tip then substring 0 8 tip
           else if String.length tip =? 0 then "unknown"
           else tip)
        ∧ ("Original HEAD:   " +:+ truncateSHA tip +:+ LF) ∈ printed w w'.
Proof.
  destruct (showStatus_run stateDir w) as (w' & Hrun & Hun & _ & Hpr).
  exists w'. split; [done|]. split; [done|]. split; [done|].
  intros files raw Hd Hraw tip. split; [apply truncateSHA_trimmed|].
  assert (field w stateDir "orig_head" = Some tip) as Hf.
  { unfold field. rewrite Hd. cbn [mbind option_bind]. by rewrite Hraw. }
  rewrite Hf in Hpr. apply Hpr. by rewrite Hd.
Qed.

(** * The bare invocation *)

(** C10.  Inside a repository, with no argument and none of
    [--continue], [--abort], [--status]: if the session directory
    exists the program does what [status] does and exits with 0;
    if it does not, the program fails with the usage error and exits
    with 2, having changed nothing. *)
Theorem bare_invocation (cmd : Flags) (w : World) (gd : string) :
  gitdir w = Some gd →
  continueFlag cmd = false → abortFlag cmd = false → statusFlag cmd = false →
  let stateDir := filepath_Join (TrimSpace gd) anticipateDir in
  let w1 := record (OsStat stateDir)
              (record (Git RevParseGitDir) (record (Git RevParseGitDir) w)) in
  (is_Some (dirs w !! stateDir) →
     runAnticipate cmd [] w = showStatus stateDir w1
     ∧ ∃ w', main cmd [] w = (ExitSuccess, w') ∧ unchanged w w')
  ∧ (dirs w !! stateDir = None →
     runAnticipate cmd [] w = (Err usageError, w1)
     ∧ ∃ w', main cmd [] w = (ExitError, w') ∧ unchanged w w').
Proof.
  intros Hgd Hc Ha Hs stateDir w1.
  assert (runAnticipate cmd [] w
          = (let* inProgress := isAnticipateInProgress stateDir in
             if inProgress then showStatus stateDir else fail usageError)
              (record (Git RevParseGitDir) (record (Git RevParseGitDir) w))) as Hrun.
  { unfold runAnticipate. step_with (validateRepo_run gd).
    unfold bind at 1. erewrite onError_ok by (by eapply getGitDir_run).
    cbv beta iota. by rewrite Hs, Ha, Hc. }
  split.
  - intros Hdir. assert (runAnticipate cmd [] w = showStatus stateDir w1) as Hrun'.
    { rewrite Hrun. step_with isAnticipateInProgress_eq. wsimpl.
      by rewrite bool_decide_true. }
    split; [done|].
    destruct (showStatus_run stateDir w1) as (w' & Hst & Hun & _).
    exists w'. split; [|done].
    unfold main. cbn [length Nat.ltb Nat.leb]. by rewrite Hrun', Hst.
  - intros Hdir. assert (runAnticipate cmd [] w = (Err usageError, w1)) as Hrun'.
    { rewrite Hrun. step_with isAnticipateInProgress_eq. wsimpl.
      rewrite bool_decide_false; [done|]. rewrite Hdir. by intros [??]. }
    split; [done|]. eexists. split; [|shelve].
    unfold main. cbn [length Nat.ltb Nat.leb]. rewrite Hrun'. reflexivity.
    Unshelve. done.
Qed.

Lemma bare_invocation_witness :
  (∃ w', main Demo.noFlags [] (Demo.started Demo.calm) = (ExitSuccess, w')
         ∧ unchanged (Demo.started Demo.calm) w')
  ∧ (∃ w', main Demo.noFlags [] (Demo.fresh Demo.calm) = (ExitError, w')
           ∧ unchanged (Demo.fresh Demo.calm) w').
Proof.
  split.
  - refine (proj2 (proj1 (bare_invocation Demo.noFlags (Demo.started Demo.calm) ".git"
                   _ eq_refl eq_refl eq_refl) _)).
    + vm_compute. reflexivity.
    + by_compute.
  - refine (proj2 (proj2 (bare_invocation Demo.noFlags (Demo.fresh Demo.calm) ".git"
                   _ eq_refl eq_refl eq_refl) _)).
    + vm_compute. reflexivity.
    + vm_compute. reflexivity.
Defined.

(** * Conflict gating *)

Lemma conflictingNow_plain gd w :
  gitdir w = Some gd →
  Forall plainName (elements (conflicted w)) →
  conflictingNow w = elements (conflicted w).
Proof.
  intros Hgd Hplain. unfold conflictingNow. rewrite Hgd.
  by apply nonEmptyLines_unlines.
Qed.

(** C3, as amended.  With a session recorded, in every state in which
    git reports unmerged paths, [continue] returns [errConflicts] (exit
    status 1), prints the unmerged paths between its two messages, and
    leaves the session record, the index and the work tree as they
    were.  The paths printed are those git lists; they are the unmerged
    paths themselves when their names have no line feed and no space at
    either end. *)
Theorem continue_refuses_unresolved (stateDir : string) (noVerify : bool)
    (w : World) (gd : string) :
  gitdir w = Some gd →
  is_Some (dirs w !! stateDir) →
  conflicted w ≠ ∅ →
  ∃ w', continueAnticipate stateDir noVerify w = (Err errConflicts, w')
    ∧ exitCode (Err errConflicts) = ExitConflictsFound
    ∧ unchanged w w'
    ∧ calls w w' = [OsStat stateDir; Git LsFilesU; Git DiffNameOnlyU]
    ∧ printed w w'
      = ["⚠️  Unresolved conflicts remain:" +:+ LF]
        ++ ((λ file, "    ❌ " +:+ file +:+ LF) <$> conflictingNow w)
        ++ [LF +:+ "Resolve conflicts and run 'git add', then 'git anticipate --continue'" +:+ LF]
    ∧ (Forall plainName (elements (conflicted w)) →
       conflictingNow w = elements (conflicted w)).
Proof.
  intros Hgd Hdir Hconf.
  unfold continueAnticipate. step_with isAnticipateInProgress_eq.
  rewrite bool_decide_true by done. cbn [negb].
  step_with hasUnmergedFiles_run. frame.
  unfold unmergedNow at 1. rewrite Hgd, bool_decide_true by done.
  step_with getConflictingFiles_run. frame.
  rewrite bind_Printf, bind_forEach_Printf, bind_Printf. unfold fail.
  eexists. split; [reflexivity|]. split; [done|]. split; [done|].
  split; [solve_calls|]. split.
  - solve_printed.
  - by apply (conflictingNow_plain gd w).
Qed.

Lemma continue_refuses_unresolved_witness :
  ∃ w', continueAnticipate Demo.stateDir false (Demo.started Demo.calm) = (Err errConflicts, w')
    ∧ unchanged (Demo.started Demo.calm) w'
    ∧ printed (Demo.started Demo.calm) w'
      = ["⚠️  Unresolved conflicts remain:" +:+ LF; "    ❌ file.txt" +:+ LF;
         LF +:+ "Resolve conflicts and run 'git add', then 'git anticipate --continue'" +:+ LF].
Proof.
  destruct (continue_refuses_unresolved Demo.stateDir false (Demo.started Demo.calm) ".git")
    as (w' & Hrun & _ & Hun & _ & Hpr & _).
  - vm_compute. reflexivity.
  - by_compute.
  - by_compute.
  - exists w'. split; [done|]. split; [done|]. rewrite Hpr. vm_compute. reflexivity.
Defined.

(** C3 as stated fails without a session: after a plain [git merge] that
    left [file.txt] unmerged, [continue] ends with the error of the
    session check, exit status 2, not with [errConflicts]. *)
Lemma continue_unresolved_without_session :
  conflicted Demo.plain_merge ≠ ∅
  ∧ unmergedNow Demo.plain_merge = true
  ∧ fst (continueAnticipate Demo.stateDir false Demo.plain_merge)
    = Err (Errorf "no anticipate in progress")
  ∧ exitCode (fst (continueAnticipate Demo.stateDir false Demo.plain_merge)) = ExitError
  ∧ fst (main (mkFlags true false false false) [] Demo.plain_merge) = ExitError.
Proof.
  split; [by_compute|].
  repeat split; vm_compute; reflexivity.
Qed.
Lemma resolve_oid w h cm :
  objects w !! h = Some cm → h ≠ "HEAD" → resolve w h = Some h.
Proof. intros Ho Hne. unfold resolve. rewrite decide_False by done. by rewrite Ho. Qed.

(** * Starting a session: the record comes first *)

(** C8.  In every run of [start] that calls [git merge], the session
    directory was created and its files written before that call, the
    merge is the next call after them, and at that moment the four
    fields read back as the values [start] had computed.  So whatever
    state the merge is interrupted in, as long as the record is there
    the session is seen as in progress, [status] reports it, and, if
    the recorded tip still names a commit, [abort] resets to it and
    removes the record. *)
Theorem session_saved_before_merge (stateDir targetBranch : string) (w : World) r w' :
  startAnticipate stateDir targetBranch w = (r, w') →
  Git (Merge targetBranch) ∈ calls w w' →
  ∃ currentBranch origHead targetSHA w1 before after,
    startPrefix stateDir targetBranch w = (Ok (currentBranch, origHead, targetSHA), w1)
    ∧ startMerge stateDir targetBranch w1 = (r, w')
    ∧ calls w w1 = before
    ∧ calls w w' = before ++ Git (Merge targetBranch) :: after
    ∧ (Git (Merge targetBranch) ∉ before)
    ∧ OsMkdirAll stateDir ∈ before
    ∧ dirs w1 !! stateDir
      = Some (sessionRecord targetBranch origHead targetSHA currentBranch)
    ∧ field w1 stateDir "target" = Some (TrimSpace targetBranch)
    ∧ field w1 stateDir "orig_head" = Some origHead
    ∧ field w1 stateDir "target_sha" = Some targetSHA
    ∧ field w1 stateDir "current_branch" = Some currentBranch
    ∧ ∀ wc, dirs wc !! stateDir = dirs w1 !! stateDir →
        isAnticipateInProgress stateDir wc = (Ok true, record (OsStat stateDir) wc)
        ∧ (∃ wc', showStatus stateDir wc = (Ok tt, wc')
             ∧ ("Original HEAD:   " +:+ truncateSHA origHead +:+ LF) ∈ printed wc wc')
        ∧ (∀ gd id cm,
             gitdir wc = Some gd → resolve wc origHead = Some id → objects wc !! id = Some cm →
             ∃ wc', abortAnticipate stateDir wc = (Ok tt, wc')
               ∧ HEAD wc' = Some id ∧ index wc' = c_tree cm
               ∧ conflicted wc' = ∅ ∧ merge_head wc' = None
               ∧ dirs wc' !! stateDir = None).
Proof.
  intros Hrun Hin.
  destruct (start_reaches_merge _ _ _ _ _ Hrun Hin) as (cb & oh & ts & w1 & l1 & Hp & Hm & Hl1 & Hno).
  destruct (startPrefix_ok _ _ _ _ _ _ _ Hp) as
    (gd & h & t & Hgd & Hd & Hclean & Hh & Ht & -> & -> & -> & He1 & Hr1 & Hd1 & lw & Hlw & Hwr).
  assert (gitdir w1 = Some gd) as Hgd1.
  { unfold repo in Hr1. injection Hr1 as ->. done. }
  destruct (startMerge_run gd _ _ _ _ _ Hgd1 Hm)
    as (m & wm & ok & out & wg & _ & _ & _ & _ & [l2 Hl2] & _).
  assert (dirs w1 !! stateDir
          = Some (sessionRecord targetBranch (TrimSpace h) (TrimSpace t) (TrimSpace (branch w))
                  ∪ ∅)) as Hrec.
  { by rewrite Hd1, lookup_insert_eq, (right_id_L ∅ (∪)). }
  destruct (field_sessionRecord _ _ _ _ _ _ _ Hrec) as (F1 & F2 & F3 & F4).
  rewrite TrimSpace_idemp in F2, F3, F4.
  rewrite (right_id_L ∅ (∪)) in Hrec.
  exists (TrimSpace (branch w)), (TrimSpace h), (TrimSpace t), w1, l1, l2.
  split; [done|]. split; [done|]. split; [by apply calls_app|].
  split; [apply calls_app; by rewrite Hl2, Hl1, <- app_assoc|].
  split; [done|].
  split.
  { rewrite Hl1 in Hlw. apply app_inv_head in Hlw. rewrite Hlw.
    apply elem_of_app. right. apply list_elem_of_here. }
  split; [done|]. split; [done|]. split; [done|]. split; [done|]. split; [done|].
  intros wc Hwc. split; [|split].
  - rewrite isAnticipateInProgress_eq. rewrite bool_decide_true; [done|].
    rewrite Hwc, Hrec. by eexists.
  - destruct (showStatus_run stateDir wc) as (wc' & Hst & _ & _ & Hpr).
    exists wc'. split; [done|].
    assert (field wc stateDir "orig_head" = Some (TrimSpace h)) as Hf.
    { unfold field in *. by rewrite Hwc. }
    rewrite Hf in Hpr. apply Hpr. rewrite Hwc, Hrec. by eexists.
  - intros gd' id cm Hgc Hrc Hoc.
    assert (field wc stateDir "orig_head" = Some (TrimSpace h)) as Hf.
    { unfold field in *. by rewrite Hwc. }
    destruct (abort_run gd' stateDir wc _ id cm Hgc Hf Hrc Hoc)
      as (wc' & Hab & _ & _ & _ & _ & _ & HH & Hi & Hc & Hmh & Hdd & _).
    exists wc'. split_and!; try done. by rewrite Hdd, lookup_delete_eq.
Qed.
(** * Abort restores the tree *)

Lemma abort_without_session sd w :
  dirs w !! sd = None →
  abortAnticipate sd w = (Err (Errorf "no anticipate in progress"), record (OsStat sd) w).
Proof.
  intros Hd. unfold abortAnticipate. step_with isAnticipateInProgress_eq.
  rewrite bool_decide_false; [done|]. rewrite Hd. by intros [??].
Qed.

(** What a run of [start] that attempted the merge and left a session
    tells about the world before and after. *)
Lemma start_left_session sd tb w0 r w1 :
  startAnticipate sd tb w0 = (r, w1) →
  Git (Merge tb) ∈ calls w0 w1 →
  is_Some (dirs w1 !! sd) →
  ∃ gd h,
    gitdir w0 = Some gd ∧ gitdir w1 = Some gd ∧ clean w0 ∧ HEAD w0 = Some h
    ∧ field w1 sd "orig_head" = Some (TrimSpace h)
    ∧ objects w1 = objects w0
    ∧ dom (worktree w1) ⊆ tracked w1.
Proof.
  intros Hrun Hin Hsess.
  destruct (start_reaches_merge _ _ _ _ _ Hrun Hin) as (cb & oh & ts & wp & l1 & Hp & Hm & _ & _).
  destruct (startPrefix_ok _ _ _ _ _ _ _ Hp) as
    (gd & h & t & Hgd & Hd & Hclean & Hh & Ht & -> & -> & -> & Hep & Hrp & Hdp & _).
  assert (gitdir wp = Some gd) as Hgdp.
  { unfold repo in Hrp. injection Hrp as ->. done. }
  assert (clean wp) as Hcleanp by (by eapply clean_repo).
  destruct (startMerge_run gd _ _ _ _ _ Hgdp Hm)
    as (m & wm & ok & out & wg & _ & Hgm & Hrw & _ & _ & Hcase).
  apply git_merge_facts in Hgm as (_&Hg&_&_&Ho&_&_&_&_&Hag&_&_).
  projs in Hg. projs in Ho.
  assert (agree wg) as Hagg by (apply Hag; by apply clean_agree).
  assert (dirs w1 = dirs wp) as Hd1.
  { destruct m as [[] me].
    - destruct Hcase as (_ & _ & Hc). destruct (changesNow wg); destruct Hc as [Hc _]; [done|].
      rewrite Hc, lookup_delete_eq in Hsess. by destruct Hsess.
    - by destruct Hcase as (_ & _ & _ & ?).
    - destruct Hcase as (_ & _ & _ & _ & Hc).
      rewrite Hc, lookup_delete_eq in Hsess. by destruct Hsess. }
  assert (dirs w1 !! sd
          = Some (sessionRecord tb (TrimSpace h) (TrimSpace t) (TrimSpace (branch w0)) ∪ ∅))
    as Hrec by (by rewrite Hd1, Hdp, lookup_insert_eq, (right_id_L ∅ (∪))).
  destruct (field_sessionRecord _ _ _ _ _ _ _ Hrec) as (_ & F2 & _).
  rewrite TrimSpace_idemp in F2.
  unfold repo in Hrw, Hrp. injection Hrw as Hg1 _ _ Ho1 Hi1 Hc1 _ Hw1.
  injection Hrp as _ _ _ Hop _ _ _ _.
  exists gd, h. split_and!; try done; try congruence.
  unfold tracked. rewrite Hw1, Hi1, Hc1. by apply agree_no_stray.
Qed.

(** * Committing the resolution *)

(** * Saving the session *)

(** C2, as amended.  [saveState] touches nothing but the session store,
    and works by one [os.MkdirAll] followed by separate [os.WriteFile]
    calls.  When it returns no error the session is present and each of
    the four fields reads back as the trimmed string that was saved.
    When it returns an error, either the directory could not be made and
    the store is as it was, or a write failed and the session directory
    is there all the same: [isAnticipateInProgress] then answers true
    for a record that may lack fields. *)
Theorem save_outcomes (stateDir targetBranch origHead targetSHA currentBranch : string)
    (w w' : World) (r : result unit) :
  saveState stateDir targetBranch origHead targetSHA currentBranch w = (r, w') →
  env w' = env w ∧ repo w' = repo w
  ∧ (∃ writes, calls w w' = OsMkdirAll stateDir :: writes ∧ Forall isWrite writes)
  ∧ (r = Ok tt →
       fst (isAnticipateInProgress stateDir w') = Ok true
       ∧ field w' stateDir "target" = Some (TrimSpace targetBranch)
       ∧ field w' stateDir "orig_head" = Some (TrimSpace origHead)
       ∧ field w' stateDir "target_sha" = Some (TrimSpace targetSHA)
       ∧ field w' stateDir "current_branch" = Some (TrimSpace currentBranch))
  ∧ (r ≠ Ok tt →
       (mkdir_fails (env w) stateDir = true ∧ dirs w' = dirs w)
       ∨ (mkdir_fails (env w) stateDir = false
          ∧ fst (isAnticipateInProgress stateDir w') = Ok true)).
Proof.
  intros Hrun.
  apply saveState_run in Hrun as (He & Hr & _ & _ & (l & Hl & Hw) & Hok & Hbad).
  split; [exact He|]. split; [exact Hr|].
  split. { exists l. split; [|exact Hw]. by apply calls_app. }
  split.
  - intros Hr'. specialize (Hok Hr').
    assert (dirs w' !! stateDir
            = Some (sessionRecord targetBranch origHead targetSHA currentBranch
                      ∪ default ∅ (dirs w !! stateDir))) as Hdir.
    { by rewrite Hok, lookup_insert_eq. }
    split.
    + rewrite isAnticipateInProgress_eq. cbn [fst]. by rewrite Hdir, bool_decide_true.
    + by apply (field_sessionRecord _ _ _ _ _ _ _ Hdir).
  - intros Hr'. destruct (Hbad Hr') as [[Hm Hd]|[Hm Hd]]; [by left|right].
    split; [exact Hm|].
    rewrite isAnticipateInProgress_eq. cbn [fst]. by rewrite bool_decide_true.
Qed.

Lemma save_outcomes_witness :
  let run := saveState Demo.stateDir "dev" Demo.feature_id Demo.dev_id "feature"
               (Demo.fresh Demo.calm) in
  fst run = Ok tt
  ∧ fst (isAnticipateInProgress Demo.stateDir (snd run)) = Ok true
  ∧ field (snd run) Demo.stateDir "target" = Some (TrimSpace "dev")
  ∧ field (snd run) Demo.stateDir "orig_head" = Some (TrimSpace Demo.feature_id)
  ∧ field (snd run) Demo.stateDir "target_sha" = Some (TrimSpace Demo.dev_id)
  ∧ field (snd run) Demo.stateDir "current_branch" = Some (TrimSpace "feature").
Proof.
  intros run.
  assert (fst run = Ok tt) as Hok by (vm_compute; reflexivity).
  split; [exact Hok|].
  exact (proj1 (proj2 (proj2 (proj2
    (save_outcomes Demo.stateDir "dev" Demo.feature_id Demo.dev_id "feature"
       (Demo.fresh Demo.calm) (snd run) (fst run) (surjective_pairing run))))) Hok).
Defined.

(** C2 as stated fails: when the write of [target_sha] is refused, the
    save returns an error, and yet the session that was not there before
    is reported present afterwards, with [target_sha] missing. *)
Lemma save_is_not_atomic :
  let w := Demo.fresh Demo.faulty in
  let run := saveState Demo.stateDir "dev" Demo.feature_id Demo.dev_id "feature" w in
  fst run = Err (Errorf "open .git/anticipate/target_sha: permission denied")
  ∧ fst (isAnticipateInProgress Demo.stateDir w) = Ok false
  ∧ fst (isAnticipateInProgress Demo.stateDir (snd run)) = Ok true
  ∧ field (snd run) Demo.stateDir "target_sha" = None
  ∧ dirs (snd run) ≠ dirs w.
Proof.
  cbv zeta. split; [vm_compute; reflexivity|]. split; [vm_compute; reflexivity|].
  split; [vm_compute; reflexivity|]. split; [vm_compute; reflexivity|].
  by_compute.
Qed.
(** * The theorems at work on the demo repository *)

Lemma start_checks_in_order_witness :
  (∃ e w', startAnticipate Demo.stateDir "dev" (Demo.started Demo.calm) = (Err e, w')
     ∧ exitCode (Err e) = ExitError
     ∧ unchanged (Demo.started Demo.calm) w'
     ∧ calls (Demo.started Demo.calm) w' = [OsStat Demo.stateDir])
  ∧ (∃ e w', startAnticipate Demo.stateDir "dev" Demo.dirty = (Err e, w')
       ∧ exitCode (Err e) = ExitError
       ∧ unchanged Demo.dirty w'
       ∧ calls Demo.dirty w' = [OsStat Demo.stateDir; Git StatusPorcelain])
  ∧ (∃ e w', startAnticipate Demo.stateDir "nowhere" (Demo.fresh Demo.calm) = (Err e, w')
       ∧ e = Errorf "target branch 'nowhere' does not exist"
       ∧ unchanged (Demo.fresh Demo.calm) w').
Proof.
  split; [|split].
  - destruct (proj1 (start_checks_in_order Demo.stateDir "dev" (Demo.started Demo.calm)))
      as (e & w' & Hrun & _ & Hx & Hun & _ & Hc); [by_compute|].
    exists e, w'. split; [exact Hrun|]. split; [exact Hx|]. split; [exact Hun|exact Hc].
  - destruct (proj1 (proj2 (start_checks_in_order Demo.stateDir "dev" Demo.dirty)) ".git")
      as (e & w' & Hrun & _ & Hx & Hun & Hc);
      [vm_compute; reflexivity|vm_compute; reflexivity|by_compute|].
    exists e, w'. split; [exact Hrun|]. split; [exact Hx|]. split; [exact Hun|exact Hc].
  - destruct (proj2 (proj2 (start_checks_in_order Demo.stateDir "nowhere"
                              (Demo.fresh Demo.calm))) ".git")
      as (e & w' & Hrun & He & _ & Hun & _);
      [vm_compute; reflexivity|vm_compute; reflexivity|by_compute|by_compute
      |vm_compute; reflexivity|].
    exists e, w'. split; [exact Hrun|]. split; [exact He|exact Hun].
Defined.


Lemma session_saved_before_merge_witness :
  let run := startAnticipate Demo.stateDir "dev" (Demo.fresh Demo.calm) in
  ∃ w1 before after,
    startPrefix Demo.stateDir "dev" (Demo.fresh Demo.calm)
    = (Ok ("feature", Demo.feature_id, Demo.dev_id), w1)
    ∧ calls (Demo.fresh Demo.calm) (snd run) = before ++ Git (Merge "dev") :: after
    ∧ (Git (Merge "dev") ∉ before)
    ∧ OsMkdirAll Demo.stateDir ∈ before
    ∧ dirs w1 !! Demo.stateDir
      = Some (sessionRecord "dev" Demo.feature_id Demo.dev_id "feature").
Proof.
  intros run.
  destruct (session_saved_before_merge Demo.stateDir "dev" (Demo.fresh Demo.calm)
              (fst run) (snd run) (surjective_pairing run))
    as (cb & oh & ts & w1 & before & after & Hpre & _ & _ & Hc & Hnot & Hmk & Hd & _).
  { by_compute. }
  assert (fst (startPrefix Demo.stateDir "dev" (Demo.fresh Demo.calm))
          = Ok ("feature", Demo.feature_id, Demo.dev_id)) as Hv
    by (vm_compute; reflexivity).
  rewrite Hpre in Hv. injection Hv as -> -> ->.
  exists w1, before, after.
  split; [exact Hpre|]. split; [exact Hc|]. split; [exact Hnot|]. split; [exact Hmk|exact Hd].
Defined.


Lemma status_shows_short_tip_witness :
  ∃ w', showStatus Demo.stateDir (Demo.started Demo.calm) = (Ok tt, w')
    ∧ unchanged (Demo.started Demo.calm) w'
    ∧ truncateSHA Demo.feature_id = "f1f1f1f1"
    ∧ ("Original HEAD:   f1f1f1f1" +:+ LF) ∈ printed (Demo.started Demo.calm) w'.
Proof.
  destruct (status_shows_short_tip Demo.stateDir (Demo.started Demo.calm))
    as (w' & Hrun & _ & Hun & Htip).
  destruct (Htip (sessionRecord "dev" Demo.feature_id Demo.dev_id "feature")
              (list_byte_of_string Demo.feature_id)) as [Ht Hp].
  - by_compute.
  - by_compute.
  - exists w'. split; [exact Hrun|]. split; [exact Hun|].
    split; [vm_compute; reflexivity|]. exact Hp.
Defined.



(** * What a computation leaves alone *)

Section keeps.
Context (R : relation World) {HR : PreOrder R}.

Lemma keeps_ret {A} (a : A) : keeps R (ret a).
Proof. intros w r w' [= <- <-]. reflexivity. Qed.

Lemma keeps_fail {A} e : keeps R (@fail A e).
Proof. intros w r w' [= <- <-]. reflexivity. Qed.

Lemma keeps_bind {A B} (m : M A) (k : A → M B) :
  keeps R m → (∀ a, keeps R (k a)) → keeps R (bind m k).
Proof.
  intros Hm Hk w r w' Hrun. unfold bind in Hrun.
  destruct (m w) as [[a|e] w1] eqn:E.
  - etrans; [exact (Hm _ _ _ E)|exact (Hk _ _ _ _ Hrun)].
  - injection Hrun as <- <-. exact (Hm _ _ _ E).
Qed.

Lemma keeps_onError {A} f (m : M A) : keeps R m → keeps R (onError f m).
Proof.
  intros Hm w r w' Hrun. unfold onError in Hrun.
  destruct (m w) as [[a|e] w1] eqn:E; injection Hrun as <- <-; exact (Hm _ _ _ E).
Qed.

Lemma keeps_ignoreError {A} (m : M A) : keeps R m → keeps R (ignoreError m).
Proof.
  intros Hm w r w' Hrun. unfold ignoreError in Hrun.
  destruct (m w) as [r1 w1] eqn:E. injection Hrun as <- <-. exact (Hm _ _ _ E).
Qed.

Lemma keeps_orDefault {A} (d : A) (m : M A) : keeps R m → keeps R (orDefault d m).
Proof.
  intros Hm w r w' Hrun. unfold orDefault in Hrun.
  destruct (m w) as [[a|e] w1] eqn:E; injection Hrun as <- <-; exact (Hm _ _ _ E).
Qed.

Lemma keeps_fails (m : M unit) : keeps R m → keeps R (fails m).
Proof.
  intros Hm w r w' Hrun. unfold fails in Hrun.
  destruct (m w) as [[a|e] w1] eqn:E; injection Hrun as <- <-; exact (Hm _ _ _ E).
Qed.

Lemma keeps_forEach {A} (l : list A) (body : A → M unit) :
  (∀ x, keeps R (body x)) → keeps R (forEach l body).
Proof.
  intros Hb. induction l as [|x l IH]; cbn [forEach].
  - apply keeps_ret.
  - apply keeps_bind; [apply Hb|intros _; apply IH].
Qed.

Lemma keeps_rangeMap {V} (m : gmap string V) (body : string → V → M unit) :
  (∀ k v, keeps R (body k v)) → keeps R (rangeMap m body).
Proof.
  intros Hb w r w' Hrun. unfold rangeMap in Hrun.
  refine (keeps_forEach _ _ _ _ _ _ Hrun).
  intros k. destruct (m !! k); [apply Hb|apply keeps_ret].
Qed.

Lemma keeps_if {A} (b : bool) (m1 m2 : M A) :
  keeps R m1 → keeps R m2 → keeps R (if b then m1 else m2).
Proof. by destruct b. Qed.

Lemma keeps_ifdec {A} (Q : Prop) (d : {Q} + {¬ Q}) (m1 m2 : M A) :
  keeps R m1 → keeps R m2 → keeps R (if d then m1 else m2).
Proof. by destruct d. Qed.

Lemma keeps_isAnticipateInProgress d :
  keeps R (os_Stat d) → keeps R (isAnticipateInProgress d).
Proof.
  intros Hm w r w' Hrun. unfold isAnticipateInProgress in Hrun.
  destruct (os_Stat d w) as [[a|e] w1] eqn:E; injection Hrun as <- <-; exact (Hm _ _ _ E).
Qed.

Lemma keeps_hasUncommittedChanges :
  keeps R (Output StatusPorcelain) → keeps R hasUncommittedChanges.
Proof.
  intros Hm w r w' Hrun. unfold hasUncommittedChanges in Hrun.
  destruct (Output _ w) as [[a|e] w1] eqn:E; injection Hrun as <- <-; exact (Hm _ _ _ E).
Qed.

Lemma keeps_hasUnmergedFiles :
  keeps R (Output LsFilesU) → keeps R hasUnmergedFiles.
Proof.
  intros Hm w r w' Hrun. unfold hasUnmergedFiles in Hrun.
  destruct (Output _ w) as [[a|e] w1] eqn:E; injection Hrun as <- <-; exact (Hm _ _ _ E).
Qed.

Lemma keeps_getConflictingFiles :
  keeps R (Output DiffNameOnlyU) → keeps R getConflictingFiles.
Proof.
  intros Hm w r w' Hrun. unfold getConflictingFiles in Hrun.
  destruct (Output _ w) as [[a|e] w1] eqn:E; injection Hrun as <- <-; exact (Hm _ _ _ E).
Qed.

Lemma keeps_readResolved del ch fc :
  (∀ f, keeps R (os_ReadFile f)) → keeps R (readResolved del ch fc).
Proof.
  intros Hread. revert fc. induction ch as [|f ch IH]; intros fc; cbn [readResolved].
  - apply keeps_ret.
  - destruct (default false (del !! f)); [apply IH|].
    apply keeps_bind; [|intros ?; apply IH]. apply keeps_onError, Hread.
Qed.

Lemma keepsOnError_keeps {A} (m : M A) : keeps R m → keepsOnError R m.
Proof. intros Hm w e w' Hrun. exact (Hm _ _ _ Hrun). Qed.

Lemma keepsOnError_neverFails {A} (m : M A) : neverFails m → keepsOnError R m.
Proof. intros Hm w e w' Hrun. destruct (Hm w) as [a Ha]. by rewrite Hrun in Ha. Qed.

Lemma keepsOnError_bind {A B} (m : M A) (k : A → M B) :
  keeps R m → (∀ a, keepsOnError R (k a)) → keepsOnError R (bind m k).
Proof.
  intros Hm Hk w e w' Hrun. unfold bind in Hrun.
  destruct (m w) as [[a|e1] w1] eqn:E.
  - etrans; [exact (Hm _ _ _ E)|exact (Hk _ _ _ _ Hrun)].
  - injection Hrun as <- <-. exact (Hm _ _ _ E).
Qed.

Lemma keepsOnError_if {A} (b : bool) (m1 m2 : M A) :
  keepsOnError R m1 → keepsOnError R m2 → keepsOnError R (if b then m1 else m2).
Proof. by destruct b. Qed.
End keeps.

Lemma neverFails_ret {A} (a : A) : neverFails (ret a).
Proof. intros w. by exists a. Qed.

Lemma neverFails_bind {A B} (m : M A) (k : A → M B) :
  neverFails m → (∀ a, neverFails (k a)) → neverFails (bind m k).
Proof.
  intros Hm Hk w. unfold bind. destruct (Hm w) as [a Ha].
  destruct (m w) as [[a'|e] w1]; [|done]. apply Hk.
Qed.

Lemma neverFails_Printf s : neverFails (Printf s).
Proof. intros w. by exists tt. Qed.

Lemma neverFails_ignoreError {A} (m : M A) : neverFails (ignoreError m).
Proof. intros w. by exists tt. Qed.

Lemma sameOn_PreOrder {X} (f : World → X) : PreOrder (sameOn f).
Proof.
  split; [by intros w|]. intros w1 w2 w3 H1 H2. unfold sameOn in *. congruence.
Qed.

Create HintDb keeps.
#[export] Hint Resolve sameOn_PreOrder : keeps.

Ltac preorder := solve [auto with keeps].

Lemma git_exec_frame c w :
  env (snd (git_exec c w)) = env w ∧ gitdir (snd (git_exec c w)) = gitdir w
  ∧ branch (snd (git_exec c w)) = branch w ∧ dirs (snd (git_exec c w)) = dirs w
  ∧ stdout (snd (git_exec c w)) = stdout w ∧ stderr (snd (git_exec c w)) = stderr w.
Proof.
  unfold git_exec. destruct (gitdir w) eqn:Hg; [|done].
  destruct c; try done; cbn [snd].
  - by destruct (resolve w rev).
  - by destruct (HEAD w).
  - by destruct (resolve w rev).
  - destruct (resolve w b1); [|done]. destruct (resolve w b2); [|done].
    by destruct (merge_base _ _ _).
  - destruct (git_merge b w) as [[ok out] wm] eqn:E.
    apply git_merge_facts in E as (He & Hg' & Hb & _ & _ & Hd & Hso & Hse & _).
    cbn [snd]. by rewrite He, Hg', Hb, Hd, Hso, Hse.
  - by destruct (merge_head w).
  - destruct (resolve w rev); [|done]. by destruct (objects w !! _).
  - destruct (worktree w !! f); [done|]. by case_decide.
  - by destruct (_ || _).
Qed.

Section sameOn.
Context {X : Type} (f : World → X).
Hypothesis f_record : ∀ c w, f (record c w) = f w.

Lemma same_Printf s : (∀ g w, f (set_stdout g w) = f w) → keeps (sameOn f) (Printf s).
Proof. intros Hf w r w' [= <- <-]. apply Hf. Qed.

Lemma same_Run c : (∀ w, f (snd (git_exec c w)) = f w) → keeps (sameOn f) (Run c).
Proof.
  intros Hf w r w' Hrun. unfold Run in Hrun. unfold sameOn.
  transitivity (f (snd (git_exec c (record (Git c) w)))); [|by rewrite Hf, f_record].
  by destruct (git_exec c (record (Git c) w)) as [[[] out] w1]; injection Hrun as <- <-.
Qed.

Lemma same_Output c : (∀ w, f (snd (git_exec c w)) = f w) → keeps (sameOn f) (Output c).
Proof.
  intros Hf w r w' Hrun. unfold Output in Hrun. unfold sameOn.
  transitivity (f (snd (git_exec c (record (Git c) w)))); [|by rewrite Hf, f_record].
  by destruct (git_exec c (record (Git c) w)) as [[[] out] w1]; injection Hrun as <- <-.
Qed.

Lemma same_CombinedOutput c :
  (∀ w, f (snd (git_exec c w)) = f w) → keeps (sameOn f) (CombinedOutput c).
Proof.
  intros Hf w r w' Hrun. unfold CombinedOutput in Hrun. unfold sameOn.
  transitivity (f (snd (git_exec c (record (Git c) w)))); [|by rewrite Hf, f_record].
  by destruct (git_exec c (record (Git c) w)) as [[[] out] w1]; injection Hrun as <- <-.
Qed.

Lemma same_os_Stat d : keeps (sameOn f) (os_Stat d).
Proof.
  intros w r w' Hrun. unfold os_Stat in Hrun.
  destruct (dirs w !! d); injection Hrun as <- <-; apply f_record.
Qed.

Lemma same_os_ReadFileIn d n : keeps (sameOn f) (os_ReadFileIn d n).
Proof.
  intros w r w' Hrun. unfold os_ReadFileIn in Hrun.
  destruct (dirs w !! d ≫= _); injection Hrun as <- <-; apply f_record.
Qed.

Lemma same_os_ReadFile p : keeps (sameOn f) (os_ReadFile p).
Proof.
  intros w r w' Hrun. unfold os_ReadFile in Hrun.
  destruct (worktree w !! p); injection Hrun as <- <-; apply f_record.
Qed.

Lemma same_os_MkdirAll_tree d : keeps (sameOn f) (os_MkdirAll_tree d).
Proof. intros w r w' [= <- <-]. apply f_record. Qed.

Lemma same_os_WriteFile p data :
  (∀ g w, f (set_worktree g w) = f w) → keeps (sameOn f) (os_WriteFile p data).
Proof.
  intros Hf w r w' Hrun. unfold os_WriteFile in Hrun. unfold sameOn.
  destruct (write_fails _ _); injection Hrun as <- <-; by rewrite ?Hf, f_record.
Qed.

Lemma same_os_Remove p :
  (∀ g w, f (set_worktree g w) = f w) → keeps (sameOn f) (os_Remove p).
Proof.
  intros Hf w r w' Hrun. unfold os_Remove in Hrun. unfold sameOn.
  destruct (worktree w !! p); injection Hrun as <- <-; by rewrite ?Hf, f_record.
Qed.

Lemma same_os_MkdirAll d :
  (∀ g w, f (set_dirs g w) = f w) → keeps (sameOn f) (os_MkdirAll d).
Proof.
  intros Hf w r w' Hrun. unfold os_MkdirAll in Hrun. unfold sameOn.
  destruct (mkdir_fails _ _); injection Hrun as <- <-; by rewrite ?Hf, f_record.
Qed.

Lemma same_os_RemoveAll d :
  (∀ g w, f (set_dirs g w) = f w) → keeps (sameOn f) (os_RemoveAll d).
Proof. intros Hf w r w' [= <- <-]. unfold sameOn. by rewrite Hf, f_record. Qed.

Lemma same_os_WriteFileIn d n data :
  (∀ g w, f (set_dirs g w) = f w) → keeps (sameOn f) (os_WriteFileIn d n data).
Proof.
  intros Hf w r w' Hrun. unfold os_WriteFileIn in Hrun. unfold sameOn.
  destruct (dirs w !! d); [destruct (write_fails _ _)|];
    injection Hrun as <- <-; by rewrite ?Hf, f_record.
Qed.
End sameOn.

(** Break a computation into its steps. *)
Ltac keeps_tac :=
  repeat first
    [ apply keeps_ret; preorder | apply keeps_fail; preorder
    | apply keeps_bind; [preorder| |intros ?]
    | apply keeps_onError | apply keeps_ignoreError
    | apply keeps_orDefault | apply keeps_fails | apply keeps_if | apply keeps_ifdec
    | apply keeps_forEach; [preorder|intros ?] | apply keeps_rangeMap; [preorder|intros ? ?]
    | apply keeps_isAnticipateInProgress | apply keeps_hasUncommittedChanges
    | apply keeps_hasUnmergedFiles | apply keeps_getConflictingFiles
    | apply keeps_readResolved; [preorder|intros ?]
    | match goal with
      | |- keeps _ (match ?x with _ => _ end) => destruct x
      end ].

(** The steps themselves, for a field that git and the log leave alone. *)
Ltac same_tac :=
  first
    [ apply same_Printf | apply same_Run | apply same_Output | apply same_CombinedOutput
    | apply same_os_Stat | apply same_os_ReadFileIn | apply same_os_ReadFile
    | apply same_os_MkdirAll_tree | apply same_os_WriteFile | apply same_os_Remove
    | apply same_os_MkdirAll | apply same_os_RemoveAll | apply same_os_WriteFileIn ];
  try (intros; first [reflexivity | apply git_exec_frame]).

Lemma stderr_runAnticipate cmd args : keeps (sameOn stderr) (runAnticipate cmd args).
Proof.
  unfold runAnticipate, validateRepo, getGitDir, showStatus, abortAnticipate,
    continueAnticipate, startAnticipate, saveState, readStateFile, removeState, abortMerge,
    performMerge, hasStagedOrUnstagedChanges, getCurrentBranch, validateBranchExists,
    getRevisionSHA, getMergeBase.
  keeps_tac; same_tac.
Qed.
(** * The command line *)


(** X2.  Outside a git repository every invocation with at most one
    argument, whatever its flags, exits with status 2 after the single
    call [git rev-parse --git-dir], prints ["Error: not a git
    repository"] on the standard error and changes nothing. *)
Theorem outside_a_repository (cmd : Flags) (args : list string) (w : World) :
  gitdir w = None →
  length args ≤ 1 →
  ∃ w', main cmd args w = (ExitError, w')
    ∧ runAnticipate cmd args w
      = (Err (Errorf "not a git repository"), record (Git RevParseGitDir) w)
    ∧ unchanged w w'
    ∧ calls w w' = [Git RevParseGitDir]
    ∧ stdout w' = stdout w
    ∧ stderr w' = stderr w ++ ["Error: not a git repository" +:+ LF].
Proof.
  intros Hgd Hlen.
  assert (runAnticipate cmd args w
          = (Err (Errorf "not a git repository"), record (Git RevParseGitDir) w)) as Hrun.
  { unfold runAnticipate. unfold bind at 1. by rewrite validateRepo_norepo. }
  unfold main. replace (1 <? length args) with false
    by (symmetry; apply Nat.ltb_ge; exact Hlen).
  rewrite Hrun. rewrite decide_False by done.
  eexists. split; [reflexivity|]. split; [reflexivity|].
  split; [done|]. split; [by apply calls_app|]. split; [done|]. done.
Qed.

Lemma outside_a_repository_witness :
  ∃ w', main (mkFlags true false false false) [] Demo.outside = (ExitError, w')
    ∧ unchanged Demo.outside w'
    ∧ stderr w' = ["Error: not a git repository" +:+ LF].
Proof.
  destruct (outside_a_repository (mkFlags true false false false) [] Demo.outside)
    as (w' & Hmain & _ & Hun & _ & _ & Herr).
  - reflexivity.
  - cbn [length]. lia.
  - exists w'. split; [exact Hmain|]. split; [exact Hun|exact Herr].
Defined.

(** X3.  Inside a repository the session directory is [anticipate]
    under the trimmed answer of [git rev-parse --git-dir], and the mode
    is chosen in this order: [--status] before [--abort] before
    [--continue] before a target branch; a flag makes the program
    ignore the argument, and [--no-verify] reaches [continue] only. *)
Theorem mode_precedence (cmd : Flags) (args : list string) (w : World) (gd : string) :
  gitdir w = Some gd →
  let stateDir := filepath_Join (TrimSpace gd) anticipateDir in
  let w1 := record (Git RevParseGitDir) (record (Git RevParseGitDir) w) in
  (statusFlag cmd = true → runAnticipate cmd args w = showStatus stateDir w1)
  ∧ (statusFlag cmd = false → abortFlag cmd = true →
     runAnticipate cmd args w = abortAnticipate stateDir w1)
  ∧ (statusFlag cmd = false → abortFlag cmd = false → continueFlag cmd = true →
     runAnticipate cmd args w = continueAnticipate stateDir (noVerifyFlag cmd) w1)
  ∧ (statusFlag cmd = false → abortFlag cmd = false → continueFlag cmd = false →
     ∀ targetBranch rest, args = targetBranch :: rest →
     runAnticipate cmd args w = startAnticipate stateDir targetBranch w1).
Proof.
  intros Hgd stateDir w1.
  assert (runAnticipate cmd args w
          = (if statusFlag cmd then showStatus stateDir
             else if abortFlag cmd then abortAnticipate stateDir
             else if continueFlag cmd then continueAnticipate stateDir (noVerifyFlag cmd)
             else match args with
                  | [] => let* inProgress := isAnticipateInProgress stateDir in
                          if inProgress then showStatus stateDir else fail usageError
                  | targetBranch :: _ => startAnticipate stateDir targetBranch
                  end) w1) as Hrun.
  { unfold runAnticipate. step_with (validateRepo_run gd).
    unfold bind at 1. erewrite onError_ok by (by eapply getGitDir_run). reflexivity. }
  rewrite Hrun. split; [by intros ->|]. split; [by intros -> ->|].
  split; [by intros -> -> ->|]. by intros -> -> -> tb rest ->.
Qed.

Lemma mode_precedence_witness :
  runAnticipate (mkFlags true true true false) ["dev"] (Demo.started Demo.calm)
  = showStatus Demo.stateDir
      (record (Git RevParseGitDir) (record (Git RevParseGitDir) (Demo.started Demo.calm))).
Proof.
  refine (proj1 (mode_precedence (mkFlags true true true false) ["dev"]
                   (Demo.started Demo.calm) ".git" _) eq_refl).
  vm_compute. reflexivity.
Defined.
(** * Failures keep the session *)

Ltac neverFails_tac :=
  repeat first
    [ apply neverFails_ret | apply neverFails_Printf | apply neverFails_ignoreError
    | apply neverFails_bind; [|intros ?] ].

(** Break a computation into its steps, for the runs that end in an error. *)
Ltac onError_tac :=
  repeat first
    [ apply keepsOnError_neverFails; solve [neverFails_tac]
    | apply keepsOnError_bind; [preorder|solve [keeps_tac; same_tac]|intros ?]
    | apply keepsOnError_if
    | apply keepsOnError_keeps; solve [keeps_tac; same_tac] ].

Lemma dirs_continueCapture sd : keepsOnError (sameOn dirs) (continueCapture sd).
Proof.
  unfold continueCapture, readStateFile, abortMerge, removeState.
  onError_tac.
Qed.

Lemma dirs_continueStage s : keeps (sameOn dirs) (continueStage s).
Proof.
  unfold continueStage, continueReplay, abortMerge.
  keeps_tac; same_tac.
Qed.

Lemma dirs_continueCommit sd nv s : keepsOnError (sameOn dirs) (continueCommit sd nv s).
Proof. unfold continueCommit, removeState. onError_tac. Qed.

(** X4.  A [continue] that returns an error, whichever step failed, has
    left the session directory and every file in it exactly as they
    were: the session can still be continued or aborted. *)
Theorem failed_continue_keeps_session (stateDir : string) (noVerify : bool)
    (w w' : World) (e : error) :
  continueAnticipate stateDir noVerify w = (Err e, w') →
  dirs w' = dirs w.
Proof.
  rewrite continue_split. unfold bind at 1.
  destruct (continueCapture stateDir w) as [[[s|]|e1] w1] eqn:Ecap.
  - apply capture_run in Ecap as (_ & _ & _ & _ & _ & _ & _ & _ & _ & _ & Hd1 & _).
    unfold bind at 1.
    destruct (continueStage s w1) as [[[]|e5] w5] eqn:Est.
    + intros Ecom. rewrite (dirs_continueCommit _ _ _ _ _ _ Ecom).
      rewrite (dirs_continueStage _ _ _ _ Est). exact Hd1.
    + intros [= <- <-]. rewrite (dirs_continueStage _ _ _ _ Est). exact Hd1.
  - intros [=].
  - intros [= <- <-]. exact (dirs_continueCapture _ _ _ _ Ecap).
Qed.

Lemma failed_continue_keeps_session_witness :
  let run := continueAnticipate Demo.stateDir false (Demo.resolved Demo.strict) in
  dirs (snd run) = dirs (Demo.resolved Demo.strict).
Proof.
  intros run.
  assert (∃ e, fst run = Err e) as [e He] by (vm_compute; eexists; reflexivity).
  exact (failed_continue_keeps_session Demo.stateDir false (Demo.resolved Demo.strict)
           (snd run) e (run_eq run _ He)).
Defined.

Lemma Run_log c w : log (snd (Run c w)) = log w ++ [Git c].
Proof.
  unfold Run. pose proof (git_exec_log c (record (Git c) w)) as Hlog.
  destruct (git_exec c (record (Git c) w)) as [[[] out] w1]; exact Hlog.
Qed.

(** X5.  An [abort] that returns an error has left the session directory
    and every file in it exactly as they were.  When there is a session
    the failure comes after [git merge --abort] has run: the merge is
    discarded before [orig_head] is read. *)
Theorem failed_abort_keeps_session (stateDir : string) (w w' : World) (e : error) :
  abortAnticipate stateDir w = (Err e, w') →
  dirs w' = dirs w
  ∧ (is_Some (dirs w !! stateDir) →
     ∃ l, calls w w' = OsStat stateDir :: Git MergeAbort
                       :: OsReadFile (filepath_Join stateDir "orig_head") :: l).
Proof.
  intros Hrun. split.
  { revert w e w' Hrun. change (keepsOnError (sameOn dirs) (abortAnticipate stateDir)).
    unfold abortAnticipate, readStateFile, abortMerge, removeState.
    onError_tac. }
  intros Hsd. revert Hrun.
  unfold abortAnticipate. step_with isAnticipateInProgress_eq.
  rewrite bool_decide_true by done. cbn [negb].
  rewrite bind_Printf. unfold bind at 1, abortMerge, ignoreError. cbn [fst].
  set (w2 := snd (Run MergeAbort _)).
  assert (log w2 = log w ++ [OsStat stateDir; Git MergeAbort]) as Hl2.
  { unfold w2. rewrite Run_log. projs. by rewrite <- app_assoc. }
  clearbody w2.
  step_on readStateFile_eq.
  destruct (field w2 stateDir "orig_head") as [tip|]; cbv beta iota.
  - rewrite bind_Printf. unfold bind at 1, onError.
    destruct (Run (ResetHard tip) _) as [[[]|e1] w3] eqn:Ereset.
    + step_with removeState_run. rewrite bind_Printf. intros [=].
    + intros [= <- <-]. exists [Git (ResetHard tip)].
      apply calls_app. pose proof (Run_log (ResetHard tip)) as Hl3.
      specialize (Hl3 (set_stdout (λ o, o ++ ["✔ Restoring original state..." +:+ LF])
                         (record (OsReadFile (filepath_Join stateDir "orig_head")) w2))).
      rewrite Ereset in Hl3. cbn [snd] in Hl3. rewrite Hl3. projs. rewrite Hl2.
      by rewrite <- !app_assoc.
  - intros [= <- <-]. exists []. apply calls_app. projs. rewrite Hl2.
    by rewrite <- !app_assoc.
Qed.

Lemma failed_abort_keeps_session_witness :
  let run := abortAnticipate Demo.stateDir Demo.headless in
  fst run = Err (Errorf ("failed to read original HEAD: "
                         +:+ "open .git/anticipate/orig_head: no such file or directory"))
  ∧ dirs (snd run) = dirs Demo.headless
  ∧ conflicted Demo.headless ≠ ∅ ∧ conflicted (snd run) = ∅.
Proof.
  intros run.
  assert (fst run = Err (Errorf ("failed to read original HEAD: "
            +:+ "open .git/anticipate/orig_head: no such file or directory"))) as He
    by (vm_compute; reflexivity).
  split; [exact He|]. split.
  - exact (proj1 (failed_abort_keeps_session Demo.stateDir Demo.headless (snd run) _
                    (run_eq run _ He))).
  - split; by_compute.
Defined.
(** * Continue needs the whole record *)

Lemma unmergedNow_none w : conflicted w = ∅ → unmergedNow w = false.
Proof.
  intros Hc. unfold unmergedNow. destruct (gitdir w); [|done].
  apply bool_decide_eq_false. by intros [].
Qed.

Lemma continue_without_session sd nv w :
  dirs w !! sd = None →
  continueAnticipate sd nv w
  = (Err (Errorf "no anticipate in progress"), record (OsStat sd) w).
Proof.
  intros Hd. unfold continueAnticipate. step_with isAnticipateInProgress_eq.
  rewrite bool_decide_false; [done|]. rewrite Hd. by intros [??].
Qed.

(** X6.  [continue] reads the whole session record before it changes
    anything.  Without a session directory it fails with "no anticipate
    in progress" after the one [os.Stat].  With a session, no unmerged
    path and one of the four files missing, it fails with an error
    other than [errConflicts] (exit status 2), having made only
    read-only calls and changed nothing: not even [git add -u] has
    run. *)
Theorem continue_needs_the_record (stateDir : string) (noVerify : bool) (w : World) :
  (dirs w !! stateDir = None →
   continueAnticipate stateDir noVerify w
   = (Err (Errorf "no anticipate in progress"), record (OsStat stateDir) w))
  ∧ (∀ name,
       name ∈ ["target"; "target_sha"; "current_branch"; "orig_head"] →
       is_Some (dirs w !! stateDir) → conflicted w = ∅ →
       field w stateDir name = None →
       ∃ e w', continueAnticipate stateDir noVerify w = (Err e, w')
         ∧ exitCode (Err e) = ExitError
         ∧ unchanged w w'
         ∧ Forall isQuery (calls w w')
         ∧ printed w w' = []).
Proof.
  split.
  - apply continue_without_session.
  - intros name Hname Hsd Hc Hmiss.
    unfold continueAnticipate. step_with isAnticipateInProgress_eq.
    rewrite bool_decide_true by done. cbn [negb].
    step_with hasUnmergedFiles_run. autorewrite with frame.
    rewrite (unmergedNow_none _ Hc).
    step_on readStateFile_eq; autorewrite with frame.
    destruct (field w stateDir "target") eqn:E1.
    2:{ eexists _, _. split; [reflexivity|]. split; [done|]. split; [done|].
        split; [|by apply printed_app; rewrite app_nil_r].
        erewrite calls_app by (wsimpl; rewrite <- ?app_assoc; reflexivity).
        by repeat constructor. }
    step_on readStateFile_eq; autorewrite with frame.
    destruct (field w stateDir "target_sha") eqn:E2.
    2:{ eexists _, _. split; [reflexivity|]. split; [done|]. split; [done|].
        split; [|by apply printed_app; rewrite app_nil_r].
        erewrite calls_app by (wsimpl; rewrite <- ?app_assoc; reflexivity).
        by repeat constructor. }
    step_on readStateFile_eq; autorewrite with frame.
    destruct (field w stateDir "current_branch") eqn:E3.
    2:{ eexists _, _. split; [reflexivity|]. split; [done|]. split; [done|].
        split; [|by apply printed_app; rewrite app_nil_r].
        erewrite calls_app by (wsimpl; rewrite <- ?app_assoc; reflexivity).
        by repeat constructor. }
    step_on readStateFile_eq; autorewrite with frame.
    destruct (field w stateDir "orig_head") eqn:E4.
    2:{ eexists _, _. split; [reflexivity|]. split; [done|]. split; [done|].
        split; [|by apply printed_app; rewrite app_nil_r].
        erewrite calls_app by (wsimpl; rewrite <- ?app_assoc; reflexivity).
        by repeat constructor. }
    exfalso.
    repeat (apply elem_of_cons in Hname as [->|Hname]; [congruence|]).
    by apply elem_of_nil in Hname.
Qed.

Lemma continue_needs_the_record_witness :
  ∃ e w', continueAnticipate Demo.stateDir false
            (set_conflicted (λ _, ∅) Demo.headless) = (Err e, w')
    ∧ exitCode (Err e) = ExitError
    ∧ unchanged (set_conflicted (λ _, ∅) Demo.headless) w'.
Proof.
  destruct (proj2 (continue_needs_the_record Demo.stateDir false
                     (set_conflicted (λ _, ∅) Demo.headless)) "orig_head")
    as (e & w' & Hrun & Hx & Hun & _).
  - by_compute.
  - by_compute.
  - reflexivity.
  - vm_compute. reflexivity.
  - exists e, w'. split; [exact Hrun|]. split; [exact Hx|exact Hun].
Defined.
(** * The commit that continue makes *)

Lemma ResetHard_inv gd rev w w' :
  gitdir w = Some gd →
  Run (ResetHard rev) w = (Ok tt, w') →
  ∃ id cm, resolve w rev = Some id ∧ objects w !! id = Some cm
    ∧ w' = set_refs <[branch w := id]>
             (checkout_tree (c_tree cm) (record (Git (ResetHard rev)) w)).
Proof.
  intros Hgd. unfold Run, git_exec. rewrite gitdir_record, Hgd.
  change (resolve (record (Git (ResetHard rev)) w) rev) with (resolve w rev).
  destruct (resolve w rev) as [id|]; [|intros [=]].
  change (objects (record (Git (ResetHard rev)) w) !! id) with (objects w !! id).
  destruct (objects w !! id) as [cm|] eqn:Ho; [|intros [=]].
  intros [= <-]. exists id, cm. split; [reflexivity|]. split; [exact Ho|reflexivity].
Qed.

Lemma resolve_same w w' rev :
  refs w' = refs w → objects w' = objects w → branch w' = branch w →
  resolve w' rev = resolve w rev.
Proof. intros Hr Ho Hb. unfold resolve, HEAD. by rewrite Hr, Ho, Hb. Qed.

(** Where the replay leaves the branch and the index. *)
Lemma stage_base gd s w1 w5 :
  gitdir w1 = Some gd →
  continueStage s w1 = (Ok tt, w5) →
  ∃ id cm0,
    resolve w1 (s_origHead s) = Some id ∧ objects w1 !! id = Some cm0
    ∧ HEAD w5 = Some id ∧ merge_head w5 = None ∧ objects w5 = objects w1
    ∧ (∀ p, p ∉ s_changedFiles s → index w5 !! p = c_tree cm0 !! p).
Proof.
  intros Hgd. unfold continueStage. step_with (abortMerge_run gd).
  set (w2 := mergeAborted (record (Git MergeAbort) w1)).
  destruct (mergeAborted_facts (record (Git MergeAbort) w1))
    as (_ & Hg2 & Hb2 & Hr2 & Ho2 & _).
  fold w2 in Hg2, Hb2, Hr2, Ho2.
  rewrite gitdir_record in Hg2. rewrite branch_record in Hb2.
  rewrite refs_record in Hr2. rewrite objects_record in Ho2.
  unfold continueReplay. unfold bind at 1.
  destruct (onError _ (Run (ResetHard (s_origHead s))) w2) as [[[]|e] w3] eqn:E3;
    [|intros [=]].
  unfold onError in E3.
  destruct (Run (ResetHard (s_origHead s)) w2) as [[[]|e] w3'] eqn:E3'; [|done].
  injection E3 as ->.
  apply (ResetHard_inv gd) in E3' as (id & cm0 & Hres & Hobj & ->); [|by rewrite Hg2].
  rewrite bind_Printf. unfold bind at 1.
  match goal with |- context [rangeMap (s_fileContents s) ?body ?w0] =>
    destruct (rangeMap (s_fileContents s) body w0) as [[[]|e] w4] eqn:E4 end;
    [|intros [=]].
  apply writeBack_run in E4 as (Hof4 & _).
  destruct (removeDeleted_run (s_deletedFiles s) w4) as (w4' & E5 & Hof5 & _).
  unfold bind at 1. rewrite E5. intros E6.
  pose proof (onlyFiles_trans _ _ _ Hof4 Hof5) as Hof.
  destruct Hof as (_ & Hg & Hb & Hr & Ho & Hi & _ & Hm & _).
  rewrite gitdir_set_stdout, gitdir_set_refs, gitdir_checkout_tree, gitdir_record in Hg.
  rewrite branch_set_stdout, branch_set_refs, branch_checkout_tree, branch_record in Hb.
  rewrite refs_set_stdout, refs_set_refs, refs_checkout_tree, refs_record in Hr.
  rewrite objects_set_stdout, objects_set_refs, objects_checkout_tree, objects_record in Ho.
  rewrite index_set_stdout, index_set_refs, index_checkout_tree in Hi.
  rewrite merge_head_set_stdout, merge_head_set_refs, merge_head_checkout_tree in Hm.
  apply (stage_loop gd) in E6 as (Hoi & _ & Hix); [|by rewrite Hg, Hg2].
  specialize (Hix eq_refl).
  destruct Hoi as (_ & _ & Hb6 & Hr6 & Ho6 & _ & Hm6 & _).
  exists id, cm0.
  split. { rewrite <- Hres. symmetry. by apply resolve_same. }
  split. { by rewrite <- Ho2. }
  split. { unfold HEAD. rewrite Hr6, Hb6, Hr, Hb. apply lookup_insert_eq. }
  split. { by rewrite Hm6, Hm. }
  split. { by rewrite Ho6, Ho, Ho2. }
  intros p Hp. rewrite Hix, decide_False by done. by rewrite Hi.
Qed.

Lemma commit_made gd sd nv s w5 w' :
  gitdir w5 = Some gd →
  continueCommit sd nv s w5 = (Ok tt, w') →
  HEAD w' = Some (commit_id (env w5) (new_commit (commitMessage s) w5))
  ∧ objects w' !! commit_id (env w5) (new_commit (commitMessage s) w5)
    = Some (new_commit (commitMessage s) w5)
  ∧ merge_head w' = None ∧ conflicted w' = conflicted w5.
Proof.
  intros Hgd. unfold continueCommit. rewrite bind_Printf. unfold bind at 1.
  unfold onError at 1.
  match goal with |- context [Run ?c ?w0] =>
    destruct (Run c w0) as [r0 wc] eqn:Erun end.
  revert Erun. unfold Run, git_exec. rewrite gitdir_record, gitdir_set_stdout, Hgd.
  destruct (_ || _); [intros [= <- <-]; intros [=]|].
  intros [= <- <-]. cbv beta iota.
  step_with removeState_run. rewrite !bind_Printf. unfold ret.
  intros [= <-]. unfold HEAD. projs.
  rewrite !lookup_insert_eq. done.
Qed.


(** * Continue with nothing to commit *)

Lemma merge_head_mergeAborted w : merge_head (mergeAborted w) = None.
Proof. unfold mergeAborted. by destruct (merge_head w) eqn:E. Qed.

Lemma conflicted_mergeAborted w : conflicted w = ∅ → conflicted (mergeAborted w) = ∅.
Proof. unfold mergeAborted. by destruct (merge_head w). Qed.

(** The world in which [continue] returns when nothing is staged. *)
Lemma capture_nothing sd w w1 :
  continueCapture sd w = (Ok None, w1) →
  refs w1 = refs w ∧ objects w1 = objects w ∧ branch w1 = branch w
  ∧ merge_head w1 = None ∧ conflicted w1 = ∅
  ∧ dirs w1 = delete sd (dirs w)
  ∧ calls w w1
    = [OsStat sd; Git LsFilesU; OsReadFile (filepath_Join sd "target");
       OsReadFile (filepath_Join sd "target_sha");
       OsReadFile (filepath_Join sd "current_branch");
       OsReadFile (filepath_Join sd "orig_head");
       Git AddU; Git DiffCachedNameOnly; Git MergeAbort; OsRemoveAll sd]
  ∧ ("✨ No changes to commit - branches are compatible!" +:+ LF) ∈ printed w w1.
Proof.
  unfold continueCapture. step_with isAnticipateInProgress_eq.
  destruct (dirs w !! sd) as [files|] eqn:Hd.
  2:{ rewrite bool_decide_false by (by intros [??]). intros [=]. }
  rewrite bool_decide_true by done. cbn [negb].
  step_with hasUnmergedFiles_run. autorewrite with frame.
  destruct (unmergedNow w) eqn:Hum.
  { step_with getConflictingFiles_run.
    rewrite bind_Printf, bind_forEach_Printf, bind_Printf. intros [=]. }
  do 4 (step_on readStateFile_eq; autorewrite with frame;
        match goal with |- context [field w sd ?n] =>
          destruct (field w sd n) eqn:? end; [|intros [=]]).
  rewrite bind_Printf.
  destruct (gitdir w) as [gd|] eqn:Hgd.
  2:{ step_with AddU_norepo. unfold bind at 1, onError.
      rewrite Output_norepo by (projs; exact Hgd). intros [=]. }
  step_with (AddU_run gd).
  rewrite !staged_record, staged_stdout, !staged_record.
  step_on (Output_DiffCachedNameOnly gd).
  destruct (length _ =? 0) eqn:Hlen.
  2:{ step_with (Output_DiffCachedNameOnlyD gd). rewrite bind_Printf. unfold bind at 1.
      match goal with |- context [readResolved ?d ?c ?f ?w0] =>
        destruct (readResolved d c f w0) as [[fc|e] w2] end; intros [=]. }
  rewrite bind_Printf. step_with (abortMerge_run gd). unfold bind at 1.
  rewrite removeState_run. unfold ret. intros [= <-].
  match goal with |- context [mergeAborted ?w0] =>
    set (wa := mergeAborted w0);
    destruct (mergeAborted_facts w0) as (_ & _ & Hb & Hr & Ho & Hdd & Hl & Hso);
    pose proof (merge_head_mergeAborted w0) as Hm;
    pose proof (conflicted_mergeAborted w0) as Hc;
    fold wa in Hb, Hr, Ho, Hdd, Hl, Hso, Hm, Hc
  end.
  destruct (staged_facts w) as (_ & _ & Eb & Er & Eo & _ & _ & Ed & Eso & El & Ec).
  rewrite refs_set_dirs, refs_record, objects_set_dirs, objects_record,
    branch_set_dirs, branch_record, merge_head_set_dirs, merge_head_record,
    conflicted_set_dirs, conflicted_record, dirs_set_dirs, dirs_record.
  split. { rewrite Hr. projs. exact Er. }
  split. { rewrite Ho. projs. exact Eo. }
  split. { rewrite Hb. projs. exact Eb. }
  split; [exact Hm|].
  split. { apply Hc. projs. exact Ec. }
  split. { rewrite Hdd. projs. by rewrite Ed. }
  split.
  { apply calls_app. rewrite log_set_dirs, log_record, Hl. projs. rewrite El.
    by rewrite <- !app_assoc. }
  unfold printed. rewrite stdout_set_dirs, stdout_record, Hso. projs. rewrite Eso.
  rewrite <- !app_assoc, drop_app_length.
  apply elem_of_app. right. apply elem_of_cons. by left.
Qed.


(** * What start records, and what it leaves alone *)

(** X9.  When [start] has run the merge and the session is still there
    afterwards, the record holds the state of before the merge: the
    target as given, the name of the branch that was checked out, the
    id [HEAD] had and the id the target resolved to, each trimmed.  The
    branch itself has not moved. *)
Theorem start_records_the_tips (stateDir targetBranch : string) (w w' : World)
    (r : result unit) :
  startAnticipate stateDir targetBranch w = (r, w') →
  Git (Merge targetBranch) ∈ calls w w' →
  is_Some (dirs w' !! stateDir) →
  ∃ h t,
    HEAD w = Some h ∧ resolve w targetBranch = Some t
    ∧ field w' stateDir "target" = Some (TrimSpace targetBranch)
    ∧ field w' stateDir "current_branch" = Some (TrimSpace (branch w))
    ∧ field w' stateDir "orig_head" = Some (TrimSpace h)
    ∧ field w' stateDir "target_sha" = Some (TrimSpace t)
    ∧ HEAD w' = Some h.
Proof.
  intros Hrun Hin Hsd.
  destruct (start_reaches_merge _ _ _ _ _ Hrun Hin) as (cb & oh & ts & w1 & l1 & Hpre & Hm & _).
  apply startPrefix_ok in Hpre as (gd & h & t & Hgd & _ & _ & Hh & Ht & -> & -> & ->
    & He1 & Hr1 & Hd1 & _).
  assert (gitdir w1 = Some gd) as Hg1 by (by rewrite (repo_gitdir _ _ Hr1)).
  apply (startMerge_run gd) in Hm as (m & wm & ok & out & wg & _ & Hgm & Hr' & _ & _ & Hcase);
    [|exact Hg1].
  assert (dirs w' = dirs w1) as Hd'.
  { destruct m as [[| |] mergeErr].
    - destruct Hcase as (_ & _ & Hc). destruct (changesNow wg); [by destruct Hc|].
      destruct Hc as [Hc _]. rewrite Hc, lookup_delete_eq in Hsd. by destruct Hsd.
    - by destruct Hcase as (_ & _ & _ & ?).
    - destruct Hcase as (_ & _ & _ & _ & Hc). rewrite Hc, lookup_delete_eq in Hsd.
      by destruct Hsd. }
  assert (dirs w' !! stateDir
          = Some (sessionRecord targetBranch (TrimSpace h) (TrimSpace t) (TrimSpace (branch w))
                    ∪ ∅)) as Hrec.
  { rewrite Hd', Hd1, lookup_insert_eq. by rewrite (right_id_L ∅ (∪)). }
  apply field_sessionRecord in Hrec as (F1 & F2 & F3 & F4).
  rewrite !TrimSpace_idemp in F2, F3, F4.
  exists h, t. split; [exact Hh|]. split; [exact Ht|]. split; [exact F1|].
  split; [exact F4|]. split; [exact F2|]. split; [exact F3|].
  apply git_merge_facts in Hgm as (_ & _ & Hb & Hrf & _).
  assert (refs w' = refs w ∧ branch w' = branch w) as [Hrw Hbw].
  { revert Hr' Hr1. unfold repo. intros [= _ Hb' Hr'' _ _ _ _ _] [= _ Hb1 Hr1' _ _ _ _ _].
    rewrite Hr'', Hb', Hrf, Hb. projs. by rewrite Hr1', Hb1. }
  unfold HEAD. rewrite Hrw, Hbw. exact Hh.
Qed.

Lemma start_records_the_tips_witness :
  let w' := Demo.started Demo.calm in
  field w' Demo.stateDir "target" = Some (TrimSpace "dev")
  ∧ field w' Demo.stateDir "current_branch" = Some (TrimSpace "feature")
  ∧ field w' Demo.stateDir "orig_head" = Some (TrimSpace Demo.feature_id)
  ∧ field w' Demo.stateDir "target_sha" = Some (TrimSpace Demo.dev_id)
  ∧ HEAD w' = Some Demo.feature_id.
Proof.
  pose (run := startAnticipate Demo.stateDir "dev" (Demo.fresh Demo.calm)).
  destruct (start_records_the_tips Demo.stateDir "dev" (Demo.fresh Demo.calm) (snd run)
              (fst run) (surjective_pairing run))
    as (h & t & Hh & Ht & F1 & F2 & F3 & F4 & Hh').
  - by_compute.
  - by_compute.
  - assert (HEAD (Demo.fresh Demo.calm) = Some Demo.feature_id) as Hh0
      by (vm_compute; reflexivity).
    assert (resolve (Demo.fresh Demo.calm) "dev" = Some Demo.dev_id) as Ht0
      by (vm_compute; reflexivity).
    rewrite Hh in Hh0. rewrite Ht in Ht0. injection Hh0 as ->. injection Ht0 as ->.
    split; [exact F1|]. split; [exact F2|]. split; [exact F3|]. split; [exact F4|exact Hh'].
Defined.

Lemma history_git c w :
  match c with ResetHard _ | CommitM _ _ => False | _ => True end →
  history (snd (git_exec c w)) = history w.
Proof.
  intros Hc. unfold git_exec. destruct (gitdir w) eqn:Hg; [|done].
  destruct c; try done; cbn [snd].
  - by destruct (resolve w rev).
  - by destruct (HEAD w).
  - by destruct (resolve w rev).
  - destruct (resolve w b1); [|done]. destruct (resolve w b2); [|done].
    by destruct (merge_base _ _ _).
  - destruct (git_merge b w) as [[ok out] wm] eqn:E.
    apply git_merge_facts in E as (_ & _ & Hb & Hr & Ho & _).
    cbn [snd]. unfold history. by rewrite Hb, Hr, Ho.
  - by destruct (merge_head w).
  - destruct (worktree w !! f); [done|]. by case_decide.
Qed.

Lemma history_startAnticipate sd tb : keeps (sameOn history) (startAnticipate sd tb).
Proof.
  unfold startAnticipate, saveState, removeState, performMerge, hasStagedOrUnstagedChanges,
    getCurrentBranch, validateBranchExists, getRevisionSHA, getMergeBase.
  keeps_tac;
    first [ apply same_Printf | apply same_Run | apply same_Output | apply same_CombinedOutput
          | apply same_os_Stat | apply same_os_MkdirAll | apply same_os_RemoveAll
          | apply same_os_WriteFileIn ];
    try (intros; first [reflexivity | by apply history_git]).
Qed.

(** X10.  Whatever its outcome, [start] creates no commit and moves no
    branch: the checked-out branch, every ref and every object are
    after the run what they were before it. *)
Theorem start_moves_no_branch (stateDir targetBranch : string) (w : World) :
  let w' := snd (startAnticipate stateDir targetBranch w) in
  branch w' = branch w ∧ refs w' = refs w ∧ objects w' = objects w ∧ HEAD w' = HEAD w.
Proof.
  intros w'.
  pose proof (history_startAnticipate stateDir targetBranch w _ _
                (surjective_pairing _)) as Hk.
  fold w' in Hk. unfold sameOn, history in Hk. injection Hk as Hb Hr Ho.
  unfold HEAD. by rewrite Hb, Hr, Ho.
Qed.

Lemma git_exec_query c w : isQuery (Git c) → snd (git_exec c w) = w.
Proof.
  intros Hc. unfold git_exec. destruct (gitdir w) eqn:Hg; [|done].
  destruct c; try done; cbn [snd].
  - by destruct (resolve w rev).
  - by destruct (HEAD w).
  - by destruct (resolve w rev).
  - destruct (resolve w b1); [|done]. destruct (resolve w b2); [|done].
    by destruct (merge_base _ _ _).
Qed.

Lemma untouchedBefore_PreOrder d : PreOrder (untouchedBefore d).
Proof.
  split.
  - intros w. exists []. split; [by rewrite app_nil_r|]. intros _. by split.
  - intros w1 w2 w3 (l1 & Hl1 & H1) (l2 & Hl2 & H2). exists (l1 ++ l2).
    split; [by rewrite Hl2, Hl1, app_assoc|].
    intros Hnot. apply not_elem_of_app in Hnot as [Hn1 Hn2].
    destruct (H1 Hn1) as [Hu1 Hq1]. destruct (H2 Hn2) as [Hu2 Hq2].
    split; [by eapply unchanged_trans|by apply Forall_app].
Qed.
#[export] Hint Resolve untouchedBefore_PreOrder : keeps.

Lemma untouched_Printf d s : keeps (untouchedBefore d) (Printf s).
Proof.
  intros w r w' [= <- <-]. exists []. split; [by rewrite app_nil_r|]. intros _. by split.
Qed.

Lemma untouched_os_Stat d p : keeps (untouchedBefore d) (os_Stat p).
Proof.
  intros w r w' Hrun. unfold os_Stat in Hrun. exists [OsStat p].
  assert (w' = record (OsStat p) w) as -> by (destruct (dirs w !! p); by injection Hrun).
  split; [done|]. intros _. split; [done|by repeat constructor].
Qed.

Lemma untouched_Output d c : isQuery (Git c) → keeps (untouchedBefore d) (Output c).
Proof.
  intros Hc w r w' Hrun. unfold Output in Hrun. exists [Git c].
  pose proof (git_exec_query c (record (Git c) w) Hc) as Hq.
  assert (w' = record (Git c) w) as ->.
  { destruct (git_exec c (record (Git c) w)) as [[[] out] w1]; cbn [snd] in Hq; subst w1;
      by injection Hrun. }
  split; [done|]. intros _. split; [done|by repeat constructor].
Qed.

Lemma untouched_Run d c : isQuery (Git c) → keeps (untouchedBefore d) (Run c).
Proof.
  intros Hc w r w' Hrun. unfold Run in Hrun. exists [Git c].
  pose proof (git_exec_query c (record (Git c) w) Hc) as Hq.
  assert (w' = record (Git c) w) as ->.
  { destruct (git_exec c (record (Git c) w)) as [[[] out] w1]; cbn [snd] in Hq; subst w1;
      by injection Hrun. }
  split; [done|]. intros _. split; [done|by repeat constructor].
Qed.

Lemma untouched_saveState d tb oh ts cb :
  keeps (untouchedBefore d) (saveState d tb oh ts cb).
Proof.
  intros w r w' Hrun.
  apply saveState_run in Hrun as (_ & _ & _ & _ & (l & Hl & _) & _).
  exists (OsMkdirAll d :: l). split; [exact Hl|]. intros Hnot.
  destruct Hnot. by left.
Qed.

Lemma untouched_startPrefix sd tb : keeps (untouchedBefore sd) (startPrefix sd tb).
Proof.
  unfold startPrefix, getCurrentBranch, validateBranchExists, getRevisionSHA, getMergeBase.
  generalize (untouched_saveState sd). generalize (saveState sd). intros save Hsave.
  keeps_tac;
    first [ apply untouched_Printf | apply untouched_os_Stat | apply Hsave
          | apply untouched_Output; exact I | apply untouched_Run; exact I ].
Qed.

Lemma logs_startMerge sd tb : logs (λ _, True) (startMerge sd tb).
Proof.
  unfold startMerge, performMerge, hasStagedOrUnstagedChanges, removeState.
  repeat first
    [ progress logs_tac
    | match goal with |- logs _ (match ?x with _ => _ end) => destruct x end ]; done.
Qed.

(** X11.  A [start] that does not get as far as creating the session
    directory has returned an error after read-only calls only, and has
    changed nothing: every check that precedes [saveState] fails
    fast. *)
Theorem start_fails_fast (stateDir targetBranch : string) (w w' : World) (r : result unit) :
  startAnticipate stateDir targetBranch w = (r, w') →
  OsMkdirAll stateDir ∉ calls w w' →
  (∃ e, r = Err e) ∧ unchanged w w' ∧ Forall isQuery (calls w w').
Proof.
  rewrite start_split. unfold bind at 1.
  destruct (startPrefix stateDir targetBranch w) as [[[[cb oh] ts]|e] w1] eqn:Hpre.
  - intros Hm Hnot. exfalso. apply Hnot.
    apply startPrefix_ok in Hpre as (_ & _ & _ & _ & _ & _ & _ & _ & _ & _ & _ & _ & _ & _
      & writes & Hl1 & _).
    destruct (logs_startMerge _ _ _ _ _ Hm) as (l2 & Hl2 & _).
    rewrite Hl1 in Hl2. rewrite <- !app_assoc in Hl2.
    rewrite (calls_app _ _ _ Hl2).
    apply elem_of_app. right. apply elem_of_app. left. by left.
  - intros [= <- <-] Hnot.
    destruct (untouched_startPrefix _ _ _ _ _ Hpre) as (l & Hl & Hq).
    rewrite (calls_app _ _ _ Hl) in Hnot |- *.
    destruct (Hq Hnot) as [Hu Hf]. split; [by eexists|]. by split.
Qed.

Lemma start_fails_fast_witness :
  let run := startAnticipate Demo.stateDir "nowhere" (Demo.fresh Demo.calm) in
  (∃ e, fst run = Err e) ∧ unchanged (Demo.fresh Demo.calm) (snd run)
  ∧ Forall isQuery (calls (Demo.fresh Demo.calm) (snd run)).
Proof.
  intros run.
  apply (start_fails_fast Demo.stateDir "nowhere" (Demo.fresh Demo.calm) (snd run) (fst run)
           (surjective_pairing run)).
  by_compute.
Defined.
(** * Short ids and listings *)

Lemma length_substring_0 n s :
  n ≤ String.length s → String.length (substring 0 n s) = n.
Proof.
  revert s. induction n as [|n IH]; intros s Hn.
  - by destruct s.
  - destruct s as [|a s]; cbn [String.length] in Hn; [lia|].
    cbn [substring String.length]. rewrite IH; [done|lia].
Qed.

Lemma prefix_substring_0 n s : String.prefix (substring 0 n s) s = true.
Proof.
  revert s. induction n as [|n IH]; intros s.
  - by destruct s.
  - destruct s as [|a s]; [done|]. cbn [substring String.prefix].
    destruct (ascii_dec a a); [apply IH|done].
Qed.

Lemma prefix_refl s : String.prefix s s = true.
Proof.
  induction s as [|a s IH]; [done|]. cbn [String.prefix]. by destruct (ascii_dec a a).
Qed.

(** X12.  [truncateSHA] always gives between 1 and 8 bytes.  It looks
    at its argument through [strings.TrimSpace] only, so white space
    around the id (the line feed git prints, say) makes no difference;
    and unless the trimmed id is empty, what it gives is a prefix of the
    trimmed id, the whole of it when that has at most 8 bytes. *)
Theorem truncateSHA_bounds (sha : string) :
  1 ≤ String.length (truncateSHA sha) ≤ 8
  ∧ truncateSHA (TrimSpace sha) = truncateSHA sha
  ∧ truncateSHA (sha +:+ LF) = truncateSHA sha
  ∧ (TrimSpace sha ≠ "" → String.prefix (truncateSHA sha) (TrimSpace sha) = true)
  ∧ (TrimSpace sha ≠ "" → String.length (TrimSpace sha) ≤ 8 →
     truncateSHA sha = TrimSpace sha)
  ∧ (truncateSHA sha = "unknown" ↔ TrimSpace sha = "" ∨ TrimSpace sha = "unknown").
Proof.
  assert (∀ s, TrimSpace s ≠ "" → String.length (TrimSpace s) ≠ 0) as Hlen.
  { intros s Hs Hl. apply Hs. by destruct (TrimSpace s). }
  split.
  { unfold truncateSHA. destruct (8 <? _) eqn:E8.
    - apply Nat.ltb_lt in E8. rewrite length_substring_0 by lia. lia.
    - apply Nat.ltb_ge in E8. destruct (_ =? 0) eqn:E0; [cbn; lia|].
      apply Nat.eqb_neq in E0. lia. }
  split. { unfold truncateSHA. by rewrite TrimSpace_idemp. }
  split. { unfold truncateSHA. by rewrite TrimSpace_app_space. }
  split.
  { intros Hne. unfold truncateSHA. destruct (8 <? _); [apply prefix_substring_0|].
    rewrite (proj2 (Nat.eqb_neq _ _) (Hlen _ Hne)). apply prefix_refl. }
  split.
  { intros Hne Hle. unfold truncateSHA.
    rewrite (proj2 (Nat.ltb_ge _ _) Hle).
    by rewrite (proj2 (Nat.eqb_neq _ _) (Hlen _ Hne)). }
  unfold truncateSHA. destruct (8 <? _) eqn:E8.
  - apply Nat.ltb_lt in E8. split.
    + intros Hu. assert (String.length (substring 0 8 (TrimSpace sha)) = 8) as Hl
        by (apply length_substring_0; lia).
      rewrite Hu in Hl. discriminate Hl.
    + intros [H|H]; rewrite H in E8; cbn in E8; lia.
  - destruct (_ =? 0) eqn:E0.
    + apply Nat.eqb_eq in E0. split; [intros _; left|done].
      by destruct (TrimSpace sha).
    + apply Nat.eqb_neq in E0. split; [by right|].
      intros [H|H]; [|done]. by rewrite H in E0.
Qed.

Lemma Split_pieces s : Forall (λ f, noLF f = true) (Split s).
Proof.
  induction s as [|a s IH]; cbn [Split]; [by repeat constructor|].
  destruct (Ascii.eqb a _) eqn:Ea; [by constructor|].
  destruct (Split s) as [|h t]; [by repeat constructor; cbn; rewrite Ea|].
  apply Forall_cons in IH as [Hh Ht]. constructor; [|done].
  cbn [noLF]. by rewrite Ea, Hh.
Qed.

(** X13.  The loop that turns a listing of git into file names
    ([strings.Split] of the trimmed output, empty pieces dropped):
    every name it gives is non-empty and has no line feed; an output
    that is empty or all white space gives no name at all, rather than
    one empty name; and a listing of names that have no line feed and
    no white space at either end is read back exactly, in order. *)
Theorem listing_round_trip :
  (∀ out, Forall (λ f, f ≠ "" ∧ noLF f = true) (nonEmptyLines out))
  ∧ (∀ out, allSpace out = true → nonEmptyLines out = [])
  ∧ (∀ names, Forall plainName names → nonEmptyLines (unlines names) = names)
  ∧ (∀ out, nonEmptyLines (LF +:+ out +:+ LF) = nonEmptyLines out).
Proof.
  split.
  { intros out. unfold nonEmptyLines. apply Forall_forall. intros f Hf.
    apply list_elem_of_filter in Hf as [Hne Hin]. split; [exact Hne|].
    exact (proj1 (Forall_forall _ _) (Split_pieces _) _ Hin). }
  split.
  { intros out Hsp. unfold nonEmptyLines.
    by rewrite (proj2 (TrimSpace_empty out) Hsp). }
  split; [apply nonEmptyLines_unlines|].
  intros out. unfold nonEmptyLines. f_equal.
  change (LF +:+ out +:+ LF) with (String (ascii_of_nat 10) (out +:+ LF)).
  unfold TrimSpace. cbn [trimLeft]. change (isSpace (ascii_of_nat 10)) with true.
  cbv iota. fold (TrimSpace (out +:+ LF)). fold (TrimSpace out).
  by rewrite TrimSpace_app_space.
Qed.
(** * Looking at the repository *)


(** X15.  What [status] prints.  Without a session: two lines and only
    [os.Stat] is called.  With one: the recorded branch names and tip,
    a field that cannot be read showing as empty (the tip as
    [unknown]) instead of stopping the report; then either the number
    of unmerged paths and one line for each, or the note that all
    conflicts are resolved; then how to abort. *)
Theorem status_report (stateDir : string) (w : World) :
  (dirs w !! stateDir = None →
   ∃ w', showStatus stateDir w = (Ok tt, w')
     ∧ calls w w' = [OsStat stateDir]
     ∧ printed w w' = ["No anticipate in progress." +:+ LF +:+ LF;
                       "Usage: git anticipate <target-branch>" +:+ LF])
  ∧ (is_Some (dirs w !! stateDir) →
     ∃ w', showStatus stateDir w = (Ok tt, w')
       ∧ printed w w'
         = ["🚀 git-anticipate: In Progress" +:+ LF +:+ LF;
            "Current branch:  " +:+ default "" (field w stateDir "current_branch") +:+ LF;
            "Target branch:   " +:+ default "" (field w stateDir "target") +:+ LF;
            "Original HEAD:   "
              +:+ truncateSHA (default "" (field w stateDir "orig_head")) +:+ LF;
            LF]
           ++ (if unmergedNow w
               then ["⚠️  Unresolved conflicts ("
                       +:+ pretty (length (conflictingNow w)) +:+ "):" +:+ LF]
                    ++ ((λ file, "    ❌ " +:+ file +:+ LF) <$> conflictingNow w)
                    ++ [LF +:+ "Resolve conflicts, then:" +:+ LF;
                        "  git add <resolved-files>" +:+ LF;
                        "  git anticipate --continue" +:+ LF]
               else ["✔ All conflicts resolved!" +:+ LF;
                     LF +:+ "Run 'git anticipate --continue' to apply resolution" +:+ LF])
           ++ [LF +:+ "Or run 'git anticipate --abort' to cancel" +:+ LF]).
Proof.
  split.
  - intros Hd. unfold showStatus. step_with isAnticipateInProgress_eq.
    rewrite bool_decide_false by (rewrite Hd; by intros [??]). cbn [negb].
    rewrite !bind_Printf. eexists. split; [reflexivity|].
    split; [by apply calls_app|]. apply printed_app. projs. by rewrite <- app_assoc.
  - intros Hd. unfold showStatus. step_with isAnticipateInProgress_eq.
    rewrite bool_decide_true by done. cbn [negb].
    do 3 step_with orDefault_readStateFile.
    rewrite !bind_Printf. step_with hasUnmergedFiles_run. autorewrite with frame.
    destruct (unmergedNow w).
    + unfold bind at 1. step_with getConflictingFiles_run. autorewrite with frame.
      rewrite bind_Printf, bind_forEach_Printf, !bind_Printf.
      eexists. split; [reflexivity|]. apply printed_app. projs. autorewrite with frame.
      by rewrite <- !app_assoc.
    + unfold bind at 1. rewrite !bind_Printf.
      eexists. split; [reflexivity|]. apply printed_app. projs. autorewrite with frame.
      by rewrite <- !app_assoc.
Qed.

Lemma status_report_witness :
  ∃ w', showStatus Demo.stateDir Demo.headless = (Ok tt, w')
    ∧ printed Demo.headless w'
      = ["🚀 git-anticipate: In Progress" +:+ LF +:+ LF;
         "Current branch:  feature" +:+ LF;
         "Target branch:   dev" +:+ LF;
         "Original HEAD:   unknown" +:+ LF;
         LF;
         "⚠️  Unresolved conflicts (1):" +:+ LF;
         "    ❌ file.txt" +:+ LF;
         LF +:+ "Resolve conflicts, then:" +:+ LF;
         "  git add <resolved-files>" +:+ LF;
         "  git anticipate --continue" +:+ LF;
         LF +:+ "Or run 'git anticipate --abort' to cancel" +:+ LF].
Proof.
  destruct (proj2 (status_report Demo.stateDir Demo.headless)) as (w' & Hrun & Hp).
  - by_compute.
  - exists w'. split; [exact Hrun|]. rewrite Hp. vm_compute. reflexivity.
Defined.

Lemma clean_no_changes w : clean w → changesNow w = false.
Proof.
  intros (Hc & Hi & Hw). unfold changesNow.
  rewrite bool_decide_true by done. rewrite bool_decide_true; [done|].
  split; [done|]. rewrite Hw. apply map_eq. intros p.
  rewrite map_lookup_filter. destruct (index w !! p) as [c|] eqn:E; [|done].
  cbn. rewrite option_guard_True; [done|]. cbn. by apply elem_of_dom.
Qed.


Lemma performMerge_norepo tb w :
  gitdir w = None →
  performMerge tb w
  = (Ok (MergeError, Some (Errorf ("merge failed: " +:+ TrimSpace ""))),
     record (Git LsFilesU) (record (Git (Merge tb)) w)).
Proof.
  intros Hgd. unfold performMerge. unfold bind at 1, CombinedOutput, git_exec.
  rewrite gitdir_record, Hgd. cbv beta iota.
  unfold bind at 1. by rewrite hasUnmergedFiles_norepo.
Qed.

(** * The session store, once more *)

Lemma saveState_others sd tb oh ts cb w r w' d :
  saveState sd tb oh ts cb w = (r, w') → d ≠ sd → dirs w' !! d = dirs w !! d.
Proof.
  unfold saveState, bind, os_MkdirAll. intros Hrun Hne.
  destruct (mkdir_fails (env w) sd) eqn:Hmk.
  { by injection Hrun as <- <-. }
  unfold rangeMap in Hrun.
  set (old := default ∅ (dirs w !! sd)).
  match type of Hrun with forEach _ _ ?w1 = _ =>
    assert (dirs w1 !! sd = Some old) as Hold
      by (wsimpl; subst old; destruct (dirs w !! sd) eqn:E; [done|];
          by rewrite lookup_insert_eq);
    assert (dirs w1 !! d = dirs w !! d) as Hd1
      by (wsimpl; destruct (dirs w !! sd) eqn:E; [done|]; by rewrite lookup_insert_ne);
    destruct (write_loop _ _ _ w1 old _ _ Hold Hrun)
      as (_ & _ & _ & _ & _ & new & Hd & _) end.
  rewrite Hd, lookup_insert_ne by done. exact Hd1.
Qed.

(** X18.  [saveState] touches the four files of the record and nothing
    else: whatever its result, every other directory is as it was; when
    it succeeds, any other file that was in the session directory is
    still there unchanged; and saving the same record a second time
    changes nothing. *)
Theorem save_touches_only_the_record
    (stateDir targetBranch origHead targetSHA currentBranch : string)
    (w w' : World) (r : result unit) :
  saveState stateDir targetBranch origHead targetSHA currentBranch w = (r, w') →
  (∀ d, d ≠ stateDir → dirs w' !! d = dirs w !! d)
  ∧ (r = Ok tt →
     ∃ files, dirs w' !! stateDir = Some files
       ∧ (∀ name, name ∉ ["target"; "orig_head"; "target_sha"; "current_branch"] →
            files !! name = default ∅ (dirs w !! stateDir) !! name)
       ∧ ∀ w2, saveState stateDir targetBranch origHead targetSHA currentBranch w'
               = (Ok tt, w2) →
               dirs w2 = dirs w').
Proof.
  intros Hrun. split.
  { intros d Hd. by eapply saveState_others. }
  intros ->.
  apply saveState_run in Hrun as (_ & _ & _ & _ & _ & Hok & _).
  specialize (Hok eq_refl).
  set (rec := sessionRecord targetBranch origHead targetSHA currentBranch) in *.
  set (old := default ∅ (dirs w !! stateDir)) in *.
  exists (rec ∪ old). split; [by rewrite Hok, lookup_insert_eq|]. split.
  - intros name Hname. rewrite lookup_union.
    assert (rec !! name = None) as ->.
    { unfold rec, sessionRecord.
      rewrite !lookup_insert_ne, lookup_empty; [done|..];
        intros <-; apply Hname; set_solver. }
    by destruct (old !! name).
  - intros w2 Hrun2.
    apply saveState_run in Hrun2 as (_ & _ & _ & _ & _ & Hok2 & _).
    assert (rec ∪ (rec ∪ old) = rec ∪ old) as Hidem
      by (by rewrite (assoc_L (∪)), (idemp_L (∪))).
    rewrite (Hok2 eq_refl). fold rec.
    rewrite Hok, lookup_insert_eq. cbn [default].
    rewrite insert_insert_eq. unfold id. by rewrite Hidem.
Qed.

Lemma save_touches_only_the_record_witness :
  let w := Demo.started Demo.calm in
  let run := saveState Demo.stateDir "dev" Demo.feature_id Demo.dev_id "feature" w in
  fst run = Ok tt ∧ dirs (snd run) = dirs w.
Proof.
  intros w run.
  assert (fst run = Ok tt) as Hok by (vm_compute; reflexivity).
  split; [exact Hok|].
  pose (run0 := saveState Demo.stateDir "dev" Demo.feature_id Demo.dev_id "feature"
                  (Demo.fresh Demo.calm)).
  assert (fst run0 = Ok tt) as Hok0 by (vm_compute; reflexivity).
  destruct (proj2 (save_touches_only_the_record Demo.stateDir "dev" Demo.feature_id
                     Demo.dev_id "feature" (Demo.fresh Demo.calm) (snd run0) (fst run0)
                     (surjective_pairing run0)) Hok0) as (files & _ & _ & Hidem).
  assert (dirs w = dirs (snd run0)) as Hsame by by_compute.
  assert (saveState Demo.stateDir "dev" Demo.feature_id Demo.dev_id "feature" (snd run0)
          = (Ok tt, snd (saveState Demo.stateDir "dev" Demo.feature_id Demo.dev_id
                           "feature" (snd run0)))) as Hrun2.
  { apply run_eq. vm_compute. reflexivity. }
  rewrite Hsame, <- (Hidem _ Hrun2). by_compute.
Defined.

(** * How a session ends *)

Lemma Run_norepo c w : gitdir w = None → Run c w = (Err exitError, record (Git c) w).
Proof. intros H. unfold Run, git_exec. wsimpl. by rewrite H. Qed.

Lemma head_tree_at w id cm :
  HEAD w = Some id → objects w !! id = Some cm → head_tree w = c_tree cm.
Proof. intros Hh Ho. unfold head_tree, tree_at. by rewrite Hh; cbn; rewrite Ho. Qed.

(** X20.  After an [abort] that succeeded the session directory is gone,
    no merge is in progress, nothing is unmerged and nothing is staged
    (the index is the tree of [HEAD]); no object was lost and the same
    branch is checked out.  A second [abort], or a [continue], then
    fails with "no anticipate in progress". *)
Theorem abort_ends_the_session (stateDir : string) (w w' : World) :
  abortAnticipate stateDir w = (Ok tt, w') →
  dirs w' = delete stateDir (dirs w)
  ∧ merge_head w' = None ∧ conflicted w' = ∅ ∧ index w' = head_tree w'
  ∧ objects w' = objects w ∧ branch w' = branch w
  ∧ fst (abortAnticipate stateDir w') = Err (Errorf "no anticipate in progress")
  ∧ (∀ noVerify, fst (continueAnticipate stateDir noVerify w')
                 = Err (Errorf "no anticipate in progress")).
Proof.
  intros Hrun.
  assert (dirs w' = delete stateDir (dirs w)
          ∧ merge_head w' = None ∧ conflicted w' = ∅ ∧ index w' = head_tree w'
          ∧ objects w' = objects w ∧ branch w' = branch w) as Hfacts.
  { revert Hrun. unfold abortAnticipate. step_with isAnticipateInProgress_eq.
    destruct (bool_decide _); cbn [negb]; [|intros [=]].
    rewrite bind_Printf.
    destruct (gitdir w) as [gd|] eqn:Hgd.
    2:{ unfold bind at 1, abortMerge, ignoreError. cbn [fst].
        rewrite Run_norepo by done. cbn [snd].
        step_on readStateFile_eq.
        match goal with |- context [field ?w0 stateDir "orig_head"] =>
          destruct (field w0 stateDir "orig_head") end; [|intros [=]].
        rewrite bind_Printf. unfold bind at 1, onError.
        rewrite Run_norepo by done. intros [=]. }
    step_with (abortMerge_run gd).
    set (w2 := mergeAborted _).
    destruct (mergeAborted_facts (record (Git MergeAbort)
                (set_stdout (λ o, o ++ ["🚀 git-anticipate: Aborting" +:+ LF +:+ LF])
                   (record (OsStat stateDir) w))))
      as (_ & Hg2 & Hb2 & _ & Ho2 & Hd2 & _).
    fold w2 in Hg2, Hb2, Ho2, Hd2.
    rewrite gitdir_record, gitdir_set_stdout, gitdir_record in Hg2.
    rewrite branch_record, branch_set_stdout, branch_record in Hb2.
    rewrite objects_record, objects_set_stdout, objects_record in Ho2.
    rewrite dirs_record, dirs_set_stdout, dirs_record in Hd2.
    clearbody w2.
    step_on readStateFile_eq.
    destruct (field w2 stateDir "orig_head") as [tip|]; [|intros [=]].
    rewrite bind_Printf. unfold bind at 1, onError.
    match goal with |- context [Run ?c ?w0] =>
      destruct (Run c w0) as [[[]|e] w3] eqn:Ereset end; [|intros [=]].
    apply (ResetHard_inv gd) in Ereset as (id & cm & _ & Hobj & ->);
      [|by rewrite gitdir_set_stdout, gitdir_record, Hg2].
    rewrite objects_set_stdout, objects_record in Hobj.
    step_with removeState_run. rewrite bind_Printf. unfold ret. intros [= <-].
    assert (∀ X, HEAD (set_stdout X (set_dirs (delete stateDir)
              (record (OsRemoveAll stateDir)
                 (set_refs <[branch (record (Git (ResetHard tip))
                      (set_stdout (λ o, o ++ ["✔ Restoring original state..." +:+ LF])
                         (record (OsReadFile (filepath_Join stateDir "orig_head")) w2)))
                      := id]>
                    (checkout_tree (c_tree cm)
                       (record (Git (ResetHard tip))
                          (set_stdout (λ o, o ++ ["✔ Restoring original state..." +:+ LF])
                             (record (OsReadFile (filepath_Join stateDir "orig_head"))
                                w2)))))))) = Some id) as Hh.
    { intros X. unfold HEAD. projs. apply lookup_insert_eq. }
    split. { projs. by rewrite Hd2. }
    split. { by projs. }
    split. { by projs. }
    split.
    { rewrite (head_tree_at _ id cm); [by projs|apply Hh|projs; exact Hobj]. }
    split. { projs. exact Ho2. }
    projs. exact Hb2. }
  destruct Hfacts as (Hd & Hm & Hc & Hi & Ho & Hb).
  split; [exact Hd|]. split; [exact Hm|]. split; [exact Hc|]. split; [exact Hi|].
  split; [exact Ho|]. split; [exact Hb|].
  assert (dirs w' !! stateDir = None) as Hnone by (rewrite Hd; apply lookup_delete_eq).
  split.
  - by rewrite abort_without_session.
  - intros nv. by rewrite continue_without_session.
Qed.

Lemma abort_ends_the_session_witness :
  let run := abortAnticipate Demo.stateDir (Demo.resolved Demo.calm) in
  fst run = Ok tt
  ∧ dirs (snd run) = delete Demo.stateDir (dirs (Demo.resolved Demo.calm))
  ∧ merge_head (snd run) = None ∧ conflicted (snd run) = ∅
  ∧ index (snd run) = head_tree (snd run)
  ∧ fst (abortAnticipate Demo.stateDir (snd run)) = Err (Errorf "no anticipate in progress").
Proof.
  intros run.
  assert (fst run = Ok tt) as Hok by (vm_compute; reflexivity).
  destruct (abort_ends_the_session Demo.stateDir (Demo.resolved Demo.calm) (snd run)
              (run_eq run _ Hok)) as (Hd & Hm & Hc & Hi & _ & _ & Ha & _).
  split; [exact Hok|]. split; [exact Hd|]. split; [exact Hm|]. split; [exact Hc|].
  split; [exact Hi|exact Ha].
Defined.

(** X21.  After a [continue] that succeeded, with or without a commit,
    the session directory is gone, no merge is in progress and nothing
    is unmerged; when it made a commit nothing is left staged either
    (the index is the tree of the new [HEAD]).  A second [continue], or
    an [abort], then fails with "no anticipate in progress". *)
Theorem continue_ends_the_session (stateDir : string) (noVerify : bool) (w w' : World) :
  continueAnticipate stateDir noVerify w = (Ok tt, w') →
  dirs w' = delete stateDir (dirs w)
  ∧ merge_head w' = None ∧ conflicted w' = ∅
  ∧ (nonEmptyLines (unlines (changed_paths (staged w))) ≠ [] → index w' = head_tree w')
  ∧ fst (abortAnticipate stateDir w') = Err (Errorf "no anticipate in progress")
  ∧ (∀ nv, fst (continueAnticipate stateDir nv w')
           = Err (Errorf "no anticipate in progress")).
Proof.
  intros Hrun.
  assert (dirs w' = delete stateDir (dirs w)
          ∧ merge_head w' = None ∧ conflicted w' = ∅
          ∧ (nonEmptyLines (unlines (changed_paths (staged w))) ≠ [] →
             index w' = head_tree w')) as (Hd & Hm & Hc & Hi).
  { revert Hrun. rewrite continue_split. unfold bind at 1.
    destruct (continueCapture stateDir w) as [[[s|]|e] w1] eqn:Ecap; [| |intros [=]].
    2:{ unfold ret. intros [= <-].
        apply capture_none in Ecap as Hnil. destruct Hnil as [Hnil _].
        apply capture_nothing in Ecap as (_ & _ & _ & Hm & Hc & Hd & _).
        split; [exact Hd|]. split; [exact Hm|]. split; [exact Hc|]. by intros Hne. }
    apply capture_run in Ecap as (gd & Hgd & _ & _ & _ & _ & _ & _ & _ & Hr1 & Hd1 & _).
    assert (gitdir w1 = Some gd) as Hg1 by (by rewrite (repo_gitdir _ _ Hr1)).
    unfold bind at 1.
    destruct (continueStage s w1) as [[[]|e] w5] eqn:Est; [|intros [=]].
    apply (stage_run gd) in Est as (_ & Hg5 & _ & Hd5 & Hc5 & _); [|exact Hg1].
    intros Ecom.
    apply (commit_run gd) in Ecom as Hcr; [|by rewrite Hg5].
    destruct Hcr as [(_ & _ & _ & Hi & Hd & _)|((msg & [=]) & _)].
    apply (commit_made gd) in Ecom as Hcm; [|by rewrite Hg5].
    destruct Hcm as (Hh & Ho & Hm & Hcc).
    split; [by rewrite Hd, Hd5, Hd1|]. split; [exact Hm|].
    split; [by rewrite Hcc|].
    intros _. rewrite (head_tree_at _ _ _ Hh Ho). unfold new_commit. cbn [c_tree].
    exact Hi. }
  split; [exact Hd|]. split; [exact Hm|]. split; [exact Hc|]. split; [exact Hi|].
  assert (dirs w' !! stateDir = None) as Hnone by (rewrite Hd; apply lookup_delete_eq).
  split.
  - by rewrite abort_without_session.
  - intros nv. by rewrite continue_without_session.
Qed.

Lemma continue_ends_the_session_witness :
  let run := continueAnticipate Demo.stateDir false (Demo.resolved Demo.calm) in
  fst run = Ok tt
  ∧ dirs (snd run) = delete Demo.stateDir (dirs (Demo.resolved Demo.calm))
  ∧ merge_head (snd run) = None ∧ conflicted (snd run) = ∅
  ∧ index (snd run) = head_tree (snd run).
Proof.
  intros run.
  assert (fst run = Ok tt) as Hok by (vm_compute; reflexivity).
  destruct (continue_ends_the_session Demo.stateDir false (Demo.resolved Demo.calm) (snd run)
              (run_eq run _ Hok)) as (Hd & Hm & Hc & Hi & _).
  split; [exact Hok|]. split; [exact Hd|]. split; [exact Hm|]. split; [exact Hc|].
  apply Hi. by_compute.
Defined.
(** * Skipping the hooks *)

Lemma continueCommit_eq gd sd nv s w5 :
  gitdir w5 = Some gd →
  let w6 := record (Git (CommitM (commitMessage s) nv))
              (set_stdout (λ o, o ++ ["✔ Creating commit..." +:+ LF]) w5) in
  continueCommit sd nv s w5
  = if bool_decide (conflicted w5 ≠ ∅)
       || bool_decide (merge_head w5 = None ∧ index w5 = head_tree w5)
       || (hook_rejects (env w5) && negb nv)
    then (Err (Errorf ("failed to create commit: " +:+ Error exitError +:+ LF +:+ LF
             +:+ "Tip: If pre-commit hooks are failing, you can:" +:+ LF
             +:+ "  1. Fix the issues and run 'git anticipate --continue' again" +:+ LF
             +:+ "  2. Or run 'git anticipate --continue --no-verify' to skip hooks")), w6)
    else (Ok tt,
          set_stdout (λ o, o ++ ["Your branch is now prepared for merging into "
                                 +:+ s_targetBranch s +:+ LF])
            (set_stdout (λ o, o ++ [LF +:+ "✨ Success! Resolution committed to "
                                    +:+ s_currentBranch s +:+ LF])
               (set_dirs (delete sd)
                  (record (OsRemoveAll sd)
                     (set_merge_head None
                        (set_refs <[branch w5 := commit_id (env w5)
                                                   (new_commit (commitMessage s) w5)]>
                           (set_objects <[commit_id (env w5)
                                            (new_commit (commitMessage s) w5)
                                          := new_commit (commitMessage s) w5]> w6))))))).
Proof.
  intros Hgd w6. unfold continueCommit. rewrite bind_Printf. unfold bind at 1.
  unfold onError at 1, Run, git_exec. rewrite gitdir_record, gitdir_set_stdout, Hgd.
  change (conflicted (record _ (set_stdout _ w5))) with (conflicted w5).
  change (merge_head (record _ (set_stdout _ w5))) with (merge_head w5).
  change (index (record _ (set_stdout _ w5))) with (index w5).
  change (head_tree (record _ (set_stdout _ w5))) with (head_tree w5).
  change (env (record _ (set_stdout _ w5))) with (env w5).
  destruct (_ || _); [reflexivity|]. cbv beta iota.
  step_with removeState_run. rewrite !bind_Printf. reflexivity.
Qed.

Lemma continue_phases sd nv w :
  continueAnticipate sd nv w
  = match continueCapture sd w with
    | (Ok (Some s), w1) =>
        match continueStage s w1 with
        | (Ok _, w5) => continueCommit sd nv s w5
        | (Err e, w5) => (Err e, w5)
        end
    | (Ok None, w1) => (Ok tt, w1)
    | (Err e, w1) => (Err e, w1)
    end.
Proof.
  rewrite continue_split. unfold bind at 1.
  destruct (continueCapture sd w) as [[[s|]|e] w1]; try reflexivity.
Qed.


(** * More runs on the demo repository *)

Lemma truncateSHA_bounds_witness :
  truncateSHA (" " +:+ Demo.feature_id +:+ LF) = "f1f1f1f1"
  ∧ String.prefix (truncateSHA Demo.feature_id) (TrimSpace Demo.feature_id) = true
  ∧ truncateSHA "abc" = TrimSpace "abc".
Proof.
  destruct (truncateSHA_bounds Demo.feature_id) as (_ & _ & _ & Hp & _).
  destruct (truncateSHA_bounds "abc") as (_ & _ & _ & _ & Hs & _).
  split; [vm_compute; reflexivity|]. split.
  - apply Hp. by_compute.
  - apply Hs; [by_compute|vm_compute; lia].
Defined.

Lemma listing_round_trip_witness :
  nonEmptyLines (unlines ["file.txt"; "dir/new file.txt"]) = ["file.txt"; "dir/new file.txt"]
  ∧ nonEmptyLines (LF +:+ " " +:+ LF) = [].
Proof.
  destruct listing_round_trip as (_ & Hblank & Hback & _).
  split.
  - apply Hback. repeat constructor; by_compute.
  - apply Hblank. reflexivity.
Defined.



